(** * The phrase parsers of [core.triggers] and [core.conditions]

    A shallow embedding of the two decorator modules of the helper
    libraries, [core/triggers.py] ([when]) and [core/conditions.py]
    ([onlyif]): the regular expressions of every trigger and condition
    class, the first-word dispatch loop, the cron validator and the
    decorators themselves, followed by the properties of the phrase
    grammar that hold (or fail) on that code. *)

From Stdlib Require Import Ascii String NArith ZArith Lia.
From stdpp Require Import base option list strings gmap.

Local Open Scope string_scope.
Local Open Scope list_scope.

(** ** Python strings

    The methods of [str] that the two modules call.  Strings are kept as
    [string]; the scanning functions work on the list of characters. *)

Module PyStr.

Definition chars (s : string) : list ascii := list_ascii_of_string s.
Definition str (l : list ascii) : string := string_of_list_ascii l.

(** [c.isspace()]: blank, tab, newline, vertical tab, form feed, return. *)
Definition is_space (c : ascii) : bool :=
  let n := N_of_ascii c in ((9 <=? n) && (n <=? 13) || (n =? 32))%N.

Definition is_digit (c : ascii) : bool :=
  let n := N_of_ascii c in ((48 <=? n) && (n <=? 57))%N.

Definition is_upper (c : ascii) : bool :=
  let n := N_of_ascii c in ((65 <=? n) && (n <=? 90))%N.

Definition is_lower (c : ascii) : bool :=
  let n := N_of_ascii c in ((97 <=? n) && (n <=? 122))%N.

(** The class [\w] of [re]: letters, digits and the underscore. *)
Definition is_word (c : ascii) : bool :=
  is_upper c || is_lower c || is_digit c || (N_of_ascii c =? 95)%N.

Definition lower_char (c : ascii) : ascii :=
  if is_upper c then ascii_of_N (N_of_ascii c + 32) else c.

(** [s.lower()] *)
Definition lower (s : string) : string := str (map lower_char (chars s)).

Fixpoint lstrip_chars (l : list ascii) : list ascii :=
  match l with
  | c :: l' => if is_space c then lstrip_chars l' else l
  | [] => []
  end.

(** [s.strip()] *)
Definition strip_chars (l : list ascii) : list ascii :=
  rev (lstrip_chars (rev (lstrip_chars l))).

Definition strip (s : string) : string := str (strip_chars (chars s)).

(** [s.split()]: the maximal runs of non-blank characters.  [cur] is the
    word being read, most recent character first. *)
Fixpoint split_chars (cur : list ascii) (l : list ascii) : list string :=
  match l with
  | [] => match cur with [] => [] | _ => [str (rev cur)] end
  | c :: l' =>
      if is_space c
      then match cur with
           | [] => split_chars [] l'
           | _ => str (rev cur) :: split_chars [] l'
           end
      else split_chars (c :: cur) l'
  end.

Definition split (s : string) : list string := split_chars [] (chars s).

(** [s.startswith(p)] *)
Definition startswith (s p : string) : bool := String.prefix p s.

(** [needle in hay] for two strings: substring containment. *)
Fixpoint contains (hay needle : string) : bool :=
  String.prefix needle hay ||
  match hay with
  | EmptyString => false
  | String _ hay' => contains hay' needle
  end.

(** [len(s)] *)
Definition len (s : string) : nat := String.length s.

End PyStr.

(** ** Regular expressions

    The fragment of Python's [re] that the patterns of the two modules use:
    literals, classes, sequence, ordered alternation, greedy bounded and
    unbounded repetition, numbered capturing groups (a name is an alias of
    a number, as in [re]), [^] and [$], and the flag [re.IGNORECASE].
    [re.match] is a backtracking search anchored at the start of the
    string; it is written here in continuation-passing style, the
    continuation standing for the rest of the pattern. *)

Module Re.

Inductive regex : Type :=
| Eps
| Chr (c : ascii)                        (* a literal character *)
| Cls (p : ascii -> bool)                (* a class: \s \w [^'] . ... *)
| Seq (r1 r2 : regex)
| Alt (r1 r2 : regex)                    (* r1|r2, r1 first *)
| Rep (r : regex) (lo : nat) (hi : option nat)   (* greedy r{lo,hi} *)
| Grp (i : nat) (r : regex)              (* capturing group number i *)
| Bol                                    (* ^ *)
| Eol.                                   (* $ *)

(** Captured groups, the most recent binding of a number first. *)
Definition captures := list (nat * string).

Definition cont := nat -> list ascii -> captures -> option captures.

Definition chr_eq (icase : bool) (a x : ascii) : bool :=
  if icase then bool_decide (PyStr.lower_char a = PyStr.lower_char x)
  else bool_decide (a = x).

(** [$] matches at the end and before a newline that ends the string. *)
Definition at_eol (s : list ascii) : bool :=
  match s with
  | [] => true
  | [c] => bool_decide (c = "010"%char)
  | _ => false
  end.

(** The loop of a greedy repetition.  One more iteration of [body] is
    tried before the rest of the pattern [k]; an iteration has to consume
    a character for the loop to go round again, which bounds the
    iterations by the length of the input ([fuel] starts one above that
    length and never runs out). *)
Fixpoint rep_loop (body : nat → list ascii → captures → cont → option captures)
         (lo : nat) (hi : option nat) (k : cont)
         (fuel count pos : nat) (s : list ascii) (c : captures)
         {struct fuel} : option captures :=
  match fuel with
  | O => None
  | S fuel' =>
      let more :=
        if match hi with Some h => (count <? h)%nat | None => true end
        then body pos s c (fun pos' s' c' =>
               if (length s' <? length s)%nat
               then rep_loop body lo hi k fuel' (S count) pos' s' c'
               else None)
        else None in
      match more with
      | Some c' => Some c'
      | None => if (lo <=? count)%nat then k pos s c else None
      end
  end.

Section Matcher.
Variable icase : bool.

Fixpoint run (r : regex) (pos : nat) (s : list ascii) (c : captures)
         (k : cont) {struct r} : option captures :=
  match r with
  | Eps => k pos s c
  | Chr a =>
      match s with
      | x :: s' => if chr_eq icase a x then k (S pos) s' c else None
      | [] => None
      end
  | Cls p =>
      match s with
      | x :: s' => if p x then k (S pos) s' c else None
      | [] => None
      end
  | Seq r1 r2 => run r1 pos s c (fun pos' s' c' => run r2 pos' s' c' k)
  | Alt r1 r2 =>
      match run r1 pos s c k with
      | Some c' => Some c'
      | None => run r2 pos s c k
      end
  | Rep r lo hi => rep_loop (run r) lo hi k (S (length s)) 0 pos s c
  | Grp i r =>
      run r pos s c (fun pos' s' c' =>
        k pos' s' ((i, PyStr.str (take (pos' - pos) s)) :: c'))
  | Bol => if (pos =? 0)%nat then k pos s c else None
  | Eol => if at_eol s then k pos s c else None
  end.
End Matcher.

(** A compiled pattern: the expression, the flag and the group names. *)
Record pattern := Pattern {
  expr : regex;
  ignorecase : bool;
  groupindex : list (string * nat)
}.

(** A match object. *)
Record MatchObject := Match {
  caps : captures;
  names : list (string * nat)
}.

(** [re.match(p, s)] (with [flags] folded into the pattern). *)
Definition re_match (p : pattern) (s : string) : option MatchObject :=
  match run (ignorecase p) (expr p) 0 (PyStr.chars s) []
            (fun _ _ c => Some c) with
  | Some c => Some (Match c (groupindex p))
  | None => None
  end.

Fixpoint assoc {A} (n : nat) (l : list (nat * A)) : option A :=
  match l with
  | [] => None
  | (i, x) :: l' => if (n =? i)%nat then Some x else assoc n l'
  end.

Fixpoint index_of (name : string) (l : list (string * nat)) : option nat :=
  match l with
  | [] => None
  | (x, i) :: l' => if String.eqb name x then Some i else index_of name l'
  end.

(** The text of group [i], or nothing when the group took no part in
    the match. *)
Definition text_at (m : MatchObject) (i : nat) : option string :=
  assoc i (caps m).

(** The text of the group called [name]. *)
Definition text_of (m : MatchObject) (name : string) : option string :=
  match index_of name (names m) with
  | Some i => text_at m i
  | None => None
  end.

(** *** Pattern syntax *)

Definition seq (l : list regex) : regex := foldr Seq Eps l.

Fixpoint alt (l : list regex) : regex :=
  match l with
  | [] => Cls (fun _ => false)
  | [r] => r
  | r :: l' => Alt r (alt l')
  end.

Definition lit (s : string) : regex := seq (map Chr (PyStr.chars s)).

Definition star (r : regex) : regex := Rep r 0 None.
Definition plus (r : regex) : regex := Rep r 1 None.
Definition opt (r : regex) : regex := Rep r 0 (Some 1).
Definition times (n : nat) (r : regex) : regex := Rep r n (Some n).

Definition ws : regex := Cls PyStr.is_space.                     (* \s *)
Definition nws : regex := Cls (fun c => negb (PyStr.is_space c)). (* \S *)
Definition word : regex := Cls PyStr.is_word.                    (* \w *)
Definition digit : regex := Cls PyStr.is_digit.                  (* \d *)
Definition dot : regex := Cls (fun c => negb (bool_decide (c = "010"%char))).
Definition notc (a : ascii) : regex := Cls (fun c => negb (bool_decide (c = a))).
Definition range (a b : ascii) : regex :=
  Cls (fun c => (N_of_ascii a <=? N_of_ascii c)%N && (N_of_ascii c <=? N_of_ascii b)%N).
Definition oneof (s : string) : regex :=
  Cls (fun c => bool_decide (c ∈ PyStr.chars s)).

End Re.

Import Re.

(** ** Python values, exceptions and effects *)

(** The values that flow through the parsers: [None], booleans, integers
    and strings. *)
Inductive value : Type :=
| VNone
| VBool (b : bool)
| VInt (z : Z)
| VStr (s : string).

#[global] Instance value_eq_dec : EqDecision value.
Proof. solve_decision. Defined.

Definition is_None (v : value) : bool :=
  match v with VNone => true | _ => false end.

(** [a == b] on values. *)
Definition py_eq (a b : value) : bool := bool_decide (a = b).

(** The truth value of an object in a condition. *)
Definition truthy (v : value) : bool :=
  match v with
  | VNone => false
  | VBool b => b
  | VInt z => negb (z =? 0)%Z
  | VStr s => negb (String.eqb s "")
  end.

Definition digit_char (n : nat) : ascii := ascii_of_nat (48 + n).

Fixpoint digits (fuel n : nat) (acc : list ascii) : list ascii :=
  match fuel with
  | O => acc
  | S fuel' =>
      let acc' := digit_char (n mod 10) :: acc in
      if (n / 10 =? 0)%nat then acc' else digits fuel' (n / 10) acc'
  end.

Definition str_of_Z (z : Z) : string :=
  let n := Z.abs_nat z in
  let d := PyStr.str (digits (S n) n []) in
  if (z <? 0)%Z then "-" +:+ d else d.

(** What ["{}".format(v)] puts in place of the braces. *)
Definition format (v : value) : string :=
  match v with
  | VNone => "None"
  | VBool true => "True"
  | VBool false => "False"
  | VInt z => str_of_Z z
  | VStr s => s
  end.

(** The exceptions the two modules raise or let escape, with their
    arguments. *)
Inductive exn : Type :=
| ValueError (args : list value)
| IndexError (msg : string)
| AttributeError (msg : string)
| TypeError (msg : string).

Inductive result (A : Type) : Type :=
| Return (a : A)
| Raise (e : exn).
Arguments Return {A} a.
Arguments Raise {A} e.

#[global] Instance result_ret : MRet result := λ A a, Return a.
#[global] Instance result_bind : MBind result := λ A B f r,
  match r with
  | Return a => f a
  | Raise e => Raise e
  end.

(** A method of [str] called on a value: [None] has no such method. *)
Definition as_str (method : string) (v : value) : result string :=
  match v with
  | VStr s => Return s
  | _ => Raise (AttributeError ("object has no attribute '" +:+ method +:+ "'"))
  end.

(** [l[0]] *)
Definition first {A} (l : list A) : result A :=
  match l with
  | x :: _ => Return x
  | [] => Raise (IndexError "list index out of range")
  end.

(** [m.group(name)] and [m.group(i)] as Python values. *)
Definition group (m : MatchObject) (name : string) : value :=
  from_option VStr VNone (text_of m name).

Definition group_at (m : MatchObject) (i : nat) : value :=
  from_option VStr VNone (text_at m i).

(** What a line of the log holds: [LOG.warn(ex)] or
    [LOG.warn(traceback.format_exc())]. *)
Inductive logged : Type :=
| Warned (ex : exn)
| Traceback (ex : exn).

(** The effects of the decorators: the warnings written to the log, and
    (as a ghost trace) the classes whose [parse] has been called. *)
Record World := mkWorld {
  warnings : list logged;
  invoked : list string
}.

Definition M (A : Type) : Type := World → result A * World.

#[global] Instance M_ret : MRet M := λ A a w, (Return a, w).
#[global] Instance M_bind : MBind M := λ A B f m w,
  match m w with
  | (Return a, w') => f a w'
  | (Raise e, w') => (Raise e, w')
  end.

Definition lift {A} (r : result A) : M A := λ w, (r, w).
Definition raise {A} (e : exn) : M A := λ w, (Raise e, w).

(** [try: body except ...: handler] *)
Definition try_except {A} (body : M A) (handler : exn → M A) : M A := λ w,
  match body w with
  | (Return a, w') => (Return a, w')
  | (Raise e, w') => handler e w'
  end.

Definition warn (l : logged) : M unit := λ w,
  (Return tt, mkWorld (warnings w ++ [l]) (invoked w)).

Definition calling (cls : string) : M unit := λ w,
  (Return tt, mkWorld (warnings w) (invoked w ++ [cls])).

(** ** The collaborators

    The item and thing registries are looked up through [scriptExtension];
    the parsers only test what they return against [None], read the name
    of an item and ask a group for its members.  An item that is not a
    group has no [getMembers]. *)

Variant Thing := a_thing.
Variant Channel := a_channel.

Record Registry (Item : Type) := mkRegistry {
  item_name : Item → string;
  getMembers : Item → option (list Item);
  getAllMembers : Item → option (list Item);
  getItem : value → option Item;
  getThing : value → option Thing;
  getChannel : value → option Channel
}.
Arguments item_name {Item} _ _.
Arguments getMembers {Item} _ _.
Arguments getAllMembers {Item} _ _.
Arguments getItem {Item} _ _.
Arguments getThing {Item} _ _.
Arguments getChannel {Item} _ _.

(** What [TriggerBuilder] and [ConditionBuilder] are given: the type UID
    and the configuration.  (The id comes from [validate_uid] and plays no
    part in parsing.) *)
Record Descriptor := mkDescriptor {
  type_id : string;
  configuration : gmap string value
}.

(** [d[k] = v] when [v] is not [None] *)
Definition set_unless_None (k : string) (v : value) (d : gmap string value)
  : gmap string value :=
  if is_None v then d else <[k := v]> d.

(** [d.get(k)] *)
Definition dict_get (d : gmap string value) (k : value) : value :=
  match k with
  | VStr s => default VNone (d !! s)
  | _ => VNone
  end.

(** [firstWord] of a class is a string in some classes and a list of
    strings in others; [in] is containment in the first case and
    membership in the second. *)
Inductive first_words : Type :=
| OneWord (s : string)
| Words (l : list string).

Definition py_in (x : string) (c : first_words) : bool :=
  match c with
  | OneWord s => PyStr.contains s x
  | Words l => bool_decide (x ∈ l)
  end.

(** A function object with the two attributes the decorators create. *)
Record Function := mkFunction {
  triggers : option (list (option Descriptor));
  conditions : option (list (option Descriptor))
}.

(** A trigger or condition class as the dispatch loop sees it: its
    [firstWord] attribute and its [parse] class method, which returns
    [None] when the phrase is not of its shape. *)
Record Class (A : Type) := mkClass {
  class_name : string;
  firstWord : first_words;
  parse : string → result (option A)
}.
Arguments class_name {A} _.
Arguments firstWord {A} _.
Arguments parse {A} _ _.

(** [cls.parse(target)], noted in the trace. *)
Definition call_parse {A} (cls : Class A) (target : string) : M (option A) :=
  calling (class_name cls);; lift (parse cls target).

(** The loop of [when.parse] and of [onlyif.parse]:
<<
    for cls in classes:
        if firstWord.lower() in cls.firstWord:
            found = cls.parse(target)
            if found is not None:
                return found
>>
    [None] stands for the loop running to its end. *)
Fixpoint for_classes {A} (firstWord_ target : string) (classes : list (Class A))
  : M (option A) :=
  match classes with
  | [] => mret None
  | cls :: rest =>
      if py_in (PyStr.lower firstWord_) (firstWord cls)
      then found ← call_parse cls target;
           match found with
           | Some x => mret (Some x)
           | None => for_classes firstWord_ target rest
           end
      else for_classes firstWord_ target rest
  end.

(** ** [core/triggers.py] *)

(** *** The cron validator (used when Quartz is not there) *)

(** [@(annually|yearly|monthly|weekly|daily|hourly|reboot)] *)
Definition named_schedule_re : pattern :=
  Pattern
    (seq [lit "@";
          Grp 1 (alt [lit "annually"; lit "yearly"; lit "monthly"; lit "weekly";
                      lit "daily"; lit "hourly"; lit "reboot"])])
    false [].

(** [\d+|\w{3}] *)
Definition number_or_name : regex := alt [plus digit; times 3 word].

(** [\?|(\*|\d+)(\/\d+)?|(\d+|\w{3})(\/|-)(\d+|\w{3})|((\d+|\w{3}),)*(\d+|\w{3})] *)
Definition cron_field_re : pattern :=
  Pattern
    (alt [lit "?";
          seq [Grp 1 (alt [lit "*"; plus digit]);
               opt (Grp 2 (seq [lit "/"; plus digit]))];
          seq [Grp 3 number_or_name; Grp 4 (alt [lit "/"; lit "-"]);
               Grp 5 number_or_name];
          seq [star (Grp 6 (seq [Grp 7 number_or_name; lit ","]));
               Grp 8 number_or_name]])
    false [].

(** The return value is [True], [False] or, when the number of fields is
    not 6 or 7, [None] (the function runs off its end). *)
Definition isValidExpression (expr : value) : result value :=
  expr ← as_str "strip" expr;
  let expr := PyStr.strip expr in
  if PyStr.startswith expr "@"
  then mret (VBool (bool_decide (is_Some (re_match named_schedule_re expr))))
  else
    let parts := PyStr.split expr in
    if (6 <=? length parts)%nat && (length parts <=? 7)%nat
    then
      if forallb (λ part, bool_decide (is_Some (re_match cron_field_re part))) parts
      then mret (VBool true)
      else mret (VBool false)
    else mret VNone.

(** *** The trigger classes: constructors *)

Definition StartupTrigger (startLevel : value) : Descriptor :=
  let startLevel := if is_None startLevel then VInt 40 else startLevel in
  mkDescriptor "core.SystemStartlevelTrigger" {[ "startlevel" := startLevel ]}.

Definition CronTrigger (cron_expression : value) : Descriptor :=
  let configuration : gmap string value := {[ "cronExpression" := cron_expression ]} in
  mkDescriptor "timer.GenericCronTrigger" configuration.

Definition DateTimeTrigger (itemName timeOnly : value) : Descriptor :=
  let configuration : gmap string value := {[ "itemName" := itemName ]} in
  let configuration := set_unless_None "timeOnly" timeOnly configuration in
  mkDescriptor "timer.DateTimeTrigger" configuration.

Definition ItemStateUpdateTrigger (item_name state : value) : Descriptor :=
  let configuration : gmap string value := {[ "itemName" := item_name ]} in
  let configuration := set_unless_None "state" state configuration in
  mkDescriptor "core.ItemStateUpdateTrigger" configuration.

Definition ItemStateChangeTrigger (item_name previous_state state : value)
  : Descriptor :=
  let configuration : gmap string value := {[ "itemName" := item_name ]} in
  let configuration := set_unless_None "state" state configuration in
  let configuration := set_unless_None "previousState" previous_state configuration in
  mkDescriptor "core.ItemStateChangeTrigger" configuration.

Definition ItemCommandTrigger (item_name command : value) : Descriptor :=
  let configuration : gmap string value := {[ "itemName" := item_name ]} in
  let configuration := set_unless_None "command" command configuration in
  mkDescriptor "core.ItemCommandTrigger" configuration.

Definition ThingStatusUpdateTrigger (thing_uid status : value) : Descriptor :=
  let configuration : gmap string value := {[ "thingUID" := thing_uid ]} in
  let configuration := set_unless_None "status" status configuration in
  mkDescriptor "core.ThingStatusUpdateTrigger" configuration.

Definition ThingStatusChangeTrigger (thing_uid previous_status status : value)
  : Descriptor :=
  let configuration : gmap string value := {[ "thingUID" := thing_uid ]} in
  let configuration := set_unless_None "previousStatus" previous_status configuration in
  let configuration := set_unless_None "status" status configuration in
  mkDescriptor "core.ThingStatusChangeTrigger" configuration.

Definition ChannelEventTrigger (channel_uid event : value) : Descriptor :=
  let configuration : gmap string value := {[ "channelUID" := channel_uid ]} in
  let configuration := set_unless_None "event" event configuration in
  mkDescriptor "core.ChannelEventTrigger" configuration.

Definition GenericEventTrigger (event_source event_types event_topic : value)
  : Descriptor :=
  mkDescriptor "core.GenericEventTrigger"
    (<["eventTopic" := event_topic]>
       (<["eventSource" := event_source]> {[ "eventTypes" := event_types ]})).

(** ["prefix{}".format("{}/".format(name) if name else "")] *)
Definition event_source (prefix : string) (name : value) : value :=
  VStr (prefix +:+ (if truthy name then format name +:+ "/" else "")).

Definition ItemEventTrigger (event_types item_name : value) : Descriptor :=
  mkDescriptor "core.GenericEventTrigger"
    (<["eventTopic" := VStr "smarthome/items/*"]>
       (<["eventSource" := event_source "smarthome/items/" item_name]>
          {[ "eventTypes" := event_types ]})).

Definition ThingEventTrigger (event_types thing_uid : value) : Descriptor :=
  mkDescriptor "core.GenericEventTrigger"
    (<["eventTopic" := VStr "smarthome/things/*"]>
       (<["eventSource" := event_source "smarthome/things/" thing_uid]>
          {[ "eventTypes" := event_types ]})).

(** The kinds of [java.nio.file.StandardWatchEventKinds]. *)
Variant WatchEventKind := ENTRY_CREATE | ENTRY_DELETE | ENTRY_MODIFY.

Definition kind_name (k : WatchEventKind) : string :=
  match k with
  | ENTRY_CREATE => "ENTRY_CREATE"
  | ENTRY_DELETE => "ENTRY_DELETE"
  | ENTRY_MODIFY => "ENTRY_MODIFY"
  end.

Fixpoint join (sep : string) (l : list string) : string :=
  match l with
  | [] => ""
  | [x] => x
  | x :: l' => x +:+ sep +:+ join sep l'
  end.

(** [str(event_kinds)] *)
Definition str_of_kinds (l : list WatchEventKind) : string :=
  "[" +:+ join ", " (map kind_name l) +:+ "]".

Definition DirectoryEventTrigger (path : value) (event_kinds : list WatchEventKind)
           (watch_subdirectories : value) : Descriptor :=
  let configuration : gmap string value :=
    <["path" := path]>
      (<["event_kinds" := VStr (str_of_kinds event_kinds)]>
         {[ "watch_subdirectories" := watch_subdirectories ]}) in
  mkDescriptor "jsr223.DirectoryEventTrigger" configuration.

(** *** The trigger classes: patterns

    Every pattern is compiled with [re.IGNORECASE].  In the comments a
    blank separates a star from a closing parenthesis that follows it, and
    DQ stands for the (escaped) double quote. *)

(** [^System\s+(?:started|reached\s+start\s+level\s+(?P<startLevel>\d+))$] *)
Definition StartupTrigger_re : pattern :=
  Pattern
    (seq [Bol; lit "System"; plus ws;
          alt [lit "started";
               seq [lit "reached"; plus ws; lit "start"; plus ws; lit "level";
                    plus ws; Grp 1 (plus digit)]];
          Eol])
    true [("startLevel", 1)].

(** [^Time\s+(?:cron\s+(?P<cronExpression>.* )|is\s+(?P<namedInstant>midnight|noon))$] *)
Definition CronTrigger_re : pattern :=
  Pattern
    (seq [Bol; lit "Time"; plus ws;
          alt [seq [lit "cron"; plus ws; Grp 1 (star dot)];
               seq [lit "is"; plus ws; Grp 2 (alt [lit "midnight"; lit "noon"])]];
          Eol])
    true [("cronExpression", 1); ("namedInstant", 2)].

(** [^Time\s+is\s+(?P<itemName>\S* )(?:\s+\[(?P<timeOnly>timeOnly)\])*$] *)
Definition DateTimeTrigger_re : pattern :=
  Pattern
    (seq [Bol; lit "Time"; plus ws; lit "is"; plus ws; Grp 1 (star nws);
          star (seq [plus ws; lit "["; Grp 2 (lit "timeOnly"); lit "]"]);
          Eol])
    true [("itemName", 1); ("timeOnly", 2)].

(** [(?:(?P<subItems>Member|Descendent)\s+of|Item)] *)
Definition item_or_members : regex :=
  alt [seq [Grp 1 (alt [lit "Member"; lit "Descendent"]); plus ws; lit "of"];
       lit "Item"].

(** ['[^']+'|\S+] *)
Definition quoted_or_token : regex :=
  alt [seq [lit "'"; plus (notc "'"); lit "'"]; plus nws].

(** [^(?:(?P<subItems>Member|Descendent)\s+of|Item)\s+(?P<itemName>\w+)\s+received\s+update(?:\s+(?P<state>'[^']+'|\S+))*$] *)
Definition ItemStateUpdateTrigger_re : pattern :=
  Pattern
    (seq [Bol; item_or_members; plus ws; Grp 2 (plus word); plus ws;
          lit "received"; plus ws; lit "update";
          star (seq [plus ws; Grp 3 quoted_or_token]);
          Eol])
    true [("subItems", 1); ("itemName", 2); ("state", 3)].

(** [^(?:(?P<subItems>Member|Descendent)\s+of|Item)\s+(?P<itemName>\w+)\s+changed(?:\s+from\s+(?P<previousState>'[^']+'|\S+))*(?:\s+to\s+(?P<state>'[^']+'|\S+))*$] *)
Definition ItemStateChangeTrigger_re : pattern :=
  Pattern
    (seq [Bol; item_or_members; plus ws; Grp 2 (plus word); plus ws;
          lit "changed";
          star (seq [plus ws; lit "from"; plus ws; Grp 3 quoted_or_token]);
          star (seq [plus ws; lit "to"; plus ws; Grp 4 quoted_or_token]);
          Eol])
    true [("subItems", 1); ("itemName", 2); ("previousState", 3); ("state", 4)].

(** [^(?:(?P<subItems>Member|Descendent)\s+of|Item)\s+(?P<itemName>\w+)\s+received\s+command(?:\s+(?P<command>\w+))*$] *)
Definition ItemCommandTrigger_re : pattern :=
  Pattern
    (seq [Bol; item_or_members; plus ws; Grp 2 (plus word); plus ws;
          lit "received"; plus ws; lit "command";
          star (seq [plus ws; Grp 3 (plus word)]);
          Eol])
    true [("subItems", 1); ("itemName", 2); ("command", 3)].

(** [^Thing\s+(?P<thingUID>\S+)\s+received\s+update(?:\s+(?P<status>\w+))*$] *)
Definition ThingStatusUpdateTrigger_re : pattern :=
  Pattern
    (seq [Bol; lit "Thing"; plus ws; Grp 1 (plus nws); plus ws;
          lit "received"; plus ws; lit "update";
          star (seq [plus ws; Grp 2 (plus word)]);
          Eol])
    true [("thingUID", 1); ("status", 2)].

(** [^Thing\s+(?P<thingUID>\S+)\s+changed(?:\s+from\s+(?P<previousState>\w+))*(?:\s+to\s+(?P<state>\w+))*$] *)
Definition ThingStatusChangeTrigger_re : pattern :=
  Pattern
    (seq [Bol; lit "Thing"; plus ws; Grp 1 (plus nws); plus ws; lit "changed";
          star (seq [plus ws; lit "from"; plus ws; Grp 2 (plus word)]);
          star (seq [plus ws; lit "to"; plus ws; Grp 3 (plus word)]);
          Eol])
    true [("thingUID", 1); ("previousState", 2); ("state", 3)].

(** The double quote. *)
Definition dquote : ascii := "034"%char.

(** [^Channel\s+DQ*(?P<channelUID>\S+)DQ*\s+triggered(?:\s+(?P<event>\w+))*$] *)
Definition ChannelEventTrigger_re : pattern :=
  Pattern
    (seq [Bol; lit "Channel"; plus ws; star (Chr dquote); Grp 1 (plus nws);
          star (Chr dquote); plus ws; lit "triggered";
          star (seq [plus ws; Grp 2 (plus word)]);
          Eol])
    true [("channelUID", 1); ("event", 2)].

(** [^Item\s+(?P<action>added|removed|updated)$] *)
Definition ItemEventTrigger_re : pattern :=
  Pattern
    (seq [Bol; lit "Item"; plus ws;
          Grp 1 (alt [lit "added"; lit "removed"; lit "updated"]); Eol])
    true [("action", 1)].

(** [^Thing\s+(?P<action>added|removed|updated)$] *)
Definition ThingEventTrigger_re : pattern :=
  Pattern
    (seq [Bol; lit "Thing"; plus ws;
          Grp 1 (alt [lit "added"; lit "removed"; lit "updated"]); Eol])
    true [("action", 1)].

(** [^(?P<dirOrSub>Directory|Subdirectory)\s+(?P<path>'.+'|\S+)\s+\[(?P<options>(?:(?:,\s* )*(?:created|deleted|modified))+)\]$] *)
Definition DirectoryEventTrigger_re : pattern :=
  Pattern
    (seq [Bol; Grp 1 (alt [lit "Directory"; lit "Subdirectory"]); plus ws;
          Grp 2 (alt [seq [lit "'"; plus dot; lit "'"]; plus nws]); plus ws;
          lit "[";
          Grp 3 (plus (seq [star (seq [lit ","; star ws]);
                            alt [lit "created"; lit "deleted"; lit "modified"]]));
          lit "]"; Eol])
    true [("dirOrSub", 1); ("path", 2); ("options", 3)].

(** What [parse] of a trigger class returns when the phrase matches: one
    trigger, or a list of them. *)
Inductive Parsed : Type :=
| Single (trigger : Descriptor)
| Several (triggers : list Descriptor).

(** *** The trigger classes: [parse] *)

Section Triggers.
Context {Item : Type} (registry : Registry Item).

Definition invalid_item_name (name : value) : exn :=
  ValueError [VStr ("Invalid item name: " +:+ format name)].

Definition invalid_thing_uid (uid : value) : exn :=
  ValueError [VStr ("Invalid thing UID: " +:+ format uid)].

Definition invalid_channel_uid (uid : value) : exn :=
  ValueError [VStr ("Invalid channel UID: " +:+ format uid)].

(** [item.getMembers() if subItems == "Member" else item.getAllMembers()] *)
Definition groupMembers_of (item : Item) (subItems : value)
  : result (list Item) :=
  if py_eq subItems (VStr "Member")
  then match getMembers registry item with
       | Some l => Return l
       | None => Raise (AttributeError "object has no attribute 'getMembers'")
       end
  else match getAllMembers registry item with
       | Some l => Return l
       | None => Raise (AttributeError "object has no attribute 'getAllMembers'")
       end.

Definition StartupTrigger_parse (target : string) : result (option Parsed) :=
  match re_match StartupTrigger_re target with
  | Some m => mret (Some (Single (StartupTrigger (group m "startLevel"))))
  | None => mret None
  end.

Definition CronTrigger_parse (target : string) : result (option Parsed) :=
  let cronExpression :=
    match re_match CronTrigger_re target with
    | Some m =>
        if is_None (group m "namedInstant") then group m "cronExpression"
        else if py_eq (group_at m 2) (VStr "midnight") then VStr "0 0 0 * * ?"
        else VStr "0 0 12 * * ?"
    | None => VStr target
    end in
  valid ← isValidExpression cronExpression;
  if truthy valid
  then mret (Some (Single (CronTrigger cronExpression)))
  else mret None.

Definition DateTimeTrigger_parse (target : string) : result (option Parsed) :=
  match re_match DateTimeTrigger_re target with
  | Some m =>
      match getItem registry (group m "itemName") with
      | None => Raise (invalid_item_name (group m "itemName"))
      | Some item =>
          mret (Some (Single (DateTimeTrigger (group m "itemName")
                   (VBool (py_eq (group m "timeOnly") (VStr "timeOnly"))))))
      end
  | None => mret None
  end.

Definition ItemStateUpdateTrigger_parse (target : string)
  : result (option Parsed) :=
  match re_match ItemStateUpdateTrigger_re target with
  | Some m =>
      match getItem registry (group m "itemName") with
      | None => Raise (invalid_item_name (group m "itemName"))
      | Some item =>
          if is_None (group m "subItems")
          then mret (Some (Single (ItemStateUpdateTrigger (group m "itemName")
                                     (group m "state"))))
          else
            groupMembers ← groupMembers_of item (group m "subItems");
            mret (Some (Several
              (map (λ item, ItemStateUpdateTrigger
                              (VStr (item_name registry item)) (group m "state"))
                   groupMembers)))
      end
  | None => mret None
  end.

Definition ItemStateChangeTrigger_parse (target : string)
  : result (option Parsed) :=
  match re_match ItemStateChangeTrigger_re target with
  | Some m =>
      match getItem registry (group m "itemName") with
      | None => Raise (invalid_item_name (group m "itemName"))
      | Some item =>
          if is_None (group m "subItems")
          then mret (Some (Single (ItemStateChangeTrigger (group m "itemName")
                       (group m "previousState") (group m "state"))))
          else
            groupMembers ← groupMembers_of item (group m "subItems");
            mret (Some (Several
              (map (λ item, ItemStateChangeTrigger
                              (VStr (item_name registry item))
                              (group m "previousState") (group m "state"))
                   groupMembers)))
      end
  | None => mret None
  end.

Definition ItemCommandTrigger_parse (target : string)
  : result (option Parsed) :=
  match re_match ItemCommandTrigger_re target with
  | Some m =>
      match getItem registry (group m "itemName") with
      | None => Raise (invalid_item_name (group m "itemName"))
      | Some item =>
          if is_None (group m "subItems")
          then mret (Some (Single (ItemCommandTrigger (group m "itemName")
                                     (group m "command"))))
          else
            groupMembers ← groupMembers_of item (group m "subItems");
            mret (Some (Several
              (map (λ item, ItemCommandTrigger
                              (VStr (item_name registry item)) (group m "command"))
                   groupMembers)))
      end
  | None => mret None
  end.

Definition ThingStatusUpdateTrigger_parse (target : string)
  : result (option Parsed) :=
  match re_match ThingStatusUpdateTrigger_re target with
  | Some m =>
      match getThing registry (group m "thingUID") with
      | None => Raise (invalid_thing_uid (group m "thingUID"))
      | Some _ =>
          mret (Some (Single (ThingStatusUpdateTrigger (group m "thingUID")
                                (group m "status"))))
      end
  | None => mret None
  end.

Definition ThingStatusChangeTrigger_parse (target : string)
  : result (option Parsed) :=
  match re_match ThingStatusChangeTrigger_re target with
  | Some m =>
      match getThing registry (group m "thingUID") with
      | None => Raise (invalid_thing_uid (group m "thingUID"))
      | Some _ =>
          mret (Some (Single (ThingStatusChangeTrigger (group m "thingUID")
                       (group m "previousState") (group m "state"))))
      end
  | None => mret None
  end.

Definition ChannelEventTrigger_parse (target : string)
  : result (option Parsed) :=
  match re_match ChannelEventTrigger_re target with
  | Some m =>
      match getChannel registry (group m "channelUID") with
      | None => Raise (invalid_channel_uid (group m "channelUID"))
      | Some _ =>
          mret (Some (Single (ChannelEventTrigger (group m "channelUID")
                                (group m "event"))))
      end
  | None => mret None
  end.

Definition item_event_names : gmap string value :=
  <["added" := VStr "ItemAddedEvent"]>
    (<["removed" := VStr "ItemRemovedEvent"]>
       {[ "updated" := VStr "ItemUpdatedEvent" ]}).

Definition ItemEventTrigger_parse (target : string) : result (option Parsed) :=
  match re_match ItemEventTrigger_re target with
  | Some m =>
      mret (Some (Single (ItemEventTrigger
                            (dict_get item_event_names (group m "action")) VNone)))
  | None => mret None
  end.

Definition thing_event_names : gmap string value :=
  <["added" := VStr "ThingAddedEvent"]>
    (<["removed" := VStr "ThingRemovedEvent"]>
       {[ "updated" := VStr "ThingUpdatedEvent" ]}).

Definition ThingEventTrigger_parse (target : string) : result (option Parsed) :=
  match re_match ThingEventTrigger_re target with
  | Some m =>
      mret (Some (Single (ThingEventTrigger
                            (dict_get thing_event_names (group m "action")) VNone)))
  | None => mret None
  end.

Definition DirectoryEventTrigger_parse (target : string)
  : result (option Parsed) :=
  match re_match DirectoryEventTrigger_re target with
  | Some m =>
      options ← as_str "split" (group m "options");
      let options := PyStr.split options in
      let event_kinds :=
        (if bool_decide ("created" ∈ options) then [ENTRY_CREATE] else []) ++
        (if bool_decide ("deleted" ∈ options) then [ENTRY_DELETE] else []) ++
        (if bool_decide ("modified" ∈ options) then [ENTRY_MODIFY] else []) in
      let event_kinds :=
        match event_kinds with
        | [] => [ENTRY_CREATE; ENTRY_DELETE; ENTRY_MODIFY]
        | _ => event_kinds
        end in
      mret (Some (Single (DirectoryEventTrigger (group m "path") event_kinds
                   (VBool (py_eq (group m "dirOrSub") (VStr "Subdirectory"))))))
  | None => mret None
  end.

(** The class objects, with their [firstWord]. *)
Definition StartupTrigger_class : Class Parsed :=
  mkClass _ "StartupTrigger" (OneWord "system") StartupTrigger_parse.
Definition CronTrigger_class : Class Parsed :=
  mkClass _ "CronTrigger" (OneWord "time") CronTrigger_parse.
Definition DateTimeTrigger_class : Class Parsed :=
  mkClass _ "DateTimeTrigger" (OneWord "time") DateTimeTrigger_parse.
Definition ItemStateUpdateTrigger_class : Class Parsed :=
  mkClass _ "ItemStateUpdateTrigger" (Words ["item"; "member"; "descendent"])
          ItemStateUpdateTrigger_parse.
Definition ItemStateChangeTrigger_class : Class Parsed :=
  mkClass _ "ItemStateChangeTrigger" (Words ["item"; "member"; "descendent"])
          ItemStateChangeTrigger_parse.
Definition ItemCommandTrigger_class : Class Parsed :=
  mkClass _ "ItemCommandTrigger" (Words ["item"; "member"; "descendent"])
          ItemCommandTrigger_parse.
Definition ThingStatusUpdateTrigger_class : Class Parsed :=
  mkClass _ "ThingStatusUpdateTrigger" (OneWord "thing")
          ThingStatusUpdateTrigger_parse.
Definition ThingStatusChangeTrigger_class : Class Parsed :=
  mkClass _ "ThingStatusChangeTrigger" (OneWord "thing")
          ThingStatusChangeTrigger_parse.
Definition ChannelEventTrigger_class : Class Parsed :=
  mkClass _ "ChannelEventTrigger" (OneWord "channel") ChannelEventTrigger_parse.
Definition ItemEventTrigger_class : Class Parsed :=
  mkClass _ "ItemEventTrigger" (OneWord "item") ItemEventTrigger_parse.
Definition ThingEventTrigger_class : Class Parsed :=
  mkClass _ "ThingEventTrigger" (OneWord "thing") ThingEventTrigger_parse.
Definition DirectoryEventTrigger_class : Class Parsed :=
  mkClass _ "DirectoryEventTrigger" (Words ["directory"; "subdirectory"])
          DirectoryEventTrigger_parse.

(** *** The decorator [when] *)

Definition triggerClasses : list (Class Parsed) :=
  [ StartupTrigger_class; CronTrigger_class; DateTimeTrigger_class;
    ItemStateUpdateTrigger_class; ItemStateChangeTrigger_class;
    ChannelEventTrigger_class; ItemEventTrigger_class;
    ItemCommandTrigger_class; ThingStatusUpdateTrigger_class;
    ThingStatusChangeTrigger_class; ThingEventTrigger_class;
    DirectoryEventTrigger_class ].

Definition could_not_parse (kind firstWord_ target : string) : exn :=
  ValueError [VStr ("Could not parse " +:+ firstWord_ +:+ " " +:+ kind +:+ ": "
                    +:+ target)].

(** The function [parse] nested in [when]. *)
Definition when_parse (target : string) : M (option Parsed) :=
  let target := PyStr.strip target in
  firstWord_ ← lift (first (PyStr.split target));
  found ← for_classes firstWord_ target triggerClasses;
  match found with
  | Some trigger => mret (Some trigger)
  | None => raise (could_not_parse "trigger" firstWord_ target)
  end.

(** [if not hasattr(function, 'triggers'): function.triggers = []] *)
Definition ensure_triggers (function : Function) : Function :=
  match triggers function with
  | Some _ => function
  | None => mkFunction (Some []) (conditions function)
  end.

(** [function.triggers.append(x)] *)
Definition append_trigger (x : option Descriptor) (function : Function)
  : Function :=
  mkFunction (Some (default [] (triggers function) ++ [x])) (conditions function).

Definition whenFunction (target : string) (function : Function) : M Function :=
  triggerClasses_ ← when_parse target;
  match triggerClasses_ with
  | None => raise (ValueError [VStr ("Invalid trigger: " +:+ target)])
  | Some found =>
      let function := ensure_triggers function in
      match found with
      | Several l =>
          mret (foldl (λ f trigger, append_trigger (Some trigger) f) function l)
      | Single trigger => mret (append_trigger (Some trigger) function)
      end
  end.

Definition bad_trigger (function : Function) : M Function :=
  let function := ensure_triggers function in
  mret (append_trigger None function).

(** [when(target)]: the body of the [try] only defines [whenFunction] and
    returns it.  The result is [None] when the bare [except] is taken. *)
Definition when (target : string) : M (option (Function → M Function)) :=
  try_except
    (mret (Some (whenFunction target)))
    (λ ex, match ex with
           | ValueError _ => warn (Warned ex);; mret (Some bad_trigger)
           | _ => warn (Traceback ex);; mret None
           end).

End Triggers.

(** ** [core/conditions.py] *)

(** *** The condition classes: constructors *)

Definition any_None (configuration : gmap string value) : bool :=
  bool_decide (Exists (λ kv, kv.2 = VNone) (map_to_list configuration)).

Definition ItemStateCondition (item_name operator state : value)
  : result Descriptor :=
  let configuration : gmap string value :=
    <["itemName" := item_name]>
      (<["operator" := operator]> {[ "state" := state ]}) in
  if any_None configuration
  then Raise (ValueError [VStr "Paramater invalid in call to ItemStateConditon"])
  else mret (mkDescriptor "core.ItemStateCondition" configuration).

Definition ephemeris_typeuid : gmap string value :=
  <["holiday" := VStr "ephemeris.HolidayCondition"]>
    (<["notholiday" := VStr "ephemeris.NotHolidayCondition"]>
       (<["weekend" := VStr "ephemeris.WeekendCondition"]>
          {[ "weekday" := VStr "ephemeris.WeekdayCondition" ]})).

Definition EphemerisCondition (dayset offset : value) : Descriptor :=
  let configuration : gmap string value := {[ "offset" := offset ]} in
  match dict_get ephemeris_typeuid dayset with
  | VNone =>
      mkDescriptor "epemeris.DaysetCondition" (<["dayset" := dayset]> configuration)
  | typeuid => mkDescriptor (format typeuid) configuration
  end.

Definition TimeOfDayCondition (startTime endTime : value) : result Descriptor :=
  let configuration : gmap string value :=
    <["startTime" := startTime]> {[ "endTime" := endTime ]} in
  if any_None configuration
  then Raise (ValueError [VStr "Paramater invalid in call to TimeOfDateCondition"])
  else mret (mkDescriptor "core.TimeOfDayCondition" configuration).

(** *** The condition classes: patterns *)

(** [^Item\s+(?P<itemName>\w+)\s+((?P<eq>=|==|eq|equals|is)|(?P<neq>!=|not\s+equals|is\s+not)|(?P<lt><|lt|is\s+less\s+than)|(?P<lte><=|lte|is\s+less\s+than\s+or\s+equal)|(?P<gt>>|gt|is\s+greater\s+than)|(?P<gte>>=|gte|is\s+greater\s+than\s+or\s+equal))\s+(?P<state>'[^']+'|\S+)*$] *)
Definition ItemStateCondition_re : pattern :=
  Pattern
    (seq [Bol; lit "Item"; plus ws; Grp 1 (plus word); plus ws;
          Grp 2 (alt [
            Grp 3 (alt [lit "="; lit "=="; lit "eq"; lit "equals"; lit "is"]);
            Grp 4 (alt [lit "!="; seq [lit "not"; plus ws; lit "equals"];
                        seq [lit "is"; plus ws; lit "not"]]);
            Grp 5 (alt [lit "<"; lit "lt";
                        seq [lit "is"; plus ws; lit "less"; plus ws; lit "than"]]);
            Grp 6 (alt [lit "<="; lit "lte";
                        seq [lit "is"; plus ws; lit "less"; plus ws; lit "than";
                             plus ws; lit "or"; plus ws; lit "equal"]]);
            Grp 7 (alt [lit ">"; lit "gt";
                        seq [lit "is"; plus ws; lit "greater"; plus ws; lit "than"]]);
            Grp 8 (alt [lit ">="; lit "gte";
                        seq [lit "is"; plus ws; lit "greater"; plus ws; lit "than";
                             plus ws; lit "or"; plus ws; lit "equal"]])]);
          plus ws; star (Grp 9 quoted_or_token); Eol])
    true
    [("itemName", 1); ("eq", 3); ("neq", 4); ("lt", 5); ("lte", 6); ("gt", 7);
     ("gte", 8); ("state", 9)].

(** The pattern of [EphemerisCondition.parse], compiled with [re.X], which
    drops the blanks and the comments it is laid out with:
    [^((?P<today>Today\s+is|it'*s)|(?P<plus1>Tomorrow\s+is|Today\s+plus\s+1)|(?P<minus1>Yesterday\s+was|Today\s+minus\s+1)|(Today\s+(?P<plusminus>plus|minus|offset)\s+(?P<offset>-?\d+)\s+is))\s+(?P<not>not\s+)?(in\s+)?(a\s+)?(?P<daytype>holiday|weekday|weekend|\S+)$] *)
Definition EphemerisCondition_re : pattern :=
  Pattern
    (seq [Bol;
          Grp 1 (alt [
            Grp 2 (alt [seq [lit "Today"; plus ws; lit "is"];
                        seq [lit "it"; star (lit "'"); lit "s"]]);
            Grp 3 (alt [seq [lit "Tomorrow"; plus ws; lit "is"];
                        seq [lit "Today"; plus ws; lit "plus"; plus ws; lit "1"]]);
            Grp 4 (alt [seq [lit "Yesterday"; plus ws; lit "was"];
                        seq [lit "Today"; plus ws; lit "minus"; plus ws; lit "1"]]);
            Grp 5 (seq [lit "Today"; plus ws;
                        Grp 6 (alt [lit "plus"; lit "minus"; lit "offset"]);
                        plus ws; Grp 7 (seq [opt (lit "-"); plus digit]);
                        plus ws; lit "is"])]);
          plus ws;
          opt (Grp 8 (seq [lit "not"; plus ws]));
          opt (Grp 9 (seq [lit "in"; plus ws]));
          opt (Grp 10 (seq [lit "a"; plus ws]));
          Grp 11 (alt [lit "holiday"; lit "weekday"; lit "weekend"; plus nws]);
          Eol])
    true
    [("today", 2); ("plus1", 3); ("minus1", 4); ("plusminus", 6); ("offset", 7);
     ("not", 8); ("daytype", 11)].

(** [timeOfDayRegEx], its groups numbered from [g]:
    [(([01]?\d|2[0-3]):[0-5]\d)|((0?[1-9]|1[0-2]):[0-5]\d(:[0-5]\d)?\s?(AM|PM))] *)
Definition timeOfDayRegEx (g : nat) : regex :=
  alt [Grp g (seq [Grp (g + 1) (alt [seq [opt (oneof "01"); digit];
                                     seq [lit "2"; range "0" "3"]]);
                   lit ":"; range "0" "5"; digit]);
       Grp (g + 2) (seq [Grp (g + 3) (alt [seq [opt (lit "0"); range "1" "9"];
                                           seq [lit "1"; range "0" "2"]]);
                         lit ":"; range "0" "5"; digit;
                         opt (Grp (g + 4) (seq [lit ":"; range "0" "5"; digit]));
                         opt ws;
                         Grp (g + 5) (alt [lit "AM"; lit "PM"])])].

(** [^Time\s+(?P<startTime>T)(?:\s*-\s*|\s+to\s+)(?P<endTime>T)$] where [T]
    is [timeOfDayRegEx] *)
Definition TimeOfDayCondition_re : pattern :=
  Pattern
    (seq [Bol; lit "Time"; plus ws; Grp 1 (timeOfDayRegEx 2);
          alt [seq [star ws; lit "-"; star ws]; seq [plus ws; lit "to"; plus ws]];
          Grp 8 (timeOfDayRegEx 9); Eol])
    true [("startTime", 1); ("endTime", 8)].

(** *** The condition classes: [parse] *)

Section Conditions.
Context {Item : Type} (registry : Registry Item).

Definition operators : list (string * string) :=
  [("eq", "="); ("neq", "!="); ("lt", "<"); ("lte", "<="); ("gt", ">");
   ("gte", ">=")].

(** [next((op[1] for op in operators if match.group(op[0]) is not None), None)] *)
Definition first_operator (m : MatchObject) : value :=
  match filter (λ op, is_None (group m op.1) = false) operators with
  | op :: _ => VStr op.2
  | [] => VNone
  end.

Definition ItemStateCondition_parse (target : string)
  : result (option Descriptor) :=
  match re_match ItemStateCondition_re target with
  | Some m =>
      match getItem registry (group m "itemName") with
      | None => Raise (invalid_item_name (group m "itemName"))
      | Some item =>
          let condition := first_operator m in
          c ← ItemStateCondition (group m "itemName") condition (group m "state");
          mret (Some c)
      end
  | None => mret None
  end.

(** The offset of the day the phrase is about. *)
Definition ephemeris_offset (m : MatchObject) : result value :=
  if negb (is_None (group m "today")) then mret (VInt 0)
  else if negb (is_None (group m "plus1")) then mret (VInt 1)
  else if negb (is_None (group m "minus1")) then mret (VInt (-1))
  else if negb (is_None (group m "offset")) then mret (group m "offset")
  else Raise (ValueError [VStr "Offset is not specified"]).

(** The day type, turned into its opposite under [not]. *)
Definition ephemeris_daytype (m : MatchObject) : result value :=
  if negb (is_None (group m "not"))
  then
    if py_eq (group m "daytype") (VStr "holiday") then mret (VStr "notholiday")
    else if py_eq (group m "daytype") (VStr "weekday") then mret (VStr "weekend")
    else if py_eq (group m "daytype") (VStr "weekend") then mret (VStr "weekday")
    else Raise (ValueError [VStr "Unable to negate custom daytype: {}";
                            group m "daytype"])
  else mret (group m "daytype").

Definition EphemerisCondition_parse (target : string)
  : result (option Descriptor) :=
  match re_match EphemerisCondition_re target with
  | Some m =>
      let daytype := group m "daytype" in
      if is_None daytype
      then Raise (ValueError [VStr ("Invalid ephemeris type: "
                                    +:+ format (group m "daytype"))])
      else
        offset ← ephemeris_offset m;
        daytype ← ephemeris_daytype m;
        mret (Some (EphemerisCondition daytype offset))
  | None => mret None
  end.

Definition TimeOfDayCondition_parse (target : string)
  : result (option Descriptor) :=
  match re_match TimeOfDayCondition_re target with
  | Some m =>
      c ← TimeOfDayCondition (group m "startTime") (group m "endTime");
      mret (Some c)
  | None => mret None
  end.

Definition ItemStateCondition_class : Class Descriptor :=
  mkClass _ "ItemStateCondition" (OneWord "item") ItemStateCondition_parse.
Definition EphemerisCondition_class : Class Descriptor :=
  mkClass _ "EphemerisCondition" (Words ["today"; "tomorrow"; "yesterday"; "it's"])
          EphemerisCondition_parse.
Definition TimeOfDayCondition_class : Class Descriptor :=
  mkClass _ "TimeOfDayCondition" (OneWord "time") TimeOfDayCondition_parse.

(** *** The decorator [onlyif] *)

Definition conditionClasses : list (Class Descriptor) :=
  [ ItemStateCondition_class; EphemerisCondition_class; TimeOfDayCondition_class ].

(** The function [parse] nested in [onlyif]. *)
Definition onlyif_parse (target : string) : M (option Descriptor) :=
  let target := PyStr.strip target in
  if (PyStr.len target <=? 0)%nat
  then raise (ValueError [VStr "expression is length 0"])
  else
    firstWord_ ← lift (first (PyStr.split target));
    found ← for_classes firstWord_ target conditionClasses;
    match found with
    | Some condition => mret (Some condition)
    | None => raise (could_not_parse "condition" firstWord_ target)
    end.

(** [if not hasattr(function, 'conditions'): function.conditions = []] *)
Definition ensure_conditions (function : Function) : Function :=
  match conditions function with
  | Some _ => function
  | None => mkFunction (triggers function) (Some [])
  end.

(** [function.conditions.append(x)] *)
Definition append_condition (x : option Descriptor) (function : Function)
  : Function :=
  mkFunction (triggers function) (Some (default [] (conditions function) ++ [x])).

Definition onlyifFunction (target : string) (function : Function) : M Function :=
  condition ← onlyif_parse target;
  match condition with
  | None => raise (ValueError [VStr ("Invalid condition: " +:+ target)])
  | Some condition =>
      let function := ensure_conditions function in
      mret (append_condition (Some condition) function)
  end.

Definition bad_condition (function : Function) : M Function :=
  let function := ensure_conditions function in
  mret (append_condition None function).

Definition onlyif (target : string) : M (option (Function → M Function)) :=
  try_except
    (mret (Some (onlyifFunction target)))
    (λ ex, match ex with
           | ValueError _ => warn (Warned ex);; mret (Some bad_condition)
           | _ => warn (Traceback ex);; mret None
           end).

End Conditions.

(** ** Using the decorators *)

(** [@decorator(target)] above a function definition: [decorator(target)]
    is evaluated, and what it returns is called with the function. *)
Definition decorate (decorator : string → M (option (Function → M Function)))
           (target : string) (function : Function) : M Function :=
  d ← decorator target;
  match d with
  | Some d => d function
  | None => raise (TypeError "'NoneType' object is not callable")
  end.

(** A stack of decorators, written top to bottom, is applied bottom up. *)
Definition decorate_all (decorator : string → M (option (Function → M Function)))
           (targets : list string) (function : Function) : M Function :=
  foldr (λ target rest, f ← rest; decorate decorator target f) (mret function)
        targets.

(** ** The vocabulary of the properties *)

(** The first words a class declares, and those of a list of classes. *)
Definition declared (c : first_words) : list string :=
  match c with
  | OneWord s => [s]
  | Words l => l
  end.

Definition discriminators {A} (classes : list (Class A)) : list string :=
  classes ≫= (λ cls, declared (firstWord cls)).

(** Whether the loop calls [cls.parse] for a phrase with this first word. *)
Definition dispatched {A} (firstWord_ : string) (cls : Class A) : bool :=
  py_in (PyStr.lower firstWord_) (firstWord cls).

(** The kinds of failure the specification speaks of, and the one a raised
    exception stands for, read off the [raise] statements of the two
    modules.  Every failure they raise themselves is a [ValueError]; the
    kind is in its message:
    - [expression is length 0]: an empty phrase;
    - [Could not parse ...]: no grammar took the phrase;
    - [Invalid item name: ...], [Invalid thing UID: ...],
      [Invalid channel UID: ...]: a name the registry does not know;
    - [Unable to negate custom daytype: ...]: a negation with no meaning;
    - any other message (an invalid parameter, trigger or condition, an
      offset that is missing): a malformed value.
    An exception of another class is none of these. *)
Variant FailureKind :=
| EmptyPhrase | NoMatchingGrammar | InvalidReference | MalformedValue
| UnsupportedNegation.

Definition failure_kind (e : exn) : option FailureKind :=
  match e with
  | ValueError (VStr msg :: _) =>
      if String.eqb msg "expression is length 0" then Some EmptyPhrase
      else if String.prefix "Could not parse " msg then Some NoMatchingGrammar
      else if String.prefix "Invalid item name: " msg
              || String.prefix "Invalid thing UID: " msg
              || String.prefix "Invalid channel UID: " msg
           then Some InvalidReference
      else if String.prefix "Unable to negate custom daytype: " msg
           then Some UnsupportedNegation
      else Some MalformedValue
  | _ => None
  end.

(** A small registry to run the parsers on: the group [gLights] holds
    [Hall], [Porch] and the group [gKitchen], which holds [Sink]. *)
Definition demo_registry : Registry string :=
  mkRegistry string
    (λ item, item)
    (λ item, if String.eqb item "gLights" then Some ["Hall"; "Porch"; "gKitchen"]
             else if String.eqb item "gKitchen" then Some ["Sink"]
             else None)
    (λ item, if String.eqb item "gLights" then Some ["Hall"; "Porch"; "Sink"]
             else if String.eqb item "gKitchen" then Some ["Sink"]
             else None)
    (λ name, match name with
             | VStr s =>
                 if bool_decide (s ∈ ["gLights"; "gKitchen"; "Hall"; "Porch"; "Sink"])
                 then Some s else None
             | _ => None
             end)
    (λ uid, if py_eq uid (VStr "kodi:kodi:familyroom") then Some a_thing else None)
    (λ uid, None).

Definition quiet : World := mkWorld [] [].

(** What has been logged and called in [w1], then in [w2]. *)
Definition extend (w1 w2 : World) : World :=
  mkWorld (warnings w1 ++ warnings w2) (invoked w1 ++ invoked w2).

Definition plain_function : Function := mkFunction None None.

(** The three classes whose phrases take [Member of] and [Descendent of]:
    each with its pattern and with the trigger it builds for an item name
    from what the pattern captured. *)
Definition member_grammars {Item} (registry : Registry Item)
  : list (Class Parsed * pattern * (value → MatchObject → Descriptor)) :=
  [ (ItemStateUpdateTrigger_class registry, ItemStateUpdateTrigger_re,
     λ name m, ItemStateUpdateTrigger name (group m "state"));
    (ItemStateChangeTrigger_class registry, ItemStateChangeTrigger_re,
     λ name m, ItemStateChangeTrigger name (group m "previousState")
                                      (group m "state"));
    (ItemCommandTrigger_class registry, ItemCommandTrigger_re,
     λ name m, ItemCommandTrigger name (group m "command")) ].

(** The members a qualifier stands for. *)
Definition members_for {Item} (registry : Registry Item) (qualifier : string)
           (item : Item) : option (list Item) :=
  if String.eqb qualifier "Member" then getMembers registry item
  else if String.eqb qualifier "Descendent" then getAllMembers registry item
  else None.

(** The entities a phrase can name, the group of the pattern that holds
    the name, the lookup in the registry and the error for a name that is
    not there. *)
Variant Entity := an_item | a_thing_uid | a_channel_uid.

Definition entity_group (entity : Entity) : string :=
  match entity with
  | an_item => "itemName"
  | a_thing_uid => "thingUID"
  | a_channel_uid => "channelUID"
  end.

Definition resolved {Item} (registry : Registry Item) (entity : Entity)
           (name : value) : bool :=
  match entity with
  | an_item => bool_decide (is_Some (getItem registry name))
  | a_thing_uid => bool_decide (is_Some (getThing registry name))
  | a_channel_uid => bool_decide (is_Some (getChannel registry name))
  end.

Definition invalid_reference (entity : Entity) (name : value) : exn :=
  match entity with
  | an_item => invalid_item_name name
  | a_thing_uid => invalid_thing_uid name
  | a_channel_uid => invalid_channel_uid name
  end.

(** The trigger classes that look a name up, each with its pattern and the
    entity it names. *)
Definition references {Item} (registry : Registry Item)
  : list (Class Parsed * pattern * Entity) :=
  [ (DateTimeTrigger_class registry, DateTimeTrigger_re, an_item);
    (ItemStateUpdateTrigger_class registry, ItemStateUpdateTrigger_re, an_item);
    (ItemStateChangeTrigger_class registry, ItemStateChangeTrigger_re, an_item);
    (ItemCommandTrigger_class registry, ItemCommandTrigger_re, an_item);
    (ThingStatusUpdateTrigger_class registry, ThingStatusUpdateTrigger_re,
     a_thing_uid);
    (ThingStatusChangeTrigger_class registry, ThingStatusChangeTrigger_re,
     a_thing_uid);
    (ChannelEventTrigger_class registry, ChannelEventTrigger_re, a_channel_uid) ].

(** Phrases with the name of the item left open.  A name is what [\w+]
    takes: a word, not empty.  [not_at p rest] says that [rest] does not
    begin with a character of the class [p], and [class_body p body] that
    [body] runs the class [p]. *)
Definition a_name (name : string) : Prop :=
  name ≠ "" ∧ Forall (λ x, PyStr.is_word x = true) (PyStr.chars name).

Definition a_qualifier (q : string) : Prop := q = "Member" ∨ q = "Descendent".

Definition not_at (p : ascii → bool) (rest : list ascii) : Prop :=
  match rest with [] => True | y :: _ => p y = false end.

Definition class_body (p : ascii → bool)
           (body : nat → list ascii → captures → cont → option captures) : Prop :=
  ∀ pos s c k,
    body pos s c k
    = match s with
      | x :: s' => if p x then k (S pos) s' c else None
      | [] => None
      end.

(** What the patterns of the three item classes begin with:
    [^(?:(?P<subItems>Member|Descendent)\s+of|Item)\s+(?P<itemName>\w+)] *)
Definition item_grammar (tail : regex) : regex :=
  Seq Bol (Seq item_or_members (Seq (plus ws) (Seq (Grp 2 (plus word)) tail))).

(** Whether every match of [r] sets group [i]. *)
Fixpoint always_captures (i : nat) (r : regex) : bool :=
  match r with
  | Grp j r' => (i =? j)%nat || always_captures i r'
  | Seq r1 r2 => always_captures i r1 || always_captures i r2
  | Alt r1 r2 => always_captures i r1 && always_captures i r2
  | Rep r' lo _ => (1 <=? lo)%nat && always_captures i r'
  | _ => false
  end.

Definition captured (i : nat) (c : captures) : Prop := is_Some (assoc i c).

(** What the rest of the pattern is given when [r] has matched: the
    groups set before are still set, and so is [i] when every match of [r]
    sets it. *)
Definition hands_on (i : nat) (sure : bool) (c : captures) (k : cont)
           (res : captures) : Prop :=
  ∃ pos' s' c',
    k pos' s' c' = Some res
    ∧ (∀ j, captured j c → captured j c')
    ∧ (sure = true → captured i c').

(** What a group holds after [re.match(p, s)], if the pattern matches. *)
Definition group_of (p : pattern) (s name : string) : option value :=
  m ← re_match p s; Some (group m name).

(** A descriptor with its type set and no key bound to [None]. *)
Definition filled (d : Descriptor) : Prop :=
  type_id d ≠ "" ∧ ∀ k, configuration d !! k ≠ Some VNone.

Definition descriptors (found : option Parsed) : list Descriptor :=
  match found with
  | Some (Single d) => [d]
  | Some (Several l) => l
  | None => []
  end.

(** What a class builds for a phrase. *)
Definition built_by_trigger (cls : Class Parsed) (target : string)
  : result (list Descriptor) :=
  found ← parse cls target; mret (descriptors found).

Definition built_by_condition (cls : Class Descriptor) (target : string)
  : result (list Descriptor) :=
  found ← parse cls target; mret (option_list found).

(** The grammar units, the two classes of item and thing events apart. *)
Definition grammar_units {Item} (registry : Registry Item)
  : list (string → result (list Descriptor)) :=
  map built_by_trigger
    [ StartupTrigger_class; CronTrigger_class; DateTimeTrigger_class registry;
      ItemStateUpdateTrigger_class registry; ItemStateChangeTrigger_class registry;
      ChannelEventTrigger_class registry; ItemCommandTrigger_class registry;
      ThingStatusUpdateTrigger_class registry;
      ThingStatusChangeTrigger_class registry; DirectoryEventTrigger_class ]
  ++ map built_by_condition (conditionClasses registry).

(** ** The vocabulary of the further properties *)

(** ** What the decorators leave behind *)

(** The function with the triggers [l] appended to its [triggers]
    attribute (created when it is not there), and with the condition [c]
    appended to its [conditions] attribute. *)
Definition with_triggers (l : list Descriptor) (function : Function) : Function :=
  mkFunction (Some (default [] (triggers function) ++ map Some l))
             (conditions function).

Definition with_condition (c : Descriptor) (function : Function) : Function :=
  mkFunction (triggers function)
             (Some (default [] (conditions function) ++ [Some c])).

(** ** The fallback validator, read without its patterns *)

(** Whether [s] begins with [w] ([icase]: letter case apart). *)
Fixpoint starts_with (icase : bool) (w s : list ascii) : bool :=
  match w, s with
  | [], _ => true
  | a :: w', x :: s' => chr_eq icase a x && starts_with icase w' s'
  | _ :: _, [] => false
  end.

(** The names of [named_schedule_re]. *)
Definition named_schedules : list string :=
  ["annually"; "yearly"; "monthly"; "weekly"; "daily"; "hourly"; "reboot"].

(** Where [\w{3}] and where [\d+|\w{3}] can begin. *)
Definition three_words (s : list ascii) : bool :=
  match s with
  | x :: y :: z :: _ => PyStr.is_word x && PyStr.is_word y && PyStr.is_word z
  | _ => false
  end.

Definition number_or_name_at (s : list ascii) : bool :=
  match s with x :: _ => PyStr.is_digit x | [] => false end || three_words s.

(** A field that begins with [?], with a star, with a digit or with three
    characters of [\w]. *)
Definition reads_as_field (field : string) : bool :=
  match PyStr.chars field with
  | [] => false
  | x :: rest =>
      bool_decide (x = "?"%char) || bool_decide (x = "*"%char)
      || number_or_name_at (x :: rest)
  end.

(** ** Groups of which one is always set *)

(** Whether every match of [r] sets one of the groups [l]. *)
Fixpoint always_captures_one (l : list nat) (r : regex) : bool :=
  match r with
  | Grp j r' => bool_decide (j ∈ l) || always_captures_one l r'
  | Seq r1 r2 => always_captures_one l r1 || always_captures_one l r2
  | Alt r1 r2 => always_captures_one l r1 && always_captures_one l r2
  | Rep r' lo _ => (1 <=? lo)%nat && always_captures_one l r'
  | _ => false
  end.

Definition one_captured (l : list nat) (c : captures) : Prop :=
  ∃ i, i ∈ l ∧ captured i c.

(** What the rest of the pattern is given when [r] has matched, as in
    [hands_on], for a list of groups. *)
Definition hands_on_one (l : list nat) (sure : bool) (c : captures) (k : cont)
           (res : captures) : Prop :=
  ∃ pos' s' c',
    k pos' s' c' = Some res
    ∧ (∀ j, captured j c → captured j c')
    ∧ (sure = true → one_captured l c').

(** ** Phrases with their names and values left open *)

(** A value as a phrase has it when it is not quoted: characters that are
    neither blank nor a single quote, at least one. *)
Definition plain (x : ascii) : bool :=
  negb (PyStr.is_space x) && negb (bool_decide (x = "'"%char)).

Definition a_value (v : string) : Prop :=
  v ≠ "" ∧ Forall (λ x, plain x = true) (PyStr.chars v).

(** The spellings of the operators in [ItemStateCondition.parse], each
    with the operator that [operators] gives for its group. *)
Definition operator_spellings : list (string * string) :=
  [ ("=", "="); ("==", "="); ("eq", "="); ("equals", "="); ("is", "=");
    ("!=", "!="); ("not equals", "!="); ("is not", "!=");
    ("<", "<"); ("lt", "<"); ("is less than", "<");
    ("<=", "<="); ("lte", "<="); ("is less than or equal", "<=");
    (">", ">"); ("gt", ">"); ("is greater than", ">");
    (">=", ">="); ("gte", ">="); ("is greater than or equal", ">=") ].

(** A part of a phrase that may be left out, and the value it stands
    for. *)
Definition opt_part (keyword : string) (v : option string) : string :=
  match v with Some v => keyword +:+ v | None => "" end.

Definition opt_value (v : option string) : value := from_option VStr VNone v.

Definition an_optional_value (v : option string) : Prop :=
  match v with Some v => a_value v | None => True end.

Definition an_optional_name (v : option string) : Prop :=
  match v with Some v => a_name v | None => True end.

(** What [\s+(?P<state>'[^']+'|\S+)*$] cannot match: an input that does
    not begin with a blank, and one in which a blank and more follow the
    first value. *)
Fixpoint value_then_more (s : list ascii) : bool :=
  match s with
  | [] => false
  | x :: s' =>
      if PyStr.is_space x then match s' with [] => false | _ => true end
      else plain x && value_then_more s'
  end.

Definition state_refused (s : list ascii) : bool :=
  match s with
  | [] => true
  | b :: s' =>
      negb (PyStr.is_space b)
      || match s' with
         | x :: _ => negb (PyStr.is_space x) && value_then_more s'
         | [] => false
         end
  end.

(** A number as [\d+] takes it, and the UID of a thing or of a channel:
    characters that are neither blank nor a double quote, at least one. *)
Definition a_number (v : string) : Prop :=
  v ≠ "" ∧ Forall (λ x, PyStr.is_digit x = true) (PyStr.chars v).

Definition uid_char (x : ascii) : bool :=
  negb (PyStr.is_space x) && negb (bool_decide (x = dquote)).

Definition a_uid (v : string) : Prop :=
  v ≠ "" ∧ Forall (λ x, uid_char x = true) (PyStr.chars v).

(** The double quote as a string, put around a UID or not. *)
Definition quote_mark (quoted : bool) : string :=
  if quoted then String dquote "" else "".

(** ** Phrases about a day *)

(** The three words before an offset, the minus sign an offset may have,
    the article before a day type, and a day type as [\S+] takes it. *)
Definition offset_words : list string := ["plus"; "minus"; "offset"].

Definition minus_sign (negative : bool) : string :=
  if negative then "-" else "".

Definition article (given : bool) : string := if given then "a " else "".

Definition a_token (v : string) : Prop :=
  v ≠ "" ∧ Forall (λ x, PyStr.is_space x = false) (PyStr.chars v).

(** The end of the pattern: [\s+(?P<not>not\s+)?(in\s+)?(a\s+)?(?P<daytype>...)$]. *)
Definition day_predicate : regex :=
  seq [plus ws;
       opt (Grp 8 (seq [lit "not"; plus ws]));
       opt (Grp 9 (seq [lit "in"; plus ws]));
       opt (Grp 10 (seq [lit "a"; plus ws]));
       Grp 11 (alt [lit "holiday"; lit "weekday"; lit "weekend"; plus nws]);
       Eol].

(** ** Phrases about a directory *)

(** The two first words, the options with their kinds of events, and the
    comma between two options, with a blank behind it or without. *)
Definition directory_words : list string := ["Directory"; "Subdirectory"].

Definition event_options : list (string * WatchEventKind) :=
  [("created", ENTRY_CREATE); ("deleted", ENTRY_DELETE);
   ("modified", ENTRY_MODIFY)].

Definition comma (spaced : bool) : string := if spaced then ", " else ",".

(** The kinds of events that are read off a list of options: the kind of
    the last option, or all three for options with nothing but a comma
    between them. *)
Definition kinds_read (spaced : bool) (options : list (string * WatchEventKind))
  : list WatchEventKind :=
  match options with
  | [] => []
  | [o] => [o.2]
  | o :: l =>
      if spaced then [(List.last l o).2]
      else [ENTRY_CREATE; ENTRY_DELETE; ENTRY_MODIFY]
  end.

(** One round of the options: [(?:,\s* )*(?:created|deleted|modified)]. *)
Definition one_option : regex :=
  seq [star (seq [lit ","; star ws]);
       alt [lit "created"; lit "deleted"; lit "modified"]].


(** The days that the pattern of [EphemerisCondition.parse] has a name
    for, each with its offset. *)
Definition named_days : list (string * Z) :=
  [("Today is", 0%Z); ("it's", 0%Z); ("Tomorrow is", 1%Z); ("Today plus 1", 1%Z);
   ("Yesterday was", (-1)%Z); ("Today minus 1", (-1)%Z)].

(** ** Phrases about the time of an item *)

(** The two instants that [CronTrigger.parse] has a name for, and the
    option behind the name of an item. *)
Definition named_instants : list string := ["midnight"; "noon"].

Definition time_only (given : bool) : string :=
  if given then " [timeOnly]" else "".

(** ** A state between quotes *)

(** A text as a phrase has it between single quotes: any characters but
    the quote, at least one; and the text with its quotes. *)
Definition a_quoted_text (text : string) : Prop :=
  text ≠ "" ∧ Forall (λ x, x ≠ "'"%char) (PyStr.chars text).

Definition quoted (text : string) : string := "'" +:+ text +:+ "'".

(** ** Properties *)

(** *** The dispatch loop *)

Section Loop.
Context {A : Type}.
Implicit Types (classes : list (Class A)) (w : World).

(** The loop writes nothing to the log. *)
Lemma for_classes_warnings fw target classes w :
  warnings (for_classes fw target classes w).2 = warnings w.
Proof.
  revert w. induction classes as [|cls rest IH]; intros w; [done|].
  cbn [for_classes]. destruct (py_in _ _); [|apply IH].
  unfold call_parse, calling, lift, mbind, M_bind; cbn.
  destruct (parse cls target) as [[x|]|e]; cbn; [done| |done].
  rewrite IH. done.
Qed.

(** A class that is not dispatched is skipped. *)
Lemma for_classes_skip fw target (cls : Class A) rest w :
  dispatched fw cls = false →
  for_classes fw target (cls :: rest) w = for_classes fw target rest w.
Proof. unfold dispatched. intros H. cbn [for_classes]. by rewrite H. Qed.

(** With no class dispatched, no [parse] is called. *)
Lemma for_classes_none fw target classes w :
  Forall (λ cls, dispatched fw cls = false) classes →
  for_classes fw target classes w = (Return None, w).
Proof.
  induction 1 as [|cls rest Hc _ IH]; [done|].
  by rewrite for_classes_skip.
Qed.

(** The loop only adds to the trace: run from any world, it does what it
    does from the quiet one. *)
Lemma for_classes_frame fw target classes w1 w2 :
  for_classes fw target classes (extend w1 w2)
  = ((for_classes fw target classes w2).1,
     extend w1 (for_classes fw target classes w2).2).
Proof.
  revert w2. induction classes as [|cls rest IH]; intros w2; [done|].
  cbn [for_classes]. destruct (py_in _ _); [|apply IH].
  unfold call_parse, calling, lift, mbind, M_bind, extend; cbn.
  rewrite <- (assoc_L (++)).
  destruct (parse cls target) as [[x|]|e]; cbn; [done| |done].
  apply (IH (mkWorld (warnings w2) (invoked w2 ++ [class_name cls]))).
Qed.
(** The loop stops at the first dispatched class whose [parse] does not
    return [None], with what that call returned or raised: the classes
    before it that were dispatched have been called, those after it are
    not. *)
Lemma for_classes_stop fw target (before : list (Class A)) cls after r w :
  Forall (λ c, dispatched fw c = true → parse c target = Return None) before →
  dispatched fw cls = true →
  parse cls target = r →
  r ≠ Return None →
  for_classes fw target (before ++ cls :: after) w
  = (r,
     mkWorld (warnings w)
       (invoked w
        ++ map class_name (filter (λ c, dispatched fw c = true) before)
        ++ [class_name cls])).
Proof.
  intros Hbefore Hcls Hr Hsome. revert w.
  induction Hbefore as [|c before Hc _ IH]; intros w.
  - cbn [app for_classes]. unfold dispatched in Hcls. rewrite Hcls.
    unfold call_parse, calling, lift, mbind, M_bind. rewrite Hr.
    by destruct r as [[x|]|e].
  - cbn [app for_classes]. fold (dispatched fw c).
    destruct (dispatched fw c) eqn:Hd.
    + rewrite filter_cons_True by done.
      unfold call_parse, calling, lift, mbind, M_bind. rewrite (Hc eq_refl).
      rewrite IH. cbn. by rewrite <- (assoc_L (++)).
    + rewrite filter_cons_False by (rewrite Hd; done). apply IH.
Qed.
End Loop.

Lemma extend_quiet w : extend w quiet = w.
Proof. destruct w. unfold extend; cbn. by rewrite !(right_id_L [] (++)). Qed.

(** [when.parse] writes nothing to the log. *)
Lemma when_parse_warnings {Item} (registry : Registry Item) target w :
  warnings (when_parse registry target w).2 = warnings w.
Proof.
  unfold when_parse, mbind, M_bind, lift.
  destruct (first _) as [fw|e]; [|done].
  pose proof (for_classes_warnings fw (PyStr.strip target)
                (triggerClasses registry) w) as H.
  destruct (for_classes _ _ _ w) as [[[x|]|e] w']; done.
Qed.

(** What [when.parse] and [onlyif.parse] do from the quiet world tells what
    they do from any other. *)
Lemma when_parse_from_quiet {Item} (registry : Registry Item) target w r tr :
  when_parse registry target quiet = (r, mkWorld [] tr) →
  when_parse registry target w = (r, mkWorld (warnings w) (invoked w ++ tr)).
Proof.
  rewrite <- (extend_quiet w) at 1.
  unfold when_parse, mbind, M_bind, lift.
  destruct (first _) as [fw|e].
  - rewrite for_classes_frame.
    destruct (for_classes _ _ _ quiet) as [[[x|]|e] w']; cbn;
      intros [= <- ->]; unfold extend; cbn; by rewrite (right_id_L [] (++)).
  - intros [= <- <-]. by rewrite extend_quiet, (right_id_L [] (++)); destruct w.
Qed.

Lemma onlyif_parse_from_quiet {Item} (registry : Registry Item) target w r tr :
  onlyif_parse registry target quiet = (r, mkWorld [] tr) →
  onlyif_parse registry target w = (r, mkWorld (warnings w) (invoked w ++ tr)).
Proof.
  rewrite <- (extend_quiet w) at 1.
  unfold onlyif_parse, mbind, M_bind, lift, raise.
  destruct (_ <=? _)%nat.
  { intros [= <- <-]. by rewrite extend_quiet, (right_id_L [] (++)); destruct w. }
  destruct (first _) as [fw|e].
  - rewrite for_classes_frame.
    destruct (for_classes _ _ _ quiet) as [[[x|]|e] w']; cbn;
      intros [= <- ->]; unfold extend; cbn; by rewrite (right_id_L [] (++)).
  - intros [= <- <-]. by rewrite extend_quiet, (right_id_L [] (++)); destruct w.
Qed.

(** Evaluates a parser on a given phrase. *)
Ltac run_parser :=
  first [apply when_parse_from_quiet | apply onlyif_parse_from_quiet | idtac];
  vm_compute; reflexivity.

(** [when(target)] is always [whenFunction]: defining a function cannot
    raise, so neither [except] clause is ever entered. *)
Lemma when_is_whenFunction {Item} (registry : Registry Item) target w :
  when registry target w = (Return (Some (whenFunction registry target)), w).
Proof. reflexivity. Qed.

Lemma onlyif_is_onlyifFunction {Item} (registry : Registry Item) target w :
  onlyif registry target w = (Return (Some (onlyifFunction registry target)), w).
Proof. reflexivity. Qed.

(** C1 (the code departs from it).  When [when.parse] fails on the phrase,
    applying the decorator to a callback raises that failure to the caller:
    no warning is logged, no sentinel is appended and no function is
    returned. *)
Theorem when_failure_escapes {Item} (registry : Registry Item)
        target function w e w' :
  when_parse registry target w = (Raise e, w') →
  decorate (when registry) target function w = (Raise e, w')
  ∧ warnings w' = warnings w.
Proof.
  intros H. split.
  - unfold decorate, mbind, M_bind. rewrite when_is_whenFunction.
    unfold whenFunction, mbind, M_bind. by rewrite H.
  - pose proof (when_parse_warnings registry target w) as Hw.
    by rewrite H in Hw.
Qed.

Lemma when_failure_escapes_witness :
  when_parse demo_registry "Switch the light on" quiet
    = (Raise (could_not_parse "trigger" "Switch" "Switch the light on"), quiet)
  ∧ decorate (when demo_registry) "Switch the light on" plain_function quiet
    = (Raise (could_not_parse "trigger" "Switch" "Switch the light on"), quiet)
  ∧ warnings quiet = warnings quiet.
Proof.
  split; [reflexivity|].
  apply (when_failure_escapes demo_registry "Switch the light on"
           plain_function quiet). reflexivity.
Defined.

(** The same for [onlyif]. *)
Lemma onlyif_failure_escapes {Item} (registry : Registry Item)
      target function w e w' :
  onlyif_parse registry target w = (Raise e, w') →
  decorate (onlyif registry) target function w = (Raise e, w').
Proof.
  intros H. unfold decorate, mbind, M_bind. rewrite onlyif_is_onlyifFunction.
  unfold onlyifFunction, mbind, M_bind. by rewrite H.
Qed.

(** Three phrases on one callback, the second malformed: the stack of
    decorators stops at the malformed one. *)
Example three_phrases_second_malformed :
  decorate_all (when demo_registry)
    ["Time is noon"; "Tme is midnight"; "Item added"] plain_function quiet
  = (Raise (could_not_parse "trigger" "Tme" "Tme is midnight"),
     mkWorld [] ["ItemStateUpdateTrigger"; "ItemStateChangeTrigger";
                 "ItemEventTrigger"]).
Proof. vm_compute. reflexivity. Qed.

(** *** First-word dispatch *)

(** When no class is dispatched for the first word, [when.parse] fails
    with its could-not-parse error and calls no [parse]. *)
Lemma when_parse_no_candidate {Item} (registry : Registry Item) target fw w :
  first (PyStr.split (PyStr.strip target)) = Return fw →
  Forall (λ cls, dispatched fw cls = false) (triggerClasses registry) →
  when_parse registry target w
  = (Raise (could_not_parse "trigger" fw (PyStr.strip target)), w).
Proof.
  intros Hfw Hnone. unfold when_parse, mbind, M_bind, lift.
  rewrite Hfw. by rewrite for_classes_none.
Qed.

(** C2 (the code departs from it).  [firstWord.lower() in cls.firstWord] is
    substring containment for the classes whose [firstWord] is a string.
    The first word [ime] is no declared first word, yet [CronTrigger.parse]
    and [DateTimeTrigger.parse] are called before the phrase is rejected;
    the first word [tim] is none either, and the phrase is accepted as a
    cron trigger. *)
Theorem undeclared_first_word_is_dispatched {Item} (registry : Registry Item) w :
  ("ime" ∉ discriminators (triggerClasses registry))
  ∧ (when_parse registry "ime is noon" w
     = (Raise (could_not_parse "trigger" "ime" "ime is noon"),
        mkWorld (warnings w) (invoked w ++ ["CronTrigger"; "DateTimeTrigger"])))
  ∧ ("tim" ∉ discriminators (triggerClasses registry))
  ∧ (when_parse registry "tim 0 0 * * ?" w
     = (Return (Some (Single (CronTrigger (VStr "tim 0 0 * * ?")))),
        mkWorld (warnings w) (invoked w ++ ["CronTrigger"]))).
Proof.
  split_and!.
  - apply (bool_decide_unpack _). vm_compute. exact I.
  - run_parser.
  - apply (bool_decide_unpack _). vm_compute. exact I.
  - run_parser.
Qed.

(** The same slip in [onlyif.parse]: [tem] is no declared first word, and
    [ItemStateCondition.parse] is called. *)
Example undeclared_first_word_onlyif {Item} (registry : Registry Item) w :
  ("tem" ∉ discriminators (conditionClasses registry))
  ∧ (onlyif_parse registry "tem Hall equals ON" w
     = (Raise (could_not_parse "condition" "tem" "tem Hall equals ON"),
        mkWorld (warnings w) (invoked w ++ ["ItemStateCondition"]))).
Proof.
  split.
  - apply (bool_decide_unpack _). vm_compute. exact I.
  - run_parser.
Qed.

(** *** Letter case *)

(** C3 (the code departs from it).  The patterns ignore case, the tests on
    what they captured do not: the two phrases differ in letter case only,
    and one is the schedule of midnight, the other that of noon. *)
Theorem midnight_in_capitals_is_noon {Item} (registry : Registry Item) w :
  PyStr.lower "Time is MIDNIGHT" = PyStr.lower "Time is midnight"
  ∧ when_parse registry "Time is midnight" w
    = (Return (Some (Single (CronTrigger (VStr "0 0 0 * * ?")))),
       mkWorld (warnings w) (invoked w ++ ["CronTrigger"]))
  ∧ when_parse registry "Time is MIDNIGHT" w
    = (Return (Some (Single (CronTrigger (VStr "0 0 12 * * ?")))),
       mkWorld (warnings w) (invoked w ++ ["CronTrigger"])).
Proof. split_and!; run_parser. Qed.

(** Other tests of the same kind: [Member] against [member], and the day
    types of the ephemeris conditions. *)
Example member_in_lower_case_is_descendent :
  when_parse demo_registry "Member of gLights changed" quiet
  = (Return (Some (Several (map (λ n, ItemStateChangeTrigger (VStr n) VNone VNone)
                                ["Hall"; "Porch"; "gKitchen"]))),
     mkWorld [] ["ItemStateUpdateTrigger"; "ItemStateChangeTrigger"])
  ∧ when_parse demo_registry "member of gLights changed" quiet
  = (Return (Some (Several (map (λ n, ItemStateChangeTrigger (VStr n) VNone VNone)
                                ["Hall"; "Porch"; "Sink"]))),
     mkWorld [] ["ItemStateUpdateTrigger"; "ItemStateChangeTrigger"]).
Proof. split; vm_compute; reflexivity. Qed.

Example holiday_in_capitals_is_custom :
  EphemerisCondition_parse "Today is a holiday"
  = Return (Some (mkDescriptor "ephemeris.HolidayCondition" {[ "offset" := VInt 0 ]}))
  ∧ EphemerisCondition_parse "Today is a HOLIDAY"
  = Return (Some (mkDescriptor "epemeris.DaysetCondition"
                    (<["dayset" := VStr "HOLIDAY"]> {[ "offset" := VInt 0 ]}))).
Proof. split; vm_compute; reflexivity. Qed.

(** *** Patterns on a phrase with the name left open *)

Lemma chars_app a b : PyStr.chars (a +:+ b) = PyStr.chars a ++ PyStr.chars b.
Proof.
  unfold PyStr.chars. induction a as [|x a IH]; [done|].
  change (list_ascii_of_string (String x a +:+ b)) with (x :: list_ascii_of_string (a +:+ b)).
  by rewrite IH.
Qed.

Lemma chars_nonempty name : name ≠ "" → PyStr.chars name ≠ [].
Proof. by destruct name. Qed.

Lemma word_is_not_space x : PyStr.is_word x = true → PyStr.is_space x = false.
Proof. destruct x as [[] [] [] [] [] [] [] []]; vm_compute; congruence. Qed.

(** A greedy repetition of a class over a run [xs] of the class that ends
    before [rest] takes the whole run first: when the rest of the pattern
    accepts there, that is the match. *)
Lemma rep_loop_class body p lo k fuel count pos xs rest c r :
  class_body p body →
  Forall (λ x, p x = true) xs →
  not_at p rest →
  (lo ≤ count + length xs)%nat →
  (length (xs ++ rest) < fuel)%nat →
  k (pos + length xs)%nat rest c = Some r →
  rep_loop body lo None k fuel count pos (xs ++ rest) c = Some r.
Proof.
  intros Hbody Hxs Hrest. revert fuel count pos.
  induction Hxs as [|x xs Hx _ IH]; intros fuel count pos Hlo Hfuel Hk.
  - destruct fuel as [|fuel]; [cbn in Hfuel; lia|].
    cbn [app rep_loop]. rewrite Hbody. cbn in Hlo, Hk.
    replace (pos + 0)%nat with pos in Hk by lia.
    assert ((lo <=? count)%nat = true) as -> by (apply Nat.leb_le; lia).
    destruct rest as [|y rest]; [by rewrite Hk|].
    cbn in Hrest. rewrite Hrest. by rewrite Hk.
  - destruct fuel as [|fuel]; [cbn in Hfuel; lia|].
    cbn [app rep_loop]. rewrite Hbody, Hx.
    assert ((length (xs ++ rest) <? length (x :: xs ++ rest))%nat = true) as ->
      by (apply Nat.ltb_lt; cbn; lia).
    rewrite (IH fuel (S count) (S pos)); [done|cbn in *; lia..|].
    cbn in Hk. by replace (S pos + length xs)%nat with (pos + S (length xs))%nat by lia.
Qed.

(** It fails when the rest of the pattern fails after every part of the
    run. *)
Lemma rep_loop_class_fails body p lo k fuel count pos xs rest c :
  class_body p body →
  Forall (λ x, p x = true) xs →
  not_at p rest →
  (∀ i, (i ≤ length xs)%nat → k (pos + i)%nat (drop i xs ++ rest) c = None) →
  rep_loop body lo None k fuel count pos (xs ++ rest) c = None.
Proof.
  intros Hbody Hxs Hrest. revert fuel count pos.
  induction Hxs as [|x xs Hx _ IH]; intros fuel count pos Hk.
  - destruct fuel as [|fuel]; [done|].
    cbn [app rep_loop]. rewrite Hbody.
    specialize (Hk 0%nat (Nat.le_0_l _)). cbn in Hk.
    replace (pos + 0)%nat with pos in Hk by lia.
    destruct rest as [|y rest]; [|cbn in Hrest; rewrite Hrest];
      by destruct (lo <=? count)%nat.
  - destruct fuel as [|fuel]; [done|].
    cbn [app rep_loop]. rewrite Hbody, Hx.
    assert ((length (xs ++ rest) <? length (x :: xs ++ rest))%nat = true) as ->
      by (apply Nat.ltb_lt; cbn; lia).
    rewrite IH.
    + specialize (Hk 0%nat (Nat.le_0_l _)). cbn in Hk.
      replace (pos + 0)%nat with pos in Hk by lia.
      by destruct (lo <=? count)%nat.
    + intros i Hi. specialize (Hk (S i)). cbn in Hk.
      replace (S pos + i)%nat with (pos + S i)%nat by lia. apply Hk. lia.
Qed.

Section Accept.
Variable icase : bool.
Implicit Types (r : regex) (k : cont) (c res : captures).

Lemma run_seq r1 r2 pos s c k :
  run icase (Seq r1 r2) pos s c k
  = run icase r1 pos s c (λ pos' s' c', run icase r2 pos' s' c' k).
Proof. reflexivity. Qed.

Lemma run_plus_class p pos xs rest c k res :
  xs ≠ [] →
  Forall (λ x, p x = true) xs →
  not_at p rest →
  k (pos + length xs)%nat rest c = Some res →
  run icase (plus (Cls p)) pos (xs ++ rest) c k = Some res.
Proof.
  intros Hne Hxs Hrest Hk. unfold plus. cbn [run].
  apply (rep_loop_class _ p); [done|done|done| |lia|done].
  destruct xs; [done|cbn; lia].
Qed.

Lemma run_plus_class_one p x pos rest c k res :
  p x = true → not_at p rest →
  k (S pos) rest c = Some res →
  run icase (plus (Cls p)) pos (x :: rest) c k = Some res.
Proof.
  intros Hx Hrest Hk. apply (run_plus_class p pos [x] rest); [done| |done|].
  - by constructor.
  - cbn. by replace (pos + 1)%nat with (S pos) by lia.
Qed.

Lemma run_plus_class_fails p pos xs rest c k :
  Forall (λ x, p x = true) xs →
  not_at p rest →
  (∀ i, (i ≤ length xs)%nat → k (pos + i)%nat (drop i xs ++ rest) c = None) →
  run icase (plus (Cls p)) pos (xs ++ rest) c k = None.
Proof.
  intros Hxs Hrest Hk. unfold plus. cbn [run].
  by apply (rep_loop_class_fails _ p).
Qed.

(** [\s+] fails on a word character. *)
Lemma run_plus_ws_word pos x s c k :
  PyStr.is_word x = true → run icase (plus ws) pos (x :: s) c k = None.
Proof.
  intros Hx. unfold plus, ws. cbn. by rewrite (word_is_not_space x Hx).
Qed.
End Accept.

Lemma or_else_l {A} (a b : option A) r :
  a = Some r → match a with Some c => Some c | None => b end = Some r.
Proof. by intros ->. Qed.

Lemma or_else_r {A} (a b : option A) r :
  a = None → b = Some r → match a with Some c => Some c | None => b end = Some r.
Proof. by intros -> ->. Qed.

Lemma or_else_none {A} (a b : option A) :
  a = None → b = None → match a with Some c => Some c | None => b end = None.
Proof. by intros -> ->. Qed.

(** On [<qualifier> of <name>] followed by [rest], the beginning of the
    item patterns takes the qualifier and the whole name; the pattern
    matches when its tail matches [rest]. *)
Lemma item_grammar_accepts q name tail rest k res :
  q = "Member" ∨ q = "Descendent" →
  name ≠ "" →
  Forall (λ x, PyStr.is_word x = true) (PyStr.chars name) →
  not_at PyStr.is_word rest →
  (∀ pos, run true tail pos rest [(2, name); (1, q)] k = Some res) →
  run true (item_grammar tail) 0
      (PyStr.chars q ++ PyStr.chars " of " ++ PyStr.chars name ++ rest) [] k
  = Some res.
Proof.
  intros Hq Hne Hword Hrest Htail.
  assert (Hnm : PyStr.str (PyStr.chars name) = name)
    by apply string_of_list_ascii_of_string.
  destruct (PyStr.chars name) as [|x xs] eqn:Hxs;
    [by apply chars_nonempty in Hne|].
  assert (Hx : PyStr.is_space x = false).
  { apply word_is_not_space. by inversion Hword. }
  assert (Htake : take (length (x :: xs)) (x :: xs ++ rest) = x :: xs)
    by apply (take_app_length (x :: xs)).
  unfold item_grammar, item_or_members. cbn [alt seq foldr].
  rewrite !run_seq. cbn [run Nat.eqb].
  destruct Hq as [-> | ->].
  - do 2 apply or_else_l.
    cbn -[plus star rep_loop PyStr.str].
    apply run_plus_class_one; [reflexivity|reflexivity|].
    cbn -[plus star rep_loop PyStr.str].
    apply run_plus_class_one; [reflexivity|exact Hx|].
    cbv beta.
    apply (run_plus_class true PyStr.is_word 10 (x :: xs) rest); [done..|].
    cbv beta.
    replace (10 + length (x :: xs) - 10)%nat with (length (x :: xs)) by lia.
    rewrite Htake, Hnm. apply Htail.
  - apply or_else_l. apply or_else_r; [reflexivity|].
    cbn -[plus star rep_loop PyStr.str].
    apply run_plus_class_one; [reflexivity|reflexivity|].
    cbn -[plus star rep_loop PyStr.str].
    apply run_plus_class_one; [reflexivity|exact Hx|].
    cbv beta.
    apply (run_plus_class true PyStr.is_word 14 (x :: xs) rest); [done..|].
    cbv beta.
    replace (14 + length (x :: xs) - 14)%nat with (length (x :: xs)) by lia.
    rewrite Htake, Hnm. apply Htail.
Qed.

(** And it does not match when its tail, which begins with [\s+], does
    not match [rest]: no shorter part of the name is followed by a
    blank. *)
Lemma item_grammar_rejects q name tail rest k :
  q = "Member" ∨ q = "Descendent" →
  name ≠ "" →
  Forall (λ x, PyStr.is_word x = true) (PyStr.chars name) →
  not_at PyStr.is_word rest →
  (∀ pos c, run true (Seq (plus ws) tail) pos rest c k = None) →
  run true (item_grammar (Seq (plus ws) tail)) 0
      (PyStr.chars q ++ PyStr.chars " of " ++ PyStr.chars name ++ rest) [] k
  = None.
Proof.
  intros Hq Hne Hword Hrest Htail.
  destruct (PyStr.chars name) as [|x xs] eqn:Hxs;
    [by apply chars_nonempty in Hne|].
  assert (Hx : PyStr.is_space x = false).
  { apply word_is_not_space. by inversion Hword. }
  (* the name, then the rest of the pattern *)
  assert (Hname : ∀ pos c,
    run true (Grp 2 (plus word)) pos ((x :: xs) ++ rest) c
      (λ pos' s' c', run true (Seq (plus ws) tail) pos' s' c' k) = None).
  { intros pos c. cbn [run].
    apply run_plus_class_fails; [done..|]. intros i Hi.
    destruct (drop i (x :: xs)) as [|y ys] eqn:Hdrop.
    - apply Htail.
    - cbn [app]. apply run_plus_ws_word.
      pose proof (Forall_drop _ i _ Hword) as Hd. rewrite Hdrop in Hd.
      by inversion Hd. }
  (* the blanks before the name *)
  assert (Hblank : ∀ pos c,
    run true (plus ws) pos (" "%char :: (x :: xs) ++ rest) c
      (λ pos' s' c', run true (Grp 2 (plus word)) pos' s' c'
         (λ pos' s' c', run true (Seq (plus ws) tail) pos' s' c' k)) = None).
  { intros pos c.
    apply (run_plus_class_fails true PyStr.is_space pos [" "%char]);
      [by repeat constructor|exact Hx|].
    intros [|[|i]] Hi; [ |apply Hname|cbn in Hi; lia].
    reflexivity. }
  unfold item_grammar, item_or_members. cbn [alt seq foldr].
  rewrite !run_seq. cbn [run Nat.eqb].
  destruct Hq as [-> | ->].
  - apply or_else_none; [apply or_else_none|]; [ |reflexivity|reflexivity].
    cbn -[plus star rep_loop PyStr.str].
    apply (run_plus_class_fails true PyStr.is_space 6 [" "%char]);
      [by repeat constructor|reflexivity|].
    intros [|[|i]] Hi; [reflexivity| |cbn in Hi; lia].
    cbn -[plus star rep_loop PyStr.str]. apply Hblank.
  - apply or_else_none; [apply or_else_none|]; [reflexivity| |reflexivity].
    cbn -[plus star rep_loop PyStr.str].
    apply (run_plus_class_fails true PyStr.is_space 10 [" "%char]);
      [by repeat constructor|reflexivity|].
    intros [|[|i]] Hi; [reflexivity| |cbn in Hi; lia].
    cbn -[plus star rep_loop PyStr.str]. apply Hblank.
Qed.

(** *** Groups *)

(** What [parse] of the three item classes returns for a group. *)
Lemma members_are_expanded {Item} (registry : Registry Item)
        cls re build target m qualifier item members :
  (cls, re, build) ∈ member_grammars registry →
  re_match re target = Some m →
  group m "subItems" = VStr qualifier →
  getItem registry (group m "itemName") = Some item →
  members_for registry qualifier item = Some members →
  parse cls target
  = Return (Some (Several
      (map (λ member, build (VStr (item_name registry member)) m) members)))
  ∧ (∀ name name',
       configuration (build name m) !! "itemName" = Some name
       ∧ delete "itemName" (configuration (build name m))
         = delete "itemName" (configuration (build name' m))).
Proof.
  intros Hcls Hm Hq Hitem Hmembers.
  assert (Hgm : groupMembers_of registry item (VStr qualifier) = Return members).
  { unfold members_for in Hmembers. unfold groupMembers_of, py_eq.
    destruct (String.eqb_spec qualifier "Member") as [->|Hne].
    - rewrite bool_decide_eq_true_2 by done. by rewrite Hmembers.
    - rewrite bool_decide_eq_false_2 by congruence.
      destruct (String.eqb qualifier "Descendent"); [|done].
      by rewrite Hmembers. }
  unfold member_grammars in Hcls.
  repeat (apply elem_of_cons in Hcls as [[= -> -> ->]|Hcls]);
    [| | |by apply elem_of_nil in Hcls].
  all: split;
    [ cbn [parse ItemStateUpdateTrigger_class ItemStateChangeTrigger_class
             ItemCommandTrigger_class];
      unfold ItemStateUpdateTrigger_parse, ItemStateChangeTrigger_parse,
        ItemCommandTrigger_parse;
      rewrite Hm, Hitem, Hq; cbn [is_None]; rewrite Hgm; reflexivity
    | intros name name';
      unfold ItemStateUpdateTrigger, ItemStateChangeTrigger, ItemCommandTrigger,
        set_unless_None; cbn [configuration];
      repeat match goal with |- context [is_None ?v] => destruct (is_None v) end;
      (split; [| apply map_eq; intros k]);
      rewrite ?lookup_delete, ?lookup_insert, ?lookup_singleton;
      repeat case_decide; subst; done ].
Qed.

(** C4.  For a phrase that one of the three item grammars matches with the
    qualifier [Member] (resp. [Descendent]), about a name the registry
    resolves to a group, [parse] returns one trigger per immediate member
    (resp. per member of the transitive membership), in the order of the
    registry, each built from the name of the member and from the same
    captured groups; the triggers differ in their [itemName] only. *)
Theorem group_expansion {Item} (registry : Registry Item)
        cls re build target m qualifier item members :
  (cls, re, build) ∈ member_grammars registry →
  re_match re target = Some m →
  group m "subItems" = VStr qualifier →
  getItem registry (group m "itemName") = Some item →
  members_for registry qualifier item = Some members →
  parse cls target
  = Return (Some (Several
      (map (λ member, build (VStr (item_name registry member)) m) members)))
  ∧ (∀ name name',
       configuration (build name m) !! "itemName" = Some name
       ∧ delete "itemName" (configuration (build name m))
         = delete "itemName" (configuration (build name' m))).
Proof. apply members_are_expanded. Qed.

Lemma group_expansion_witness :
  ItemStateChangeTrigger_parse demo_registry
    "Member of gLights changed from ON to OFF"
  = Return (Some (Several
      [ ItemStateChangeTrigger (VStr "Hall") (VStr "ON") (VStr "OFF");
        ItemStateChangeTrigger (VStr "Porch") (VStr "ON") (VStr "OFF");
        ItemStateChangeTrigger (VStr "gKitchen") (VStr "ON") (VStr "OFF") ])).
Proof.
  pose (m := Match [(4, "OFF"); (3, "ON"); (2, "gLights"); (1, "Member")]
                   (groupindex ItemStateChangeTrigger_re)).
  refine (proj1 (group_expansion demo_registry
            (ItemStateChangeTrigger_class demo_registry) ItemStateChangeTrigger_re
            (λ name m, ItemStateChangeTrigger name (group m "previousState")
                                             (group m "state"))
            "Member of gLights changed from ON to OFF" m "Member" "gLights"
            ["Hall"; "Porch"; "gKitchen"] _ _ _ _ _)).
  - unfold member_grammars. apply elem_of_cons; right. apply elem_of_cons; left.
    reflexivity.
  - vm_compute. reflexivity.
  - reflexivity.
  - reflexivity.
  - reflexivity.
Defined.

(** With [Descendent of] the members of the groups inside the group come
    in place of those groups. *)
Example descendent_expansion w :
  when_parse demo_registry "Descendent of gLights received update ON" w
  = (Return (Some (Several
       [ ItemStateUpdateTrigger (VStr "Hall") (VStr "ON");
         ItemStateUpdateTrigger (VStr "Porch") (VStr "ON");
         ItemStateUpdateTrigger (VStr "Sink") (VStr "ON") ])),
     mkWorld (warnings w) (invoked w ++ ["ItemStateUpdateTrigger"])).
Proof. run_parser. Qed.

(** For every name of a group, the phrases [Member of <name> changed],
    [... received update] and [... received command] (and those with
    [Descendent of]) go through [when.parse] to the list of the triggers
    of the members. *)

(** The item patterns on [<qualifier> of <name><verb>]. *)
Lemma item_pattern_accepts re tail verb q name :
  ignorecase re = true →
  expr re = item_grammar tail →
  not_at PyStr.is_word (PyStr.chars verb) →
  (∀ pos, run true tail pos (PyStr.chars verb) [(2, name); (1, q)]
            (λ _ _ c, Some c) = Some [(2, name); (1, q)]) →
  a_qualifier q → a_name name →
  re_match re (q +:+ " of " +:+ name +:+ verb)
  = Some (Match [(2, name); (1, q)] (groupindex re)).
Proof.
  intros Hic Hre Hverb Htail Hq [Hne Hword]. unfold re_match.
  rewrite !chars_app, Hic, Hre.
  by rewrite (item_grammar_accepts q name tail (PyStr.chars verb) _
                [(2, name); (1, q)]).
Qed.

Lemma item_pattern_rejects re tail verb q name :
  ignorecase re = true →
  expr re = item_grammar (Seq (plus ws) tail) →
  not_at PyStr.is_word (PyStr.chars verb) →
  (∀ pos c, run true (Seq (plus ws) tail) pos (PyStr.chars verb) c
              (λ _ _ c, Some c) = None) →
  a_qualifier q → a_name name →
  re_match re (q +:+ " of " +:+ name +:+ verb) = None.
Proof.
  intros Hic Hre Hverb Htail Hq [Hne Hword]. unfold re_match.
  rewrite !chars_app, Hic, Hre.
  by rewrite (item_grammar_rejects q name tail (PyStr.chars verb)).
Qed.

Ltac item_pattern :=
  first [eapply item_pattern_accepts | eapply item_pattern_rejects];
  [reflexivity | reflexivity | reflexivity | intros; vm_compute; reflexivity].

Lemma changed_matches q name :
  a_qualifier q → a_name name →
  re_match ItemStateChangeTrigger_re (q +:+ " of " +:+ name +:+ " changed")
  = Some (Match [(2, name); (1, q)] (groupindex ItemStateChangeTrigger_re)).
Proof. item_pattern. Qed.

Lemma changed_is_no_update q name :
  a_qualifier q → a_name name →
  re_match ItemStateUpdateTrigger_re (q +:+ " of " +:+ name +:+ " changed") = None.
Proof. item_pattern. Qed.

Lemma received_update_matches q name :
  a_qualifier q → a_name name →
  re_match ItemStateUpdateTrigger_re (q +:+ " of " +:+ name +:+ " received update")
  = Some (Match [(2, name); (1, q)] (groupindex ItemStateUpdateTrigger_re)).
Proof. item_pattern. Qed.

Lemma received_command_matches q name :
  a_qualifier q → a_name name →
  re_match ItemCommandTrigger_re (q +:+ " of " +:+ name +:+ " received command")
  = Some (Match [(2, name); (1, q)] (groupindex ItemCommandTrigger_re)).
Proof. item_pattern. Qed.

Lemma received_command_is_no_update q name :
  a_qualifier q → a_name name →
  re_match ItemStateUpdateTrigger_re (q +:+ " of " +:+ name +:+ " received command")
  = None.
Proof. item_pattern. Qed.

Lemma received_command_is_no_change q name :
  a_qualifier q → a_name name →
  re_match ItemStateChangeTrigger_re (q +:+ " of " +:+ name +:+ " received command")
  = None.
Proof. item_pattern. Qed.

(** [strip] leaves a phrase alone that neither begins nor ends with a
    blank. *)
Lemma strip_chars_id l a z :
  head l = Some a → last l = Some z →
  PyStr.is_space a = false → PyStr.is_space z = false →
  PyStr.strip_chars l = l.
Proof.
  intros Hhead [m ->]%last_Some Ha Hz. unfold PyStr.strip_chars.
  assert (PyStr.lstrip_chars (m ++ [z]) = m ++ [z]) as ->.
  { destruct m as [|b m]; cbn in *; [by rewrite Hz|].
    injection Hhead as ->. by rewrite Ha. }
  rewrite rev_unit. cbn [PyStr.lstrip_chars]. rewrite Hz.
  rewrite <- (rev_unit m z). by rewrite rev_involutive.
Qed.

Lemma phrase_is_stripped q name verb z :
  a_qualifier q →
  PyStr.is_space z = false →
  PyStr.strip (q +:+ " of " +:+ name +:+ verb +:+ String z "")
  = q +:+ " of " +:+ name +:+ verb +:+ String z "".
Proof.
  intros Hq Hz. unfold PyStr.strip.
  rewrite <- (string_of_list_ascii_of_string (q +:+ _)) at 2.
  f_equal. fold PyStr.chars. rewrite !chars_app.
  assert (Hlast : ∀ l, last (l ++ PyStr.chars name ++ PyStr.chars verb
                             ++ PyStr.chars (String z "")) = Some z).
  { intros l. rewrite !(assoc_L (++)). apply last_snoc. }
  destruct Hq as [-> | ->].
  - by apply (strip_chars_id _ "M"%char z); [|apply (Hlast (PyStr.chars "Member of "))|..].
  - by apply (strip_chars_id _ "D"%char z);
      [|apply (Hlast (PyStr.chars "Descendent of "))|..].
Qed.

Lemma phrase_first_word q name rest :
  a_qualifier q →
  first (PyStr.split (q +:+ " of " +:+ name +:+ rest)) = Return q.
Proof.
  intros Hq. unfold PyStr.split. rewrite !chars_app.
  by destruct Hq as [-> | ->].
Qed.

(** Runs [when.parse] on a phrase about the members of a group, the name
    of the group left open. *)
Ltac members_phrase Hq stem z before cls after r :=
  unfold when_parse, mbind, M_bind, lift;
  rewrite (phrase_is_stripped _ _ stem z Hq eq_refl);
  rewrite (phrase_first_word _ _ _ Hq);
  (let verb := eval vm_compute in (stem +:+ String z "") in
   change (stem +:+ String z "") with verb);
  rewrite (for_classes_stop _ _ before cls after r);
  [ destruct Hq as [-> | ->]; reflexivity
  | pose proof Hq as [Hq' | Hq']; rewrite Hq';
    repeat (constructor;
            [let Hd := fresh "Hd" in
             intros Hd; try (vm_compute in Hd; discriminate Hd); clear Hd|]);
    try solve [constructor]; rewrite <- Hq'; clear Hq'
  | destruct Hq as [-> | ->]; reflexivity
  | | discriminate ].

Corollary members_of_a_group_changed {Item} (registry : Registry Item)
          q name item members w :
  a_qualifier q → a_name name →
  getItem registry (VStr name) = Some item →
  members_for registry q item = Some members →
  when_parse registry (q +:+ " of " +:+ name +:+ " changed") w
  = (Return (Some (Several
       (map (λ member, ItemStateChangeTrigger (VStr (item_name registry member))
                                              VNone VNone) members))),
     mkWorld (warnings w)
       (invoked w ++ ["ItemStateUpdateTrigger"; "ItemStateChangeTrigger"])).
Proof.
  intros Hq Hname Hitem Hmembers.
  members_phrase Hq " change" "d"%char
    [StartupTrigger_class; CronTrigger_class; DateTimeTrigger_class registry;
     ItemStateUpdateTrigger_class registry]
    (ItemStateChangeTrigger_class registry)
    (drop 5 (triggerClasses registry))
    (Return (Some (Several
       (map (λ member, ItemStateChangeTrigger (VStr (item_name registry member))
                                              VNone VNone) members)))).
  1, 2: cbn [parse ItemStateUpdateTrigger_class];
        unfold ItemStateUpdateTrigger_parse;
        by rewrite changed_is_no_update.
  apply (members_are_expanded registry _ ItemStateChangeTrigger_re
           (λ name m, ItemStateChangeTrigger name (group m "previousState")
                                            (group m "state"))
           _ (Match [(2, name); (1, q)] (groupindex ItemStateChangeTrigger_re))
           q item members); [|by apply changed_matches|done..].
  unfold member_grammars. apply elem_of_cons; right. apply elem_of_cons; by left.
Qed.

Corollary members_of_a_group_received_update {Item} (registry : Registry Item)
          q name item members w :
  a_qualifier q → a_name name →
  getItem registry (VStr name) = Some item →
  members_for registry q item = Some members →
  when_parse registry (q +:+ " of " +:+ name +:+ " received update") w
  = (Return (Some (Several
       (map (λ member, ItemStateUpdateTrigger (VStr (item_name registry member))
                                              VNone) members))),
     mkWorld (warnings w) (invoked w ++ ["ItemStateUpdateTrigger"])).
Proof.
  intros Hq Hname Hitem Hmembers.
  members_phrase Hq " received updat" "e"%char
    [StartupTrigger_class; CronTrigger_class; DateTimeTrigger_class registry]
    (ItemStateUpdateTrigger_class registry)
    (drop 4 (triggerClasses registry))
    (Return (Some (Several
       (map (λ member, ItemStateUpdateTrigger (VStr (item_name registry member))
                                              VNone) members)))).
  apply (members_are_expanded registry _ ItemStateUpdateTrigger_re
           (λ name m, ItemStateUpdateTrigger name (group m "state"))
           _ (Match [(2, name); (1, q)] (groupindex ItemStateUpdateTrigger_re))
           q item members); [|by apply received_update_matches|done..].
  unfold member_grammars. apply elem_of_cons; by left.
Qed.

Corollary members_of_a_group_received_command {Item} (registry : Registry Item)
          q name item members w :
  a_qualifier q → a_name name →
  getItem registry (VStr name) = Some item →
  members_for registry q item = Some members →
  when_parse registry (q +:+ " of " +:+ name +:+ " received command") w
  = (Return (Some (Several
       (map (λ member, ItemCommandTrigger (VStr (item_name registry member))
                                          VNone) members))),
     mkWorld (warnings w)
       (invoked w ++ ["ItemStateUpdateTrigger"; "ItemStateChangeTrigger";
                      "ItemCommandTrigger"])).
Proof.
  intros Hq Hname Hitem Hmembers.
  members_phrase Hq " received comman" "d"%char
    [StartupTrigger_class; CronTrigger_class; DateTimeTrigger_class registry;
     ItemStateUpdateTrigger_class registry; ItemStateChangeTrigger_class registry;
     ChannelEventTrigger_class registry; ItemEventTrigger_class]
    (ItemCommandTrigger_class registry)
    (drop 8 (triggerClasses registry))
    (Return (Some (Several
       (map (λ member, ItemCommandTrigger (VStr (item_name registry member))
                                          VNone) members)))).
  1, 3: cbn [parse ItemStateUpdateTrigger_class];
        unfold ItemStateUpdateTrigger_parse;
        by rewrite received_command_is_no_update.
  1, 2: cbn [parse ItemStateChangeTrigger_class];
        unfold ItemStateChangeTrigger_parse;
        by rewrite received_command_is_no_change.
  apply (members_are_expanded registry _ ItemCommandTrigger_re
           (λ name m, ItemCommandTrigger name (group m "command"))
           _ (Match [(2, name); (1, q)] (groupindex ItemCommandTrigger_re))
           q item members); [|by apply received_command_matches|done..].
  unfold member_grammars. do 2 (apply elem_of_cons; right).
  apply elem_of_cons; by left.
Qed.

(** *** Negation in the ephemeris conditions *)

Lemma py_eq_str (a b : string) : py_eq (VStr a) (VStr b) = String.eqb a b.
Proof.
  unfold py_eq. destruct (String.eqb_spec a b) as [->|Hne].
  - by rewrite bool_decide_eq_true_2.
  - rewrite bool_decide_eq_false_2; [done|congruence].
Qed.

(** C5.  On a phrase the ephemeris pattern matches with [not], the day type
    [holiday] gives the not-holiday condition, [weekday] the weekend
    condition and [weekend] the weekday condition, each with the offset of
    the day the phrase is about; any other day type is refused with the
    unable-to-negate error, which is the failure of kind
    [UnsupportedNegation]. *)
Theorem negated_day_type target m daytype offset :
  re_match EphemerisCondition_re target = Some m →
  group m "not" ≠ VNone →
  group m "daytype" = VStr daytype →
  ephemeris_offset m = Return offset →
  EphemerisCondition_parse target
  = (if String.eqb daytype "holiday"
     then Return (Some (mkDescriptor "ephemeris.NotHolidayCondition"
                                     {[ "offset" := offset ]}))
     else if String.eqb daytype "weekday"
     then Return (Some (mkDescriptor "ephemeris.WeekendCondition"
                                     {[ "offset" := offset ]}))
     else if String.eqb daytype "weekend"
     then Return (Some (mkDescriptor "ephemeris.WeekdayCondition"
                                     {[ "offset" := offset ]}))
     else Raise (ValueError [VStr "Unable to negate custom daytype: {}";
                             VStr daytype]))
  ∧ failure_kind (ValueError [VStr "Unable to negate custom daytype: {}";
                              VStr daytype]) = Some UnsupportedNegation.
Proof.
  intros Hm Hnot Hdaytype Hoffset. split; [|reflexivity].
  unfold EphemerisCondition_parse. rewrite Hm, Hdaytype. cbn [is_None].
  rewrite Hoffset. cbn [mbind result_bind].
  unfold ephemeris_daytype. rewrite Hdaytype.
  destruct (group m "not"); [done|..]; cbn [is_None negb];
    rewrite !py_eq_str;
    (destruct (String.eqb daytype "holiday"); [reflexivity|]);
    (destruct (String.eqb daytype "weekday"); [reflexivity|]);
    (destruct (String.eqb daytype "weekend"); reflexivity).
Qed.

Lemma negated_day_type_witness :
  EphemerisCondition_parse "Today is not a holiday"
  = Return (Some (mkDescriptor "ephemeris.NotHolidayCondition"
                               {[ "offset" := VInt 0 ]}))
  ∧ EphemerisCondition_parse "Today is not a weekday"
  = Return (Some (mkDescriptor "ephemeris.WeekendCondition"
                               {[ "offset" := VInt 0 ]}))
  ∧ EphemerisCondition_parse "Tomorrow is not a weekend"
  = Return (Some (mkDescriptor "ephemeris.WeekdayCondition"
                               {[ "offset" := VInt 1 ]}))
  ∧ EphemerisCondition_parse "Today is not in school"
  = Raise (ValueError [VStr "Unable to negate custom daytype: {}"; VStr "school"]).
Proof.
  split_and!.
  - refine (proj1 (negated_day_type "Today is not a holiday"
      (Match [(11, "holiday"); (10, "a "); (8, "not "); (1, "Today is");
              (2, "Today is")] (groupindex EphemerisCondition_re))
      "holiday" (VInt 0) _ _ _ _)); [vm_compute; reflexivity|done..].
  - refine (proj1 (negated_day_type "Today is not a weekday"
      (Match [(11, "weekday"); (10, "a "); (8, "not "); (1, "Today is");
              (2, "Today is")] (groupindex EphemerisCondition_re))
      "weekday" (VInt 0) _ _ _ _)); [vm_compute; reflexivity|done..].
  - refine (proj1 (negated_day_type "Tomorrow is not a weekend"
      (Match [(11, "weekend"); (10, "a "); (8, "not "); (1, "Tomorrow is");
              (3, "Tomorrow is")] (groupindex EphemerisCondition_re))
      "weekend" (VInt 1) _ _ _ _)); [vm_compute; reflexivity|done..].
  - refine (proj1 (negated_day_type "Today is not in school"
      (Match [(11, "school"); (9, "in "); (8, "not "); (1, "Today is");
              (2, "Today is")] (groupindex EphemerisCondition_re))
      "school" (VInt 0) _ _ _ _)); [vm_compute; reflexivity|done..].
Defined.

(** The offset is the one the pattern captured: with [Today minus 3] it is
    the text [3]. *)
Example negated_with_captured_offset w :
  onlyif_parse demo_registry "today minus 3 is not a holiday" w
  = (Return (Some (mkDescriptor "ephemeris.NotHolidayCondition"
                                {[ "offset" := VStr "3" ]})),
     mkWorld (warnings w) (invoked w ++ ["EphemerisCondition"])).
Proof. run_parser. Qed.

(** *** The cron grammar *)

(** The validator answers [True], [False] or [None]. *)
Lemma isValidExpression_answers expr v :
  isValidExpression expr = Return v → v = VBool true ∨ truthy v = false.
Proof.
  unfold isValidExpression. destruct (as_str "strip" expr) as [s|e]; [|done].
  cbn [mbind result_bind].
  destruct (PyStr.startswith _ _).
  { intros [= <-]. destruct (bool_decide _); auto. }
  destruct (_ && _); [|intros [= <-]; auto].
  destruct (forallb _ _); intros [= <-]; auto.
Qed.

(** C6, as the code has it.  The cron grammar accepts an expression only
    when the validator has answered [True]; [Time cron 0 0 * * * ?] gives a
    cron trigger with that expression, [Time is midnight] and
    [Time is noon] the two fixed schedules; on [Time cron not-a-cron] the
    grammar yields no match, and [when.parse] fails with its could-not-parse
    error, the failure of kind [NoMatchingGrammar]. *)
Theorem cron_grammar {Item} (registry : Registry Item) w :
  (when_parse registry "Time cron 0 0 * * * ?" w
   = (Return (Some (Single (CronTrigger (VStr "0 0 * * * ?")))),
      mkWorld (warnings w) (invoked w ++ ["CronTrigger"])))
  ∧ (configuration (CronTrigger (VStr "0 0 * * * ?")) !! "cronExpression"
     = Some (VStr "0 0 * * * ?"))
  ∧ (CronTrigger_parse "Time cron not-a-cron" = Return None)
  ∧ (when_parse registry "Time cron not-a-cron" w
     = (Raise (could_not_parse "trigger" "Time" "Time cron not-a-cron"),
        mkWorld (warnings w) (invoked w ++ ["CronTrigger"; "DateTimeTrigger"])))
  ∧ (failure_kind (could_not_parse "trigger" "Time" "Time cron not-a-cron")
     = Some NoMatchingGrammar)
  ∧ (when_parse registry "Time is midnight" w
     = (Return (Some (Single (CronTrigger (VStr "0 0 0 * * ?")))),
        mkWorld (warnings w) (invoked w ++ ["CronTrigger"])))
  ∧ (when_parse registry "Time is noon" w
     = (Return (Some (Single (CronTrigger (VStr "0 0 12 * * ?")))),
        mkWorld (warnings w) (invoked w ++ ["CronTrigger"])))
  ∧ (∀ target,
       match CronTrigger_parse target with
       | Return (Some found) =>
           ∃ expr, found = Single (CronTrigger expr)
                   ∧ isValidExpression expr = Return (VBool true)
       | _ => True
       end).
Proof.
  split_and!; [run_parser..|].
  intros target. unfold CronTrigger_parse.
  match goal with |- context [isValidExpression ?e] => set (expr := e) end.
  destruct (isValidExpression expr) as [v|e] eqn:Hv; [|done].
  cbn [mbind result_bind].
  destruct (isValidExpression_answers _ _ Hv) as [->|Hf].
  - cbn [truthy]. by exists expr.
  - by rewrite Hf.
Qed.

(** C6, as the specification has it, fails: the failure on
    [Time cron not-a-cron] is not of kind [MalformedValue]. *)
Lemma not_a_cron_is_not_malformed_value :
  when_parse demo_registry "Time cron not-a-cron" quiet
  = (Raise (could_not_parse "trigger" "Time" "Time cron not-a-cron"),
     mkWorld [] ["CronTrigger"; "DateTimeTrigger"])
  ∧ failure_kind (could_not_parse "trigger" "Time" "Time cron not-a-cron")
    ≠ Some MalformedValue.
Proof. split; [run_parser|]. vm_compute. discriminate. Qed.

(** *** Values left unset *)

(** The groups a pattern always sets. *)
Lemma captured_cons j t i c : captured i c → captured i ((j, t) :: c).
Proof. unfold captured. cbn. by destruct (i =? j)%nat. Qed.

Lemma captured_here i t c : captured i ((i, t) :: c).
Proof. unfold captured. cbn. by rewrite Nat.eqb_refl. Qed.

Section Captures.
Variables (icase : bool) (i : nat).

Lemma rep_loop_captures r lo hi k res :
  (∀ pos s c k res, run icase r pos s c k = Some res →
                    hands_on i (always_captures i r) c k res) →
  ∀ fuel count pos s c,
    ((1 ≤ count)%nat → always_captures i r = true → captured i c) →
    rep_loop (run icase r) lo hi k fuel count pos s c = Some res →
    hands_on i ((1 <=? lo)%nat && always_captures i r) c k res.
Proof.
  intros IHr fuel. induction fuel as [|fuel IH]; intros count pos s c Hinv; [done|].
  cbn [rep_loop].
  destruct (if match hi with Some h => (count <? h)%nat | None => true end
            then _ else None) as [res'|] eqn:Hmore.
  - intros [= ->].
    destruct (match hi with Some h => (count <? h)%nat | None => true end);
      [|done].
    apply IHr in Hmore as (pos' & s' & c' & Hk & Hmono & Hsure).
    destruct (length s' <? length s)%nat; [|done].
    apply IH in Hk as (pos'' & s'' & c'' & Hk & Hmono' & Hsure'); [|auto].
    exists pos'', s'', c''. split_and!; [done|auto|done].
  - destruct (lo <=? count)%nat eqn:Hlo; [|done]. intros Hk.
    exists pos, s, c. split_and!; [done|done|].
    intros [Hlo' Hr]%andb_true_iff. apply Hinv; [|done].
    apply Nat.leb_le in Hlo, Hlo'. lia.
Qed.

Lemma run_captures r :
  ∀ pos s c k res,
    run icase r pos s c k = Some res →
    hands_on i (always_captures i r) c k res.
Proof.
  induction r as [|a|p|r1 IH1 r2 IH2|r1 IH1 r2 IH2|r IH lo hi|j r IH| |];
    intros pos s c k res; cbn [run always_captures].
  - intros Hk. by exists pos, s, c.
  - destruct s as [|x s]; [done|]. destruct (chr_eq _ _ _); [|done].
    intros Hk. by exists (S pos), s, c.
  - destruct s as [|x s]; [done|]. destruct (p x); [|done].
    intros Hk. by exists (S pos), s, c.
  - intros (pos1 & s1 & c1 & H2 & Hmono1 & Hsure1)%IH1.
    apply IH2 in H2 as (pos2 & s2 & c2 & Hk & Hmono2 & Hsure2).
    exists pos2, s2, c2. split_and!; [done|auto|].
    intros [?|?]%orb_true_iff; auto.
  - destruct (run icase r1 pos s c k) as [res'|] eqn:H1.
    + intros [= ->]. apply IH1 in H1 as (pos' & s' & c' & Hk & Hmono & Hsure).
      exists pos', s', c'. split_and!; [done..|].
      intros [? _]%andb_true_iff. auto.
    + intros (pos' & s' & c' & Hk & Hmono & Hsure)%IH2.
      exists pos', s', c'. split_and!; [done..|].
      intros [_ ?]%andb_true_iff. auto.
  - apply rep_loop_captures; [done|]. lia.
  - intros (pos' & s' & c' & Hk & Hmono & Hsure)%IH.
    eexists pos', s', _. split_and!; [done|..].
    + intros j' Hj'. apply captured_cons. auto.
    + intros [->%Nat.eqb_eq|?]%orb_true_iff;
        [apply captured_here|apply captured_cons; auto].
  - destruct (pos =? 0)%nat; [|done]. intros Hk. by exists pos, s, c.
  - destruct (at_eol s); [|done]. intros Hk. by exists pos, s, c.
Qed.
End Captures.

(** A group that every match of the pattern sets is not [None] in a match
    object. *)
Lemma group_is_set p s m name i :
  re_match p s = Some m →
  index_of name (groupindex p) = Some i →
  always_captures i (expr p) = true →
  ∃ text, group m name = VStr text.
Proof.
  unfold re_match. intros Hm Hname Hsure.
  destruct (run _ _ _ _ _ _) as [res|] eqn:Hrun; [|done].
  injection Hm as <-.
  apply (run_captures _ i) in Hrun as (pos' & s' & c' & [= ->] & _ & Hc).
  destruct (Hc Hsure) as [text Htext].
  exists text. unfold group, text_of, text_at. cbn [names caps].
  by rewrite Hname, Htext.
Qed.

(** A configuration with no key bound to [None]. *)
Lemma set_unless_None_keeps k v (d : gmap string value) :
  (∀ j, d !! j ≠ Some VNone) → ∀ j, set_unless_None k v d !! j ≠ Some VNone.
Proof.
  intros Hd j. unfold set_unless_None. destruct v; cbn [is_None]; [apply Hd|..];
    rewrite lookup_insert; case_decide; (done || apply Hd).
Qed.

Lemma insert_keeps k v (d : gmap string value) :
  v ≠ VNone → (∀ j, d !! j ≠ Some VNone) → ∀ j, <[k := v]> d !! j ≠ Some VNone.
Proof.
  intros Hv Hd j. rewrite lookup_insert. case_decide; [congruence|apply Hd].
Qed.

Lemma empty_keeps j : (∅ : gmap string value) !! j ≠ Some VNone.
Proof. by rewrite lookup_empty. Qed.

Ltac keeps :=
  repeat first [ apply empty_keeps
               | apply set_unless_None_keeps
               | apply insert_keeps; [done|] ].

Lemma any_None_false (d : gmap string value) :
  any_None d = false → ∀ k, d !! k ≠ Some VNone.
Proof.
  unfold any_None. intros H%bool_decide_eq_false k Hk. apply H.
  apply Exists_exists. exists (k, VNone). split; [|done].
  by apply elem_of_map_to_list.
Qed.

Section Filled.
Context {Item : Type} (registry : Registry Item).

Ltac set_group m name :=
  let H := fresh "Hgroup" in
  let text := fresh "text" in
  match goal with
  | Hm : re_match ?p _ = Some m |- _ =>
      destruct (group_is_set p _ m name _ Hm eq_refl eq_refl) as [text H];
      rewrite ?H in *
  end.

(** The descriptor of a phrase. *)
Ltac the_descriptor :=
  cbn [descriptors option_list];
  first [ intros ->%list_elem_of_singleton | by intros ?%elem_of_nil ].

Ltac is_filled := split; [done|]; cbn [configuration]; keeps.

Lemma StartupTrigger_filled target found d :
  StartupTrigger_parse target = Return found → d ∈ descriptors found → filled d.
Proof.
  unfold StartupTrigger_parse. destruct (re_match _ _) as [m|]; intros [= <-];
    the_descriptor.
  unfold StartupTrigger. destruct (group m "startLevel"); is_filled.
Qed.

Lemma CronTrigger_filled target found d :
  CronTrigger_parse target = Return found → d ∈ descriptors found → filled d.
Proof.
  unfold CronTrigger_parse.
  match goal with |- context [isValidExpression ?e] => generalize e end.
  intros expr. destruct (isValidExpression expr) as [v|e] eqn:Hv; [|done].
  cbn [mbind result_bind]. destruct (truthy v); intros [= <-]; the_descriptor.
  destruct expr; try discriminate Hv. unfold CronTrigger. is_filled.
Qed.

Lemma DateTimeTrigger_filled target found d :
  DateTimeTrigger_parse registry target = Return found →
  d ∈ descriptors found → filled d.
Proof.
  unfold DateTimeTrigger_parse. destruct (re_match _ _) as [m|] eqn:Hm;
    [|intros [= <-]; the_descriptor].
  set_group m "itemName".
  destruct (getItem _ _); intros [= <-]; the_descriptor.
  unfold DateTimeTrigger. is_filled.
Qed.
(** The triggers of the members of a group. *)
Ltac the_members :=
  match goal with
  | |- context [groupMembers_of ?r ?item ?q] =>
      destruct (groupMembers_of r item q) as [members|]; [|done];
      cbn [mbind result_bind]; intros [= <-]; cbn [descriptors];
      intros (member & -> & _)%list_elem_of_fmap
  end.

Lemma ItemStateUpdateTrigger_filled target found d :
  ItemStateUpdateTrigger_parse registry target = Return found →
  d ∈ descriptors found → filled d.
Proof.
  unfold ItemStateUpdateTrigger_parse. destruct (re_match _ _) as [m|] eqn:Hm;
    [|intros [= <-]; the_descriptor].
  set_group m "itemName".
  destruct (getItem _ _); [|done].
  destruct (is_None _); [intros [= <-]; the_descriptor|the_members];
    unfold ItemStateUpdateTrigger; is_filled.
Qed.

Lemma ItemStateChangeTrigger_filled target found d :
  ItemStateChangeTrigger_parse registry target = Return found →
  d ∈ descriptors found → filled d.
Proof.
  unfold ItemStateChangeTrigger_parse. destruct (re_match _ _) as [m|] eqn:Hm;
    [|intros [= <-]; the_descriptor].
  set_group m "itemName".
  destruct (getItem _ _); [|done].
  destruct (is_None _); [intros [= <-]; the_descriptor|the_members];
    unfold ItemStateChangeTrigger; is_filled.
Qed.

Lemma ItemCommandTrigger_filled target found d :
  ItemCommandTrigger_parse registry target = Return found →
  d ∈ descriptors found → filled d.
Proof.
  unfold ItemCommandTrigger_parse. destruct (re_match _ _) as [m|] eqn:Hm;
    [|intros [= <-]; the_descriptor].
  set_group m "itemName".
  destruct (getItem _ _); [|done].
  destruct (is_None _); [intros [= <-]; the_descriptor|the_members];
    unfold ItemCommandTrigger; is_filled.
Qed.

Lemma ThingStatusUpdateTrigger_filled target found d :
  ThingStatusUpdateTrigger_parse registry target = Return found →
  d ∈ descriptors found → filled d.
Proof.
  unfold ThingStatusUpdateTrigger_parse.
  destruct (re_match _ _) as [m|] eqn:Hm; [|intros [= <-]; the_descriptor].
  set_group m "thingUID".
  destruct (getThing _ _); intros [= <-]; the_descriptor.
  unfold ThingStatusUpdateTrigger. is_filled.
Qed.

Lemma ThingStatusChangeTrigger_filled target found d :
  ThingStatusChangeTrigger_parse registry target = Return found →
  d ∈ descriptors found → filled d.
Proof.
  unfold ThingStatusChangeTrigger_parse.
  destruct (re_match _ _) as [m|] eqn:Hm; [|intros [= <-]; the_descriptor].
  set_group m "thingUID".
  destruct (getThing _ _); intros [= <-]; the_descriptor.
  unfold ThingStatusChangeTrigger. is_filled.
Qed.

Lemma ChannelEventTrigger_filled target found d :
  ChannelEventTrigger_parse registry target = Return found →
  d ∈ descriptors found → filled d.
Proof.
  unfold ChannelEventTrigger_parse.
  destruct (re_match _ _) as [m|] eqn:Hm; [|intros [= <-]; the_descriptor].
  set_group m "channelUID".
  destruct (getChannel _ _); intros [= <-]; the_descriptor.
  unfold ChannelEventTrigger. is_filled.
Qed.

Lemma DirectoryEventTrigger_filled target found d :
  DirectoryEventTrigger_parse target = Return found →
  d ∈ descriptors found → filled d.
Proof.
  unfold DirectoryEventTrigger_parse.
  destruct (re_match _ _) as [m|] eqn:Hm; [|intros [= <-]; the_descriptor].
  set_group m "path".
  destruct (as_str _ _); [|done]. cbn [mbind result_bind].
  intros [= <-]; the_descriptor.
  unfold DirectoryEventTrigger. is_filled.
Qed.

Lemma ItemStateCondition_filled target found d :
  ItemStateCondition_parse registry target = Return found →
  d ∈ option_list found → filled d.
Proof.
  unfold ItemStateCondition_parse.
  destruct (re_match _ _) as [m|] eqn:Hm; [|intros [= <-]; the_descriptor].
  destruct (getItem _ _); [|done]. unfold ItemStateCondition.
  destruct (any_None _) eqn:Hany; [done|]. cbn [mbind result_bind].
  intros [= <-]; the_descriptor. split; [done|]. by apply any_None_false.
Qed.

Lemma TimeOfDayCondition_filled target found d :
  TimeOfDayCondition_parse target = Return found →
  d ∈ option_list found → filled d.
Proof.
  unfold TimeOfDayCondition_parse.
  destruct (re_match _ _) as [m|] eqn:Hm; [|intros [= <-]; the_descriptor].
  unfold TimeOfDayCondition.
  destruct (any_None _) eqn:Hany; [done|]. cbn [mbind result_bind].
  intros [= <-]; the_descriptor. split; [done|]. by apply any_None_false.
Qed.

Lemma EphemerisCondition_is_filled dayset offset :
  dayset ≠ VNone → offset ≠ VNone → filled (EphemerisCondition dayset offset).
Proof.
  intros Hd Ho. unfold EphemerisCondition, dict_get, ephemeris_typeuid.
  destruct dayset as [| | |s]; try is_filled.
  rewrite !lookup_insert, lookup_singleton.
  repeat case_decide; cbn [default]; is_filled.
Qed.

Lemma EphemerisCondition_filled target found d :
  EphemerisCondition_parse target = Return found →
  d ∈ option_list found → filled d.
Proof.
  unfold EphemerisCondition_parse.
  destruct (re_match _ _) as [m|] eqn:Hm; [|intros [= <-]; the_descriptor].
  destruct (is_None (group m "daytype")) eqn:Hdaytype; [done|].
  destruct (ephemeris_offset m) as [offset|] eqn:Hoffset; [|done].
  destruct (ephemeris_daytype m) as [daytype|] eqn:Hday; [|done].
  cbn [mbind result_bind]. intros [= <-]; the_descriptor.
  apply EphemerisCondition_is_filled.
  - unfold ephemeris_daytype in Hday.
    repeat match type of Hday with
           | (if ?b then _ else _) = _ => destruct b
           end; try discriminate Hday; injection Hday as <-; try done.
    by destruct (group m "daytype").
  - unfold ephemeris_offset in Hoffset.
    repeat match type of Hoffset with
           | (if negb (is_None ?v) then _ else _) = _ =>
               destruct v eqn:?; cbn [is_None negb] in Hoffset
           end; try discriminate Hoffset; by injection Hoffset as <-.
Qed.
End Filled.

(** C7, as the code has it.  What every grammar unit (the two classes of
    item and thing events apart) builds for a phrase has its type set and
    no key bound to [None]; a state, previous state, command, status,
    previous status, event or [timeOnly] that is [None] is left out of the
    configuration by the constructor; a start level that is [None] is
    stored as 40, and [DateTimeTrigger.parse] always stores [timeOnly], as
    a boolean; the constructors of the item-state and time-of-day
    conditions raise on a [None]. *)
Theorem no_unset_values {Item} (registry : Registry Item) :
  (∀ build target ds d,
     build ∈ grammar_units registry → build target = Return ds → d ∈ ds →
     filled d)
  ∧ (∀ name v,
       configuration (ItemStateUpdateTrigger name VNone) !! "state" = None
       ∧ configuration (ItemStateChangeTrigger name VNone v) !! "previousState" = None
       ∧ configuration (ItemStateChangeTrigger name v VNone) !! "state" = None
       ∧ configuration (ItemCommandTrigger name VNone) !! "command" = None
       ∧ configuration (ThingStatusUpdateTrigger name VNone) !! "status" = None
       ∧ configuration (ThingStatusChangeTrigger name VNone v) !! "previousStatus" = None
       ∧ configuration (ThingStatusChangeTrigger name v VNone) !! "status" = None
       ∧ configuration (ChannelEventTrigger name VNone) !! "event" = None
       ∧ configuration (DateTimeTrigger name VNone) !! "timeOnly" = None)
  ∧ (configuration (StartupTrigger VNone) !! "startlevel" = Some (VInt 40))
  ∧ (∀ target d,
       DateTimeTrigger_parse registry target = Return (Some (Single d)) →
       ∃ b, configuration d !! "timeOnly" = Some (VBool b))
  ∧ (∀ a b c,
       VNone ∈ [a; b; c] →
       ItemStateCondition a b c
       = Raise (ValueError [VStr "Paramater invalid in call to ItemStateConditon"]))
  ∧ (∀ a b,
       VNone ∈ [a; b] →
       TimeOfDayCondition a b
       = Raise (ValueError [VStr "Paramater invalid in call to TimeOfDateCondition"])).
Proof.
  split_and!.
  - intros build target ds d Hbuild Hds Hd. unfold grammar_units in Hbuild.
    apply elem_of_app in Hbuild as [Hbuild|Hbuild];
      cbn [map conditionClasses] in Hbuild;
      repeat (apply elem_of_cons in Hbuild as [->|Hbuild]);
      try (by apply elem_of_nil in Hbuild);
      unfold built_by_trigger, built_by_condition, StartupTrigger_class,
        CronTrigger_class, DateTimeTrigger_class, ItemStateUpdateTrigger_class,
        ItemStateChangeTrigger_class, ChannelEventTrigger_class,
        ItemCommandTrigger_class, ThingStatusUpdateTrigger_class,
        ThingStatusChangeTrigger_class, DirectoryEventTrigger_class,
        ItemStateCondition_class, EphemerisCondition_class,
        TimeOfDayCondition_class in Hds;
      cbn [parse] in Hds;
      match type of Hds with
      | mbind _ ?p = _ => destruct p as [found|] eqn:Hfound; [|done]
      end;
      injection Hds as <-;
      eauto using StartupTrigger_filled, CronTrigger_filled,
        DateTimeTrigger_filled, ItemStateUpdateTrigger_filled,
        ItemStateChangeTrigger_filled, ChannelEventTrigger_filled,
        ItemCommandTrigger_filled, ThingStatusUpdateTrigger_filled,
        ThingStatusChangeTrigger_filled, DirectoryEventTrigger_filled,
        ItemStateCondition_filled, EphemerisCondition_filled,
        TimeOfDayCondition_filled.
  - intros name v.
    unfold ItemStateUpdateTrigger, ItemStateChangeTrigger, ItemCommandTrigger,
      ThingStatusUpdateTrigger, ThingStatusChangeTrigger, ChannelEventTrigger,
      DateTimeTrigger, set_unless_None.
    cbn [configuration is_None].
    split_and!; destruct (is_None v);
      rewrite ?lookup_insert, ?lookup_singleton; repeat case_decide; done.
  - reflexivity.
  - intros target d. unfold DateTimeTrigger_parse.
    destruct (re_match _ _) as [m|]; [|done].
    destruct (getItem _ _); intros [= <-].
    eexists. unfold DateTimeTrigger, set_unless_None. cbn [configuration is_None].
    by rewrite lookup_insert_eq.
  - intros a b c Hin. unfold ItemStateCondition.
    assert (any_None (<["itemName":=a]> (<["operator":=b]> {["state" := c]}))
            = true) as ->; [|done].
    apply bool_decide_eq_true, Exists_exists.
    repeat (apply elem_of_cons in Hin as [<-|Hin]);
      [exists ("itemName", VNone)|exists ("operator", VNone)
      |exists ("state", VNone)|by apply elem_of_nil in Hin];
      (split; [apply elem_of_map_to_list|done]);
      rewrite ?lookup_insert, ?lookup_singleton; repeat case_decide; done.
  - intros a b Hin. unfold TimeOfDayCondition.
    assert (any_None (<["startTime":=a]> {["endTime" := b]}) = true) as ->;
      [|done].
    apply bool_decide_eq_true, Exists_exists.
    repeat (apply elem_of_cons in Hin as [<-|Hin]);
      [exists ("startTime", VNone)|exists ("endTime", VNone)
      |by apply elem_of_nil in Hin];
      (split; [apply elem_of_map_to_list|done]);
      rewrite ?lookup_insert, ?lookup_singleton; repeat case_decide; done.
Qed.

Lemma no_unset_values_witness :
  filled (ItemStateChangeTrigger (VStr "Hall") VNone (VStr "ON")).
Proof.
  apply (proj1 (no_unset_values demo_registry)
           (built_by_trigger (ItemStateChangeTrigger_class demo_registry))
           "Item Hall changed to ON"
           [ItemStateChangeTrigger (VStr "Hall") VNone (VStr "ON")]).
  - unfold grammar_units. apply elem_of_app; left. cbn [map].
    do 4 (apply elem_of_cons; right). apply elem_of_cons; left. reflexivity.
  - vm_compute. reflexivity.
  - apply elem_of_cons; left. reflexivity.
Defined.

(** C7, as the specification has it, fails: a parameter the phrase does
    not give is not always left out.  [System started] gives no start
    level and the configuration holds 40; [Time is Hall] has no
    [[timeOnly]] and the configuration holds [timeOnly] bound to
    [False]. *)
Lemma absent_parameters_are_stored :
  (group_of StartupTrigger_re "System started" "startLevel" = Some VNone)
  ∧ when_parse demo_registry "System started" quiet
    = (Return (Some (Single (StartupTrigger VNone))),
       mkWorld [] ["StartupTrigger"])
  ∧ configuration (StartupTrigger VNone) !! "startlevel" = Some (VInt 40)
  ∧ (group_of DateTimeTrigger_re "Time is Hall" "timeOnly" = Some VNone)
  ∧ when_parse demo_registry "Time is Hall" quiet
    = (Return (Some (Single (DateTimeTrigger (VStr "Hall") (VBool false)))),
       mkWorld [] ["CronTrigger"; "DateTimeTrigger"])
  ∧ configuration (DateTimeTrigger (VStr "Hall") (VBool false)) !! "timeOnly"
    = Some (VBool false).
Proof. split_and!; vm_compute; reflexivity. Qed.

(** The two classes of events are another matter.  [Item ADDED] matches the pattern of
    [ItemEventTrigger], which ignores case; the table of event names is
    looked up with the text as written, and the trigger is built with
    [eventTypes] bound to [None]. *)
Example event_types_bound_to_None {Item} (registry : Registry Item) w :
  when_parse registry "Item ADDED" w
  = (Return (Some (Single (ItemEventTrigger VNone VNone))),
     mkWorld (warnings w)
       (invoked w ++ ["ItemStateUpdateTrigger"; "ItemStateChangeTrigger";
                      "ItemEventTrigger"]))
  ∧ type_id (ItemEventTrigger VNone VNone) = "core.GenericEventTrigger"
  ∧ configuration (ItemEventTrigger VNone VNone) !! "eventTypes" = Some VNone.
Proof. split_and!; [run_parser|reflexivity..]. Qed.

Example thing_event_types_bound_to_None {Item} (registry : Registry Item) w :
  ∃ tr,
    when_parse registry "Thing Removed" w
    = (Return (Some (Single (ThingEventTrigger VNone VNone))),
       mkWorld (warnings w) (invoked w ++ tr))
    ∧ configuration (ThingEventTrigger VNone VNone) !! "eventTypes" = Some VNone.
Proof.
  exists ["ThingStatusUpdateTrigger"; "ThingStatusChangeTrigger"; "ThingEventTrigger"].
  split; [run_parser|reflexivity].
Qed.

(** *** Blank phrases *)

Lemma lstrip_blank l :
  Forall (λ c, PyStr.is_space c = true) l → PyStr.lstrip_chars l = [].
Proof. induction 1 as [|c l Hc _ IH]; [done|]. cbn. by rewrite Hc. Qed.

Lemma strip_blank s :
  Forall (λ c, PyStr.is_space c = true) (PyStr.chars s) → PyStr.strip s = "".
Proof.
  intros H. unfold PyStr.strip, PyStr.strip_chars. by rewrite (lstrip_blank _ H).
Qed.

(** C8 (the code departs from it in [when]).  On a phrase that is empty or
    all blanks, [onlyif.parse] fails with its length-0 error, the failure
    of kind [EmptyPhrase]; [when.parse] has no such test, takes the first
    element of an empty list, and lets the [IndexError] escape. *)
Theorem blank_phrase {Item} (registry : Registry Item) target w :
  Forall (λ c, PyStr.is_space c = true) (PyStr.chars target) →
  when_parse registry target w
  = (Raise (IndexError "list index out of range"), w)
  ∧ failure_kind (IndexError "list index out of range") = None
  ∧ onlyif_parse registry target w
    = (Raise (ValueError [VStr "expression is length 0"]), w)
  ∧ failure_kind (ValueError [VStr "expression is length 0"]) = Some EmptyPhrase.
Proof.
  intros H. split_and!; [|reflexivity| |reflexivity].
  - unfold when_parse. by rewrite (strip_blank _ H).
  - unfold onlyif_parse. by rewrite (strip_blank _ H).
Qed.

Lemma blank_phrase_witness :
  when_parse demo_registry "   " quiet
  = (Raise (IndexError "list index out of range"), quiet)
  ∧ failure_kind (IndexError "list index out of range") = None
  ∧ onlyif_parse demo_registry "   " quiet
    = (Raise (ValueError [VStr "expression is length 0"]), quiet)
  ∧ failure_kind (ValueError [VStr "expression is length 0"]) = Some EmptyPhrase.
Proof.
  apply (blank_phrase demo_registry "   " quiet).
  repeat constructor.
Defined.

(** *** Names the registry does not know *)


(** A class that looks a name up raises when its pattern matches and the
    registry does not know the name. *)
Lemma unresolved_reference_raises {Item} (registry : Registry Item)
      cls re entity target m :
  (cls, re, entity) ∈ references registry →
  re_match re target = Some m →
  resolved registry entity (group m (entity_group entity)) = false →
  parse cls target
  = Raise (invalid_reference entity (group m (entity_group entity))).
Proof.
  intros Hcls Hm Hunres. unfold references in Hcls.
  repeat (apply elem_of_cons in Hcls as [[= -> -> ->]|Hcls]);
    [..|by apply elem_of_nil in Hcls];
    cbn [resolved entity_group] in Hunres;
    apply bool_decide_eq_false_1 in Hunres;
    cbn [parse DateTimeTrigger_class ItemStateUpdateTrigger_class
           ItemStateChangeTrigger_class ItemCommandTrigger_class
           ThingStatusUpdateTrigger_class ThingStatusChangeTrigger_class
           ChannelEventTrigger_class invalid_reference entity_group];
    unfold DateTimeTrigger_parse, ItemStateUpdateTrigger_parse,
      ItemStateChangeTrigger_parse, ItemCommandTrigger_parse,
      ThingStatusUpdateTrigger_parse, ThingStatusChangeTrigger_parse,
      ChannelEventTrigger_parse;
    rewrite Hm;
    match goal with
    | |- context [match ?lookup with Some _ => _ | None => _ end] =>
        destruct lookup; [by destruct Hunres|reflexivity]
    end.
Qed.

Lemma invalid_reference_kind entity name :
  failure_kind (invalid_reference entity name) = Some InvalidReference.
Proof.
  destruct entity; unfold invalid_reference, invalid_item_name,
    invalid_thing_uid, invalid_channel_uid; destruct (format name); reflexivity.
Qed.

(** C9.  When the first class that takes the phrase (the dispatched
    classes before it having returned [None]) matches it and the registry
    does not know the item, thing or channel it names, [when.parse] raises
    the invalid-name error, a failure of kind [InvalidReference]; the
    classes after that one are not called. *)
Theorem invalid_reference_stops {Item} (registry : Registry Item)
        target fw before cls after re entity m w :
  first (PyStr.split (PyStr.strip target)) = Return fw →
  triggerClasses registry = before ++ cls :: after →
  Forall (λ c, dispatched fw c = true
               → parse c (PyStr.strip target) = Return None) before →
  dispatched fw cls = true →
  (cls, re, entity) ∈ references registry →
  re_match re (PyStr.strip target) = Some m →
  resolved registry entity (group m (entity_group entity)) = false →
  when_parse registry target w
  = (Raise (invalid_reference entity (group m (entity_group entity))),
     mkWorld (warnings w)
       (invoked w
        ++ map class_name (filter (λ c, dispatched fw c = true) before)
        ++ [class_name cls]))
  ∧ failure_kind (invalid_reference entity (group m (entity_group entity)))
    = Some InvalidReference.
Proof.
  intros Hfw Hclasses Hbefore Hcls Href Hm Hunres.
  split; [|apply invalid_reference_kind].
  unfold when_parse, mbind, M_bind, lift. rewrite Hfw, Hclasses.
  rewrite (for_classes_stop fw _ before cls after
             (Raise (invalid_reference entity (group m (entity_group entity)))));
    [done..| |done].
  by apply (unresolved_reference_raises registry cls re entity).
Qed.

Lemma invalid_reference_stops_witness :
  when_parse demo_registry "Time is Attic" quiet
  = (Raise (ValueError [VStr "Invalid item name: Attic"]),
     mkWorld [] ["CronTrigger"; "DateTimeTrigger"])
  ∧ failure_kind (ValueError [VStr "Invalid item name: Attic"])
    = Some InvalidReference.
Proof.
  refine (invalid_reference_stops demo_registry "Time is Attic" "Time"
            [StartupTrigger_class; CronTrigger_class]
            (DateTimeTrigger_class demo_registry)
            (drop 3 (triggerClasses demo_registry))
            DateTimeTrigger_re an_item
            (Match [(1, "Attic")] (groupindex DateTimeTrigger_re)) quiet
            _ _ _ _ _ _ _).
  - reflexivity.
  - reflexivity.
  - constructor; [intros H; vm_compute in H; discriminate H|].
    constructor; [intros _; vm_compute; reflexivity|]. constructor.
  - reflexivity.
  - unfold references. apply elem_of_cons; left. reflexivity.
  - vm_compute. reflexivity.
  - reflexivity.
Defined.

(** The same in [onlyif.parse]. *)
Example invalid_reference_onlyif w :
  onlyif_parse demo_registry "Item Attic equals ON" w
  = (Raise (ValueError [VStr "Invalid item name: Attic"]),
     mkWorld (warnings w) (invoked w ++ ["ItemStateCondition"])).
Proof. run_parser. Qed.

(** *** The whole phrase as a cron expression *)

(** C10.  When the pattern of [CronTrigger] does not match the phrase, the
    phrase itself goes to the validator, and when it passes the class
    returns a cron trigger whose [cronExpression] is the whole phrase. *)
Theorem whole_phrase_as_cron_expression target :
  re_match CronTrigger_re target = None →
  isValidExpression (VStr target) = Return (VBool true) →
  CronTrigger_parse target = Return (Some (Single (CronTrigger (VStr target))))
  ∧ configuration (CronTrigger (VStr target)) !! "cronExpression"
    = Some (VStr target).
Proof.
  intros Hm Hvalid. split.
  - unfold CronTrigger_parse. rewrite Hm, Hvalid. reflexivity.
  - unfold CronTrigger. cbn [configuration]. by rewrite lookup_singleton_eq.
Qed.

Lemma whole_phrase_as_cron_expression_witness :
  CronTrigger_parse "Time 0 0 * * ?"
  = Return (Some (Single (CronTrigger (VStr "Time 0 0 * * ?"))))
  ∧ configuration (CronTrigger (VStr "Time 0 0 * * ?")) !! "cronExpression"
    = Some (VStr "Time 0 0 * * ?").
Proof.
  apply (whole_phrase_as_cron_expression "Time 0 0 * * ?");
    vm_compute; reflexivity.
Defined.

(** Such a phrase goes through [when.parse]: six words, each beginning
    with a digit, a star, a question mark or three letters. *)
Example six_words_are_a_cron_expression {Item} (registry : Registry Item) w :
  when_parse registry "Time 0 0 * * ?" w
  = (Return (Some (Single (CronTrigger (VStr "Time 0 0 * * ?")))),
     mkWorld (warnings w) (invoked w ++ ["CronTrigger"]))
  ∧ when_parse registry "time and 12 mon,tue 5/x ?" w
  = (Return (Some (Single (CronTrigger (VStr "time and 12 mon,tue 5/x ?")))),
     mkWorld (warnings w) (invoked w ++ ["CronTrigger"])).
Proof. split; run_parser. Qed.

(** ** Further properties *)

(** *** What a successful decoration leaves behind *)

Lemma append_all_triggers l function ts :
  triggers function = Some ts →
  foldl (λ f trigger, append_trigger (Some trigger) f) function l
  = mkFunction (Some (ts ++ map Some l)) (conditions function).
Proof.
  revert function ts. induction l as [|d l IH]; intros function ts Hts.
  - cbn. rewrite (right_id_L [] (++)). destruct function; cbn in *. by subst.
  - cbn [foldl map]. rewrite (IH _ (ts ++ [Some d])).
    + by rewrite <- (assoc_L (++)).
    + unfold append_trigger. cbn. by rewrite Hts.
Qed.

Lemma whenFunction_appends {Item} (registry : Registry Item)
      target function found w w' :
  when_parse registry target w = (Return (Some found), w') →
  whenFunction registry target function w
  = (Return (with_triggers (descriptors (Some found)) function), w').
Proof.
  intros H. unfold whenFunction, mbind, M_bind. rewrite H.
  unfold with_triggers. destruct found as [d|l]; cbn [descriptors].
  - by destruct function as [[ts|] cs].
  - rewrite (append_all_triggers l _ (default [] (triggers function)));
      by destruct function as [[ts|] cs].
Qed.

Lemma onlyifFunction_appends {Item} (registry : Registry Item)
      target function condition w w' :
  onlyif_parse registry target w = (Return (Some condition), w') →
  onlyifFunction registry target function w
  = (Return (with_condition condition function), w').
Proof.
  intros H. unfold onlyifFunction, mbind, M_bind. rewrite H.
  by destruct function as [ts [cs|]].
Qed.

Lemma onlyif_parse_warnings {Item} (registry : Registry Item) target w :
  warnings (onlyif_parse registry target w).2 = warnings w.
Proof.
  unfold onlyif_parse, mbind, M_bind, lift, raise.
  destruct (_ <=? _)%nat; [done|].
  destruct (first _) as [fw|e]; [|done].
  pose proof (for_classes_warnings fw (PyStr.strip target)
                (conditionClasses registry) w) as H.
  destruct (for_classes _ _ _ w) as [[[x|]|e] w']; done.
Qed.

(** When [when.parse] takes the phrase, decorating a function appends the
    trigger it built (every trigger of the list, in order, when it built a
    list) to the end of the function's [triggers], which is created when
    the function has none; the triggers that were there stay in front, the
    [conditions] are not touched and nothing is logged. *)
Theorem when_appends_the_triggers {Item} (registry : Registry Item)
        target function found w w' :
  when_parse registry target w = (Return (Some found), w') →
  decorate (when registry) target function w
  = (Return (mkFunction
               (Some (default [] (triggers function)
                      ++ map Some (descriptors (Some found))))
               (conditions function)), w')
  ∧ warnings w' = warnings w.
Proof.
  intros H. split.
  - unfold decorate, mbind, M_bind. rewrite when_is_whenFunction.
    by rewrite (whenFunction_appends registry target function found w w').
  - pose proof (when_parse_warnings registry target w) as Hw.
    by rewrite H in Hw.
Qed.

Lemma when_appends_the_triggers_witness :
  decorate (when demo_registry) "Member of gLights changed"
    (mkFunction (Some [Some (CronTrigger (VStr "0 0 12 * * ?"))]) None) quiet
  = (Return (mkFunction
       (Some [ Some (CronTrigger (VStr "0 0 12 * * ?"));
               Some (ItemStateChangeTrigger (VStr "Hall") VNone VNone);
               Some (ItemStateChangeTrigger (VStr "Porch") VNone VNone);
               Some (ItemStateChangeTrigger (VStr "gKitchen") VNone VNone) ])
       None),
     mkWorld [] ["ItemStateUpdateTrigger"; "ItemStateChangeTrigger"]).
Proof.
  refine (proj1 (when_appends_the_triggers demo_registry
    "Member of gLights changed"
    (mkFunction (Some [Some (CronTrigger (VStr "0 0 12 * * ?"))]) None)
    (Several [ ItemStateChangeTrigger (VStr "Hall") VNone VNone;
               ItemStateChangeTrigger (VStr "Porch") VNone VNone;
               ItemStateChangeTrigger (VStr "gKitchen") VNone VNone ])
    quiet _ _)).
  vm_compute. reflexivity.
Defined.

(** The same for [onlyif]: the condition is appended to the function's
    [conditions]; its [triggers] are not touched. *)
Theorem onlyif_appends_the_condition {Item} (registry : Registry Item)
        target function condition w w' :
  onlyif_parse registry target w = (Return (Some condition), w') →
  decorate (onlyif registry) target function w
  = (Return (mkFunction
               (triggers function)
               (Some (default [] (conditions function) ++ [Some condition]))),
     w')
  ∧ warnings w' = warnings w.
Proof.
  intros H. split.
  - unfold decorate, mbind, M_bind. rewrite onlyif_is_onlyifFunction.
    by rewrite (onlyifFunction_appends registry target function condition w w').
  - pose proof (onlyif_parse_warnings registry target w) as Hw.
    by rewrite H in Hw.
Qed.

Lemma onlyif_appends_the_condition_witness :
  decorate (onlyif demo_registry) "Today is a holiday" plain_function quiet
  = (Return (mkFunction None
       (Some [Some (mkDescriptor "ephemeris.HolidayCondition"
                                 {[ "offset" := VInt 0 ]})])),
     mkWorld [] ["EphemerisCondition"]).
Proof.
  refine (proj1 (onlyif_appends_the_condition demo_registry
    "Today is a holiday" plain_function
    (mkDescriptor "ephemeris.HolidayCondition" {[ "offset" := VInt 0 ]})
    quiet _ _)).
  vm_compute. reflexivity.
Defined.

(** [when] and [onlyif] on one function do not depend on their order: the
    function ends with the same [triggers] and the same [conditions]. *)
Theorem when_and_onlyif_commute {Item} (registry : Registry Item)
        phrase found tr condition_phrase condition tr' function w :
  when_parse registry phrase quiet = (Return (Some found), mkWorld [] tr) →
  onlyif_parse registry condition_phrase quiet
  = (Return (Some condition), mkWorld [] tr') →
  (f ← decorate (when registry) phrase function;
   decorate (onlyif registry) condition_phrase f) w
  = (Return (with_condition condition
               (with_triggers (descriptors (Some found)) function)),
     mkWorld (warnings w) (invoked w ++ tr ++ tr'))
  ∧ (f ← decorate (onlyif registry) condition_phrase function;
     decorate (when registry) phrase f) w
  = (Return (with_condition condition
               (with_triggers (descriptors (Some found)) function)),
     mkWorld (warnings w) (invoked w ++ tr' ++ tr)).
Proof.
  intros Hwhen Honlyif.
  pose proof (λ w, when_parse_from_quiet registry phrase w _ _ Hwhen) as Hw.
  pose proof (λ w, onlyif_parse_from_quiet registry condition_phrase w _ _ Honlyif)
    as Ho.
  split.
  - unfold decorate, mbind at 1, M_bind at 1.
    unfold mbind at 1, M_bind at 1. rewrite when_is_whenFunction.
    rewrite (whenFunction_appends registry phrase function found w _ (Hw w)).
    unfold mbind, M_bind. rewrite onlyif_is_onlyifFunction.
    rewrite (onlyifFunction_appends registry condition_phrase _ condition _ _
               (Ho _)).
    cbn [warnings invoked]. by rewrite <- (assoc_L (++)).
  - unfold decorate, mbind at 1, M_bind at 1.
    unfold mbind at 1, M_bind at 1. rewrite onlyif_is_onlyifFunction.
    rewrite (onlyifFunction_appends registry condition_phrase function condition
               w _ (Ho w)).
    unfold mbind, M_bind. rewrite when_is_whenFunction.
    rewrite (whenFunction_appends registry phrase _ found _ _ (Hw _)).
    cbn [warnings invoked]. by rewrite <- (assoc_L (++)).
Qed.

Lemma when_and_onlyif_commute_witness :
  (f ← decorate (when demo_registry) "Item Hall changed" plain_function;
   decorate (onlyif demo_registry) "Today is a holiday" f) quiet
  = (Return (mkFunction
       (Some [Some (ItemStateChangeTrigger (VStr "Hall") VNone VNone)])
       (Some [Some (mkDescriptor "ephemeris.HolidayCondition"
                                 {[ "offset" := VInt 0 ]})])),
     mkWorld [] ["ItemStateUpdateTrigger"; "ItemStateChangeTrigger";
                 "EphemerisCondition"])
  ∧ (f ← decorate (onlyif demo_registry) "Today is a holiday" plain_function;
     decorate (when demo_registry) "Item Hall changed" f) quiet
  = (Return (mkFunction
       (Some [Some (ItemStateChangeTrigger (VStr "Hall") VNone VNone)])
       (Some [Some (mkDescriptor "ephemeris.HolidayCondition"
                                 {[ "offset" := VInt 0 ]})])),
     mkWorld [] ["EphemerisCondition"; "ItemStateUpdateTrigger";
                 "ItemStateChangeTrigger"]).
Proof.
  apply (when_and_onlyif_commute demo_registry
    "Item Hall changed"
    (Single (ItemStateChangeTrigger (VStr "Hall") VNone VNone))
    ["ItemStateUpdateTrigger"; "ItemStateChangeTrigger"]
    "Today is a holiday"
    (mkDescriptor "ephemeris.HolidayCondition" {[ "offset" := VInt 0 ]})
    ["EphemerisCondition"] plain_function quiet);
    vm_compute; reflexivity.
Defined.

Lemma with_triggers_app l1 l2 function :
  with_triggers l2 (with_triggers l1 function) = with_triggers (l1 ++ l2) function.
Proof.
  unfold with_triggers. cbn. by rewrite map_app, (assoc_L (++)).
Qed.

Lemma decorate_all_cons decorator target targets function w :
  decorate_all decorator (target :: targets) function w
  = match decorate_all decorator targets function w with
    | (Return f, w') => decorate decorator target f w'
    | (Raise e, w') => (Raise e, w')
    end.
Proof. reflexivity. Qed.

Lemma stacked_whens {Item} (registry : Registry Item)
      targets founds function w :
  Forall2 (λ target found,
             ∃ tr, when_parse registry target quiet
                   = (Return (Some found), mkWorld [] tr)) targets founds →
  (decorate_all (when registry) targets function w).1
  = Return (match founds with
            | [] => function
            | _ => with_triggers
                     (concat (map (λ found, descriptors (Some found)) (rev founds)))
                     function
            end)
  ∧ warnings (decorate_all (when registry) targets function w).2 = warnings w.
Proof.
  induction 1 as [|target found targets founds [tr Hparse] Hrest IH]; [done|].
  rewrite decorate_all_cons.
  destruct (decorate_all (when registry) targets function w) as [[f|e] w1];
    cbn [fst snd] in IH; destruct IH as [[= IH] Hw1].
  unfold decorate, mbind, M_bind. rewrite when_is_whenFunction.
  rewrite (whenFunction_appends registry target f found w1 _
             (when_parse_from_quiet registry target w1 _ _ Hparse)).
  cbn [fst snd warnings]. split; [|done]. f_equal. subst f.
  cbn [rev]. rewrite map_app, concat_app. cbn [map concat].
  rewrite (right_id_L [] (++)).
  destruct founds as [|found' founds]; [done|].
  by rewrite with_triggers_app.
Qed.

(** A stack of [when] decorators whose phrases are all taken: the
    decorator nearest to the function is applied first, so the triggers
    come in the order of the phrases read from the bottom of the stack to
    its top, after the triggers the function had; nothing is logged. *)
Theorem stacked_whens_append_bottom_up {Item} (registry : Registry Item)
        targets founds function w :
  targets ≠ [] →
  Forall2 (λ target found,
             ∃ tr, when_parse registry target quiet
                   = (Return (Some found), mkWorld [] tr)) targets founds →
  (decorate_all (when registry) targets function w).1
  = Return (with_triggers
              (concat (map (λ found, descriptors (Some found)) (rev founds)))
              function)
  ∧ warnings (decorate_all (when registry) targets function w).2 = warnings w.
Proof.
  intros Hne H. destruct (stacked_whens registry _ _ function w H) as [H1 H2].
  split; [|done]. rewrite H1. by destruct H.
Qed.

Lemma stacked_whens_append_bottom_up_witness :
  (decorate_all (when demo_registry)
     ["Time is noon"; "Member of gKitchen changed"; "Item added"]
     plain_function quiet).1
  = Return (mkFunction
      (Some [ Some (ItemEventTrigger (VStr "ItemAddedEvent") VNone);
              Some (ItemStateChangeTrigger (VStr "Sink") VNone VNone);
              Some (CronTrigger (VStr "0 0 12 * * ?")) ])
      None).
Proof.
  refine (proj1 (stacked_whens_append_bottom_up demo_registry
    ["Time is noon"; "Member of gKitchen changed"; "Item added"]
    [ Single (CronTrigger (VStr "0 0 12 * * ?"));
      Several [ItemStateChangeTrigger (VStr "Sink") VNone VNone];
      Single (ItemEventTrigger (VStr "ItemAddedEvent") VNone) ]
    plain_function quiet _ _)); [done|].
  repeat (constructor; [eexists; vm_compute; reflexivity|]). constructor.
Defined.

(** *** The outcome of the dispatch loop *)

(** When every dispatched class returns [None], the loop runs to its end
    having called each of them. *)
Lemma for_classes_decline {A} fw target (classes : list (Class A)) w :
  Forall (λ c, dispatched fw c = true → parse c target = Return None) classes →
  for_classes fw target classes w
  = (Return None,
     mkWorld (warnings w)
       (invoked w ++ map class_name (filter (λ c, dispatched fw c = true) classes))).
Proof.
  intros H. revert w. induction H as [|c classes Hc _ IH]; intros w.
  - cbn. rewrite (right_id_L [] (++)). by destruct w.
  - cbn [for_classes]. fold (dispatched fw c).
    destruct (dispatched fw c) eqn:Hd.
    + rewrite filter_cons_True by done.
      unfold call_parse, calling, lift, mbind, M_bind. rewrite (Hc eq_refl).
      rewrite IH. cbn. by rewrite <- (assoc_L (++)).
    + rewrite filter_cons_False by (rewrite Hd; done). apply IH.
Qed.

Lemma could_not_parse_kind kind fw target :
  failure_kind (could_not_parse kind fw target) = Some NoMatchingGrammar.
Proof. unfold could_not_parse. destruct fw; reflexivity. Qed.

(** Where [when.parse] stops. *)
Lemma when_parse_stops {Item} (registry : Registry Item)
      target fw before cls after r w :
  first (PyStr.split (PyStr.strip target)) = Return fw →
  triggerClasses registry = before ++ cls :: after →
  Forall (λ c, dispatched fw c = true → parse c (PyStr.strip target) = Return None)
         before →
  dispatched fw cls = true →
  parse cls (PyStr.strip target) = r →
  r ≠ Return None →
  when_parse registry target w
  = (r, mkWorld (warnings w)
          (invoked w
           ++ map class_name (filter (λ c, dispatched fw c = true) before)
           ++ [class_name cls])).
Proof.
  intros Hfw Hsplit Hbefore Hcls Hr Hsome.
  unfold when_parse, mbind, M_bind, lift. rewrite Hfw, Hsplit.
  rewrite (for_classes_stop fw _ before cls after r) by done.
  by destruct r as [[x|]|e].
Qed.

Lemma onlyif_parse_stops {Item} (registry : Registry Item)
      target fw before cls after r w :
  PyStr.strip target ≠ "" →
  first (PyStr.split (PyStr.strip target)) = Return fw →
  conditionClasses registry = before ++ cls :: after →
  Forall (λ c, dispatched fw c = true → parse c (PyStr.strip target) = Return None)
         before →
  dispatched fw cls = true →
  parse cls (PyStr.strip target) = r →
  r ≠ Return None →
  onlyif_parse registry target w
  = (r, mkWorld (warnings w)
          (invoked w
           ++ map class_name (filter (λ c, dispatched fw c = true) before)
           ++ [class_name cls])).
Proof.
  intros Hne Hfw Hsplit Hbefore Hcls Hr Hsome.
  unfold onlyif_parse, mbind, M_bind, lift.
  destruct (PyStr.strip target) as [|a s] eqn:Hs; [done|].
  cbn [PyStr.len String.length Nat.leb]. rewrite Hfw, Hsplit.
  rewrite (for_classes_stop fw _ before cls after r) by done.
  by destruct r as [[x|]|e].
Qed.

(** [when.parse] on a phrase that is not blank returns what the first
    dispatched class whose [parse] does not return [None] returns, and
    raises what it raises: the dispatched classes before it have been
    called, no class after it is. *)
Theorem when_parse_first_answer {Item} (registry : Registry Item)
        target fw before cls after r w :
  first (PyStr.split (PyStr.strip target)) = Return fw →
  triggerClasses registry = before ++ cls :: after →
  Forall (λ c, dispatched fw c = true → parse c (PyStr.strip target) = Return None)
         before →
  dispatched fw cls = true →
  parse cls (PyStr.strip target) = r →
  r ≠ Return None →
  when_parse registry target w
  = (r, mkWorld (warnings w)
          (invoked w
           ++ map class_name (filter (λ c, dispatched fw c = true) before)
           ++ [class_name cls])).
Proof. apply when_parse_stops. Qed.

Lemma when_parse_first_answer_witness :
  when_parse demo_registry "  Thing kodi:kodi:familyroom changed to OFFLINE " quiet
  = (Return (Some (Single (ThingStatusChangeTrigger
                             (VStr "kodi:kodi:familyroom") VNone (VStr "OFFLINE")))),
     mkWorld [] ["ThingStatusUpdateTrigger"; "ThingStatusChangeTrigger"]).
Proof.
  apply (when_parse_first_answer demo_registry
    "  Thing kodi:kodi:familyroom changed to OFFLINE " "Thing"
    (take 9 (triggerClasses demo_registry))
    (ThingStatusChangeTrigger_class demo_registry)
    (drop 10 (triggerClasses demo_registry))).
  - reflexivity.
  - reflexivity.
  - repeat (constructor;
            [let Hd := fresh "Hd" in
             intros Hd; try (vm_compute in Hd; discriminate Hd);
             vm_compute; reflexivity|]).
    constructor.
  - reflexivity.
  - vm_compute. reflexivity.
  - discriminate.
Defined.

(** When every dispatched class returns [None], [when.parse] has called
    each of them and raises its could-not-parse error, which names the
    first word and the stripped phrase. *)
Theorem when_parse_no_answer {Item} (registry : Registry Item) target fw w :
  first (PyStr.split (PyStr.strip target)) = Return fw →
  Forall (λ c, dispatched fw c = true → parse c (PyStr.strip target) = Return None)
         (triggerClasses registry) →
  when_parse registry target w
  = (Raise (could_not_parse "trigger" fw (PyStr.strip target)),
     mkWorld (warnings w)
       (invoked w
        ++ map class_name
             (filter (λ c, dispatched fw c = true) (triggerClasses registry))))
  ∧ failure_kind (could_not_parse "trigger" fw (PyStr.strip target))
    = Some NoMatchingGrammar.
Proof.
  intros Hfw Hnone. split; [|apply could_not_parse_kind].
  unfold when_parse, mbind, M_bind, lift. rewrite Hfw.
  by rewrite for_classes_decline.
Qed.

Lemma when_parse_no_answer_witness :
  when_parse demo_registry "Thing kodi:kodi:familyroom is ONLINE" quiet
  = (Raise (could_not_parse "trigger" "Thing" "Thing kodi:kodi:familyroom is ONLINE"),
     mkWorld [] ["ThingStatusUpdateTrigger"; "ThingStatusChangeTrigger";
                 "ThingEventTrigger"]).
Proof.
  refine (proj1 (when_parse_no_answer demo_registry
    "Thing kodi:kodi:familyroom is ONLINE" "Thing" quiet _ _)).
  - reflexivity.
  - repeat (constructor;
            [let Hd := fresh "Hd" in
             intros Hd; try (vm_compute in Hd; discriminate Hd);
             vm_compute; reflexivity|]).
    constructor.
Defined.

(** The same for [onlyif.parse], on a phrase that is not blank: it returns
    what the first dispatched condition class whose [parse] does not return
    [None] returns, and raises what it raises. *)
Theorem onlyif_parse_first_answer {Item} (registry : Registry Item)
        target fw before cls after r w :
  PyStr.strip target ≠ "" →
  first (PyStr.split (PyStr.strip target)) = Return fw →
  conditionClasses registry = before ++ cls :: after →
  Forall (λ c, dispatched fw c = true → parse c (PyStr.strip target) = Return None)
         before →
  dispatched fw cls = true →
  parse cls (PyStr.strip target) = r →
  r ≠ Return None →
  onlyif_parse registry target w
  = (r, mkWorld (warnings w)
          (invoked w
           ++ map class_name (filter (λ c, dispatched fw c = true) before)
           ++ [class_name cls])).
Proof. apply onlyif_parse_stops. Qed.

Lemma onlyif_parse_first_answer_witness :
  onlyif_parse demo_registry "Time 9:00 to 14:00" quiet
  = (Return (Some (mkDescriptor "core.TimeOfDayCondition"
       (<["startTime" := VStr "9:00"]> {[ "endTime" := VStr "14:00" ]}))),
     mkWorld [] ["TimeOfDayCondition"]).
Proof.
  apply (onlyif_parse_first_answer demo_registry
    "Time 9:00 to 14:00" "Time"
    (take 2 (conditionClasses demo_registry))
    (TimeOfDayCondition_class)
    []).
  - discriminate.
  - reflexivity.
  - reflexivity.
  - repeat (constructor;
            [let Hd := fresh "Hd" in
             intros Hd; try (vm_compute in Hd; discriminate Hd);
             vm_compute; reflexivity|]).
    constructor.
  - reflexivity.
  - vm_compute. reflexivity.
  - discriminate.
Defined.

(** When every dispatched condition class returns [None], [onlyif.parse]
    on a phrase that is not blank has called each of them and raises its
    could-not-parse error. *)
Theorem onlyif_parse_no_answer {Item} (registry : Registry Item) target fw w :
  PyStr.strip target ≠ "" →
  first (PyStr.split (PyStr.strip target)) = Return fw →
  Forall (λ c, dispatched fw c = true → parse c (PyStr.strip target) = Return None)
         (conditionClasses registry) →
  onlyif_parse registry target w
  = (Raise (could_not_parse "condition" fw (PyStr.strip target)),
     mkWorld (warnings w)
       (invoked w
        ++ map class_name
             (filter (λ c, dispatched fw c = true) (conditionClasses registry))))
  ∧ failure_kind (could_not_parse "condition" fw (PyStr.strip target))
    = Some NoMatchingGrammar.
Proof.
  intros Hne Hfw Hnone. split; [|apply could_not_parse_kind].
  unfold onlyif_parse, mbind, M_bind, lift.
  destruct (PyStr.strip target) as [|a s] eqn:Hs; [done|].
  cbn [PyStr.len String.length Nat.leb]. rewrite Hfw.
  by rewrite for_classes_decline.
Qed.

Lemma onlyif_parse_no_answer_witness :
  onlyif_parse demo_registry "Time flies" quiet
  = (Raise (could_not_parse "condition" "Time" "Time flies"),
     mkWorld [] ["TimeOfDayCondition"]).
Proof.
  refine (proj1 (onlyif_parse_no_answer demo_registry "Time flies" "Time" quiet
                   _ _ _)).
  - discriminate.
  - reflexivity.
  - repeat (constructor;
            [let Hd := fresh "Hd" in
             intros Hd; try (vm_compute in Hd; discriminate Hd);
             vm_compute; reflexivity|]).
    constructor.
Defined.

(** *** Blanks around a phrase *)

Lemma lstrip_chars_app_blank b l :
  Forall (λ c, PyStr.is_space c = true) b →
  PyStr.lstrip_chars (b ++ l) = PyStr.lstrip_chars l.
Proof. induction 1 as [|c b Hc _ IH]; [done|]. cbn. by rewrite Hc. Qed.

Lemma lstrip_chars_blank_app l b :
  Forall (λ c, PyStr.is_space c = true) b →
  PyStr.lstrip_chars (l ++ b)
  = match PyStr.lstrip_chars l with
    | [] => []
    | l' => l' ++ b
    end.
Proof.
  intros Hb. induction l as [|c l IH]; cbn.
  - by apply lstrip_blank.
  - by destruct (PyStr.is_space c).
Qed.

Lemma strip_chars_blanks b1 l b2 :
  Forall (λ c, PyStr.is_space c = true) b1 →
  Forall (λ c, PyStr.is_space c = true) b2 →
  PyStr.strip_chars (b1 ++ l ++ b2) = PyStr.strip_chars l.
Proof.
  intros H1 H2. unfold PyStr.strip_chars.
  rewrite (lstrip_chars_app_blank b1) by done.
  rewrite (lstrip_chars_blank_app l b2) by done.
  destruct (PyStr.lstrip_chars l) as [|x l'] eqn:Hl; [done|].
  rewrite rev_app_distr. rewrite lstrip_chars_app_blank; [done|].
  by apply List.Forall_rev.
Qed.

Lemma strip_blanks before target after :
  Forall (λ c, PyStr.is_space c = true) (PyStr.chars before) →
  Forall (λ c, PyStr.is_space c = true) (PyStr.chars after) →
  PyStr.strip (before +:+ target +:+ after) = PyStr.strip target.
Proof.
  intros H1 H2. unfold PyStr.strip. rewrite !chars_app.
  by rewrite strip_chars_blanks.
Qed.

(** Blanks before and after a phrase play no part: [when.parse] and
    [onlyif.parse] do on the phrase with blanks around it what they do on
    the phrase. *)
Theorem surrounding_blanks_are_ignored {Item} (registry : Registry Item)
        before target after w :
  Forall (λ c, PyStr.is_space c = true) (PyStr.chars before) →
  Forall (λ c, PyStr.is_space c = true) (PyStr.chars after) →
  when_parse registry (before +:+ target +:+ after) w
  = when_parse registry target w
  ∧ onlyif_parse registry (before +:+ target +:+ after) w
    = onlyif_parse registry target w.
Proof.
  intros H1 H2. unfold when_parse, onlyif_parse.
  by rewrite (strip_blanks before target after H1 H2).
Qed.

Lemma surrounding_blanks_are_ignored_witness :
  when_parse demo_registry ("  " +:+ "Time is noon" +:+ " ") quiet
  = when_parse demo_registry "Time is noon" quiet
  ∧ onlyif_parse demo_registry ("  " +:+ "Time is noon" +:+ " ") quiet
    = onlyif_parse demo_registry "Time is noon" quiet.
Proof.
  apply (surrounding_blanks_are_ignored demo_registry "  " "Time is noon" " " quiet);
    repeat constructor.
Defined.

(** *** The patterns of the validator *)

Lemma or_else_some {A} (a b : option A) :
  is_Some a → is_Some (match a with Some c => Some c | None => b end).
Proof. by intros [x ->]. Qed.

Lemma or_else_some_r {A} (a b : option A) :
  is_Some b → is_Some (match a with Some c => Some c | None => b end).
Proof. by destruct a. Qed.

(** A repetition that has gone round often enough ends well when the rest
    of the pattern does. *)
Lemma rep_loop_some body lo hi k fuel count pos s c :
  (lo ≤ count)%nat →
  is_Some (k pos s c) →
  is_Some (rep_loop body lo hi k (S fuel) count pos s c).
Proof.
  intros Hlo Hk. cbn [rep_loop].
  apply Nat.leb_le in Hlo. rewrite Hlo. by apply or_else_some_r.
Qed.

(** One round of a repetition of a class. *)
Lemma rep_loop_class_step body p lo hi k fuel count pos x s c :
  class_body p body →
  p x = true →
  rep_loop body lo hi k (S fuel) count pos (x :: s) c
  = match (if match hi with Some h => (count <? h)%nat | None => true end
           then rep_loop body lo hi k fuel (S count) (S pos) s c
           else None) with
    | Some c' => Some c'
    | None => if (lo <=? count)%nat then k pos (x :: s) c else None
    end.
Proof.
  intros Hbody Hx. cbn [rep_loop]. rewrite Hbody, Hx.
  assert ((length s <? length (x :: s))%nat = true) as ->
    by (apply Nat.ltb_lt; cbn; lia).
  done.
Qed.

Lemma rep_loop_class_stop body p lo hi k fuel count pos s c :
  class_body p body →
  not_at p s →
  rep_loop body lo hi k (S fuel) count pos s c
  = if (lo <=? count)%nat then k pos s c else None.
Proof.
  intros Hbody Hs. cbn [rep_loop]. rewrite Hbody.
  destruct s as [|y s]; [|cbn in Hs; rewrite Hs];
    by destruct (match hi with Some h => (count <? h)%nat | None => true end).
Qed.

Section Engine.
Variable icase : bool.
Implicit Types (r : regex) (k : cont) (c : captures) (s w : list ascii).

Lemma class_body_Cls p : class_body p (run icase (Cls p)).
Proof. by intros pos s c k. Qed.

(** A literal text is read off the start of the input. *)
Lemma run_chars w pos s c k :
  run icase (seq (map Chr w)) pos s c k
  = if starts_with icase w s
    then k (pos + length w)%nat (drop (length w) s) c
    else None.
Proof.
  revert pos s. induction w as [|a w IH]; intros pos s.
  - cbn. by rewrite Nat.add_0_r.
  - cbn [map seq foldr run starts_with]. destruct s as [|x s]; [done|].
    destruct (chr_eq icase a x); [|done]. cbn [andb length drop].
    fold (seq (map Chr w)). rewrite IH. by rewrite Nat.add_succ_r.
Qed.

Lemma run_lit text pos s c k :
  run icase (lit text) pos s c k
  = if starts_with icase (PyStr.chars text) s
    then k (pos + length (PyStr.chars text))%nat
           (drop (length (PyStr.chars text)) s) c
    else None.
Proof. apply run_chars. Qed.

(** [\d+] and [\w{3}] where the input does not begin with them. *)
Lemma run_plus_class_none p pos s c k :
  not_at p s → run icase (plus (Cls p)) pos s c k = None.
Proof.
  intros Hs. unfold plus. cbn [run].
  by rewrite (rep_loop_class_stop _ p) by (done || apply class_body_Cls).
Qed.

End Engine.

Section Fields.
Variable icase : bool.
Implicit Types (k : cont) (c : captures) (s : list ascii).

Lemma times_3_word_none pos s c k :
  three_words s = false → run icase (times 3 word) pos s c k = None.
Proof.
  intros H. unfold times, word. cbn [run].
  pose proof (class_body_Cls icase PyStr.is_word) as Hbody.
  destruct s as [|x s]; [by rewrite (rep_loop_class_stop _ PyStr.is_word)|].
  destruct (PyStr.is_word x) eqn:Hx;
    [|by rewrite (rep_loop_class_stop _ PyStr.is_word)].
  rewrite (rep_loop_class_step _ PyStr.is_word) by done. cbn [Nat.ltb Nat.leb length].
  destruct s as [|y s]; [by rewrite (rep_loop_class_stop _ PyStr.is_word)|].
  destruct (PyStr.is_word y) eqn:Hy;
    [|by rewrite (rep_loop_class_stop _ PyStr.is_word)].
  rewrite (rep_loop_class_step _ PyStr.is_word) by done. cbn [Nat.ltb Nat.leb length].
  destruct s as [|z s]; [by rewrite (rep_loop_class_stop _ PyStr.is_word)|].
  destruct (PyStr.is_word z) eqn:Hz;
    [|by rewrite (rep_loop_class_stop _ PyStr.is_word)].
  cbn in H. by rewrite Hx, Hy, Hz in H.
Qed.

Lemma times_3_word_some pos s c k :
  (∀ pos s c, is_Some (k pos s c)) →
  three_words s = true → is_Some (run icase (times 3 word) pos s c k).
Proof.
  intros Hk H. destruct s as [|x [|y [|z s]]]; try done.
  cbn in H. apply andb_prop in H as [[Hx Hy]%andb_prop Hz].
  unfold times, word. cbn [run].
  pose proof (class_body_Cls icase PyStr.is_word) as Hbody.
  do 3 (rewrite (rep_loop_class_step _ PyStr.is_word) by done;
        cbn [Nat.ltb Nat.leb length]; apply or_else_some).
  by apply rep_loop_some.
Qed.

Lemma plus_digit_some pos x s c k :
  (∀ pos s c, is_Some (k pos s c)) →
  PyStr.is_digit x = true → is_Some (run icase (plus digit) pos (x :: s) c k).
Proof.
  intros Hk Hx. unfold plus, digit. cbn [run].
  rewrite (rep_loop_class_step _ PyStr.is_digit)
    by (done || apply class_body_Cls).
  cbn [length]. apply or_else_some. apply rep_loop_some; [lia|done].
Qed.

Lemma number_or_name_none pos s c k :
  number_or_name_at s = false → run icase number_or_name pos s c k = None.
Proof.
  intros [Hd Hw]%orb_false_elim. unfold number_or_name. cbn [alt run].
  rewrite (times_3_word_none _ _ _ _ Hw).
  unfold digit. rewrite run_plus_class_none; [done|]. by destruct s.
Qed.

Lemma number_or_name_some pos s c k :
  (∀ pos s c, is_Some (k pos s c)) →
  number_or_name_at s = true → is_Some (run icase number_or_name pos s c k).
Proof.
  intros Hk [Hd|Hw]%orb_prop; unfold number_or_name; cbn [alt run].
  - destruct s as [|x s]; [done|]. apply or_else_some. by apply plus_digit_some.
  - apply or_else_some_r. by apply times_3_word_some.
Qed.

End Fields.

Lemma chr_eq_exact a x : chr_eq false a x = bool_decide (a = x).
Proof. reflexivity. Qed.

(** The field pattern matches when the field reads as one. *)
Lemma cron_field_matches field :
  reads_as_field field = true → is_Some (re_match cron_field_re field).
Proof.
  unfold reads_as_field, re_match.
  destruct (PyStr.chars field) as [|x rest]; [done|].
  change (ignorecase cron_field_re) with false.
  intros H.
  enough (is_Some (run false (expr cron_field_re) 0 (x :: rest) []
                       (λ _ _ c, Some c))) as [c ->] by (by eexists).
  revert H.
  cbn [expr cron_field_re ignorecase alt seq foldr].
  intros [[Hq|Hstar]%orb_prop|Hnn]%orb_prop.
  - apply bool_decide_eq_true in Hq as ->.
    cbn [run]. apply or_else_some. rewrite run_lit. by eexists.
  - apply bool_decide_eq_true in Hstar as ->.
    cbn [run]. apply or_else_some_r, or_else_some, or_else_some.
    rewrite run_lit. cbn [PyStr.chars list_ascii_of_string starts_with].
    rewrite chr_eq_exact, bool_decide_eq_true_2 by done. cbn [andb].
    unfold opt. cbn [run]. apply rep_loop_some; [lia|]. by eexists.
  - cbn [run]. do 3 apply or_else_some_r.
    unfold star. cbn [run]. apply rep_loop_some; [lia|].
    apply number_or_name_some; [|done]. intros pos s c. by eexists.
Qed.

Lemma cron_field_fails field :
  reads_as_field field = false → re_match cron_field_re field = None.
Proof.
  unfold reads_as_field, re_match.
  destruct (PyStr.chars field) as [|x rest]; [done|].
  change (ignorecase cron_field_re) with false.
  intros [[Hq Hstar]%orb_false_elim Hnn]%orb_false_elim.
  apply bool_decide_eq_false in Hq, Hstar.
  enough (run false (expr cron_field_re) 0 (x :: rest) []
              (λ _ _ c, Some c) = None) as -> by done.
  cbn [expr cron_field_re ignorecase alt seq foldr run].
  rewrite !number_or_name_none by done.
  rewrite !run_lit. cbn [PyStr.chars list_ascii_of_string starts_with].
  rewrite !chr_eq_exact.
  rewrite (bool_decide_eq_false_2 ("?"%char = x)) by congruence.
  rewrite (bool_decide_eq_false_2 ("*"%char = x)) by congruence.
  cbn [andb].
  unfold digit at 1. rewrite run_plus_class_none.
  2: { cbn. apply orb_false_elim in Hnn as [Hd _]. exact Hd. }
  unfold star. cbn [run rep_loop Nat.leb].
  by rewrite !number_or_name_none by done.
Qed.

Lemma cron_field_reads field :
  bool_decide (is_Some (re_match cron_field_re field)) = reads_as_field field.
Proof.
  destruct (reads_as_field field) eqn:H.
  - apply bool_decide_eq_true_2. by apply cron_field_matches.
  - apply bool_decide_eq_false_2. rewrite (cron_field_fails _ H). by intros [? ?].
Qed.

Lemma starts_with_prefix w s :
  starts_with false (PyStr.chars w) (PyStr.chars s) = String.prefix w s.
Proof.
  revert s. induction w as [|a w IH]; intros s; [by destruct s|].
  destruct s as [|x s]; [done|].
  cbn [PyStr.chars list_ascii_of_string starts_with String.prefix].
  fold (PyStr.chars w) (PyStr.chars s). rewrite IH, chr_eq_exact.
  destruct (ascii_dec a x) as [->|Hne].
  - by rewrite bool_decide_eq_true_2.
  - by rewrite bool_decide_eq_false_2.
Qed.

Lemma starts_with_app icase w1 w2 s :
  starts_with icase (w1 ++ w2) s
  = starts_with icase w1 s && starts_with icase w2 (drop (length w1) s).
Proof.
  revert s. induction w1 as [|a w1 IH]; intros s; [done|].
  destruct s as [|x s]; cbn [app starts_with length drop]; [done|].
  rewrite IH. by destruct (chr_eq icase a x).
Qed.

Lemma named_schedule_reads text :
  bool_decide (is_Some (re_match named_schedule_re text))
  = existsb (λ name, PyStr.startswith text ("@" +:+ name)) named_schedules.
Proof.
  unfold PyStr.startswith, named_schedules. cbn [existsb].
  rewrite <- !starts_with_prefix, !chars_app, !starts_with_app.
  unfold re_match. change (ignorecase named_schedule_re) with false.
  cbn [expr named_schedule_re alt seq foldr run].
  rewrite !run_lit.
  destruct (starts_with false (PyStr.chars "@") (PyStr.chars text));
    [|reflexivity].
  cbn [andb].
  repeat match goal with
         | |- context [starts_with false ?w ?l] =>
             destruct (starts_with false w l) eqn:?
         end; cbn [orb]; try done;
    by apply bool_decide_eq_true_2.
Qed.

Lemma forallb_same {A} (f g : A → bool) l :
  (∀ x, f x = g x) → forallb f l = forallb g l.
Proof. intros H. induction l as [|x l IH]; [done|]. cbn. by rewrite H, IH. Qed.

(** The fallback validator decides by the beginnings alone: an expression
    that begins with [@] is valid when it begins with one of the seven
    named schedules, whatever follows the name; any other is valid when it
    has six or seven fields and each of them begins with [?], with a star,
    with a digit or with three word characters, whatever follows in the
    field.  With another number of fields the answer is [None]. *)
Theorem validator_reads_the_beginnings text :
  isValidExpression (VStr text)
  = Return
      (if PyStr.startswith (PyStr.strip text) "@"
       then VBool (existsb (λ name, PyStr.startswith (PyStr.strip text) ("@" +:+ name))
                           named_schedules)
       else if (6 <=? length (PyStr.split (PyStr.strip text)))%nat
               && (length (PyStr.split (PyStr.strip text)) <=? 7)%nat
            then VBool (forallb reads_as_field (PyStr.split (PyStr.strip text)))
            else VNone).
Proof.
  unfold isValidExpression. cbn [as_str mbind result_bind].
  destruct (PyStr.startswith _ "@").
  - by rewrite named_schedule_reads.
  - destruct (_ && _); [|done].
    rewrite (forallb_same _ reads_as_field) by apply cron_field_reads.
    by destruct (forallb _ _).
Qed.

(** *** The failures of the parsers *)

Section CapturesOne.
Variables (icase : bool) (l : list nat).

Lemma one_captured_cons j t c : one_captured l c → one_captured l ((j, t) :: c).
Proof. intros (i & Hi & Hc). exists i. split; [done|]. by apply captured_cons. Qed.

Lemma rep_loop_captures_one r lo hi k res :
  (∀ pos s c k res, run icase r pos s c k = Some res →
                    hands_on_one l (always_captures_one l r) c k res) →
  ∀ fuel count pos s c,
    ((1 ≤ count)%nat → always_captures_one l r = true → one_captured l c) →
    rep_loop (run icase r) lo hi k fuel count pos s c = Some res →
    hands_on_one l ((1 <=? lo)%nat && always_captures_one l r) c k res.
Proof.
  intros IHr fuel. induction fuel as [|fuel IH]; intros count pos s c Hinv; [done|].
  cbn [rep_loop].
  destruct (if match hi with Some h => (count <? h)%nat | None => true end
            then _ else None) as [res'|] eqn:Hmore.
  - intros [= ->].
    destruct (match hi with Some h => (count <? h)%nat | None => true end);
      [|done].
    apply IHr in Hmore as (pos' & s' & c' & Hk & Hmono & Hsure).
    destruct (length s' <? length s)%nat; [|done].
    apply IH in Hk as (pos'' & s'' & c'' & Hk & Hmono' & Hsure'); [|auto].
    exists pos'', s'', c''. split_and!; [done|auto|done].
  - destruct (lo <=? count)%nat eqn:Hlo; [|done]. intros Hk.
    exists pos, s, c. split_and!; [done|done|].
    intros [Hlo' Hr]%andb_true_iff. apply Hinv; [|done].
    apply Nat.leb_le in Hlo, Hlo'. lia.
Qed.

Lemma run_captures_one r :
  ∀ pos s c k res,
    run icase r pos s c k = Some res →
    hands_on_one l (always_captures_one l r) c k res.
Proof.
  induction r as [|a|p|r1 IH1 r2 IH2|r1 IH1 r2 IH2|r IH lo hi|j r IH| |];
    intros pos s c k res; cbn [run always_captures_one].
  - intros Hk. by exists pos, s, c.
  - destruct s as [|x s]; [done|]. destruct (chr_eq _ _ _); [|done].
    intros Hk. by exists (S pos), s, c.
  - destruct s as [|x s]; [done|]. destruct (p x); [|done].
    intros Hk. by exists (S pos), s, c.
  - intros (pos1 & s1 & c1 & H2 & Hmono1 & Hsure1)%IH1.
    apply IH2 in H2 as (pos2 & s2 & c2 & Hk & Hmono2 & Hsure2).
    exists pos2, s2, c2. split_and!; [done|auto|].
    intros [H|H]%orb_true_iff; [|auto].
    destruct (Hsure1 H) as (i & Hi & Hc). exists i. auto.
  - destruct (run icase r1 pos s c k) as [res'|] eqn:H1.
    + intros [= ->]. apply IH1 in H1 as (pos' & s' & c' & Hk & Hmono & Hsure).
      exists pos', s', c'. split_and!; [done..|].
      intros [? _]%andb_true_iff. auto.
    + intros (pos' & s' & c' & Hk & Hmono & Hsure)%IH2.
      exists pos', s', c'. split_and!; [done..|].
      intros [_ ?]%andb_true_iff. auto.
  - apply rep_loop_captures_one; [done|]. lia.
  - intros (pos' & s' & c' & Hk & Hmono & Hsure)%IH.
    eexists pos', s', _. split_and!; [done|..].
    + intros j' Hj'. apply captured_cons. auto.
    + intros [Hj%bool_decide_eq_true|H]%orb_true_iff.
      * exists j. split; [done|]. apply captured_here.
      * apply one_captured_cons. auto.
  - destruct (pos =? 0)%nat; [|done]. intros Hk. by exists pos, s, c.
  - destruct (at_eol s); [|done]. intros Hk. by exists pos, s, c.
Qed.
End CapturesOne.

(** One of the groups that every match of the pattern sets one of is set
    in a match object. *)
Lemma one_group_is_set p s m l :
  re_match p s = Some m →
  always_captures_one l (expr p) = true →
  ∃ i, i ∈ l ∧ is_Some (text_at m i).
Proof.
  unfold re_match. intros Hm Hsure.
  destruct (run _ _ _ _ _ _) as [res|] eqn:Hrun; [|done].
  injection Hm as <-.
  apply (run_captures_one _ l) in Hrun as (pos' & s' & c' & [= ->] & _ & Hc).
  exact (Hc Hsure).
Qed.

Lemma match_names p s m : re_match p s = Some m → names m = groupindex p.
Proof.
  unfold re_match. destruct (run _ _ _ _ _ _); [|done]. by intros [= <-].
Qed.

Lemma no_None_any_None (d : gmap string value) :
  (∀ k, d !! k ≠ Some VNone) → any_None d = false.
Proof.
  intros H. unfold any_None. apply bool_decide_eq_false_2.
  intros ([k v] & Hkv%elem_of_map_to_list & Hv)%Exists_exists.
  cbn in Hv. subst v. by apply (H k).
Qed.

Lemma isValidExpression_returns text : ∃ v, isValidExpression (VStr text) = Return v.
Proof.
  unfold isValidExpression. cbn [as_str mbind result_bind].
  repeat match goal with |- context [if ?b then _ else _] => destruct b end;
    by eexists.
Qed.

(** [CronTrigger.parse] never raises: the expression it validates is a
    string, for one of the two groups of its pattern is set in a match. *)
Lemma CronTrigger_parse_returns target :
  ∃ found, CronTrigger_parse target = Return found.
Proof.
  unfold CronTrigger_parse.
  assert (∃ text,
    match re_match CronTrigger_re target with
    | Some m =>
        if is_None (group m "namedInstant") then group m "cronExpression"
        else if py_eq (group_at m 2) (VStr "midnight") then VStr "0 0 0 * * ?"
        else VStr "0 0 12 * * ?"
    | None => VStr target
    end = VStr text) as [text ->].
  { destruct (re_match CronTrigger_re target) as [m|] eqn:Hm; [|by eexists].
    destruct (one_group_is_set _ _ m [1; 2]%nat Hm eq_refl) as (i & Hi & [t Ht]).
    unfold group, text_of. rewrite (match_names _ _ _ Hm).
    cbn [groupindex CronTrigger_re index_of String.eqb Ascii.eqb Bool.eqb].
    apply elem_of_cons in Hi as [->|Hi].
    - rewrite Ht. cbn [from_option].
      repeat match goal with |- context [if ?b then _ else _] => destruct b end;
        by eexists.
    - apply list_elem_of_singleton in Hi as ->. rewrite Ht. cbn [from_option is_None].
      destruct (py_eq _ _); by eexists. }
  destruct (isValidExpression_returns text) as [v ->]. cbn [mbind result_bind].
  destruct (truthy v); by eexists.
Qed.

Lemma DirectoryEventTrigger_parse_returns target :
  ∃ found, DirectoryEventTrigger_parse target = Return found.
Proof.
  unfold DirectoryEventTrigger_parse.
  destruct (re_match DirectoryEventTrigger_re target) as [m|] eqn:Hm;
    [|by eexists].
  destruct (group_is_set _ _ m "options" _ Hm eq_refl eq_refl) as [text ->].
  cbn [as_str mbind result_bind]. by eexists.
Qed.

Lemma TimeOfDayCondition_parse_returns target :
  ∃ found, TimeOfDayCondition_parse target = Return found.
Proof.
  unfold TimeOfDayCondition_parse.
  destruct (re_match TimeOfDayCondition_re target) as [m|] eqn:Hm;
    [|by eexists].
  destruct (group_is_set _ _ m "startTime" _ Hm eq_refl eq_refl) as [a ->].
  destruct (group_is_set _ _ m "endTime" _ Hm eq_refl eq_refl) as [b ->].
  unfold TimeOfDayCondition. rewrite no_None_any_None; [by eexists|].
  keeps.
Qed.

(** [EphemerisCondition.parse] raises for a negated custom day type and
    for nothing else: the day type is set in every match, and so is one of
    the groups that give the offset. *)
Lemma EphemerisCondition_parse_raises target e :
  EphemerisCondition_parse target = Raise e →
  ∃ daytype,
    e = ValueError [VStr "Unable to negate custom daytype: {}"; VStr daytype].
Proof.
  unfold EphemerisCondition_parse.
  destruct (re_match EphemerisCondition_re target) as [m|] eqn:Hm; [|done].
  destruct (group_is_set _ _ m "daytype" _ Hm eq_refl eq_refl) as [daytype Hd].
  rewrite Hd. cbn [is_None].
  assert (∃ offset, ephemeris_offset m = Return offset) as [offset ->].
  { destruct (one_group_is_set _ _ m [2; 3; 4; 7]%nat Hm eq_refl)
      as (i & Hi & [t Ht]).
    unfold ephemeris_offset, group, text_of. rewrite (match_names _ _ _ Hm).
    cbn [groupindex EphemerisCondition_re index_of String.eqb Ascii.eqb Bool.eqb].
    repeat (apply elem_of_cons in Hi as [->|Hi]);
      [..|by apply elem_of_nil in Hi]; rewrite Ht; cbn [from_option is_None negb];
      repeat match goal with |- context [if ?b then _ else _] => destruct b end;
      by eexists. }
  cbn [mbind result_bind]. unfold ephemeris_daytype. rewrite Hd.
  repeat match goal with |- context [if ?b then _ else _] => destruct b end;
    cbn [mbind result_bind]; try done.
  intros [= <-]. by exists daytype.
Qed.

Section ClassFailures.
Context {Item : Type} (registry : Registry Item).

Lemma groupMembers_of_raises item subItems e :
  groupMembers_of registry item subItems = Raise e →
  ∃ method, e = AttributeError ("object has no attribute '" +:+ method +:+ "'").
Proof.
  unfold groupMembers_of. destruct (py_eq _ _).
  - destruct (getMembers _ _); [done|]. intros [= <-]. by exists "getMembers".
  - destruct (getAllMembers _ _); [done|]. intros [= <-]. by exists "getAllMembers".
Qed.

(** What a trigger class can raise: the error of a name that the registry
    does not know and, for a phrase about the members of an item that is
    no group, the [AttributeError] of the missing method. *)
Lemma trigger_class_raises cls target e :
  cls ∈ triggerClasses registry →
  parse cls target = Raise e →
  (∃ entity name, e = invalid_reference entity name)
  ∨ (∃ method, e = AttributeError ("object has no attribute '" +:+ method +:+ "'")).
Proof.
  intros Hcls. unfold triggerClasses in Hcls.
  repeat (apply elem_of_cons in Hcls as [->|Hcls]);
    [..|by apply elem_of_nil in Hcls]; cbn [parse StartupTrigger_class
      CronTrigger_class DateTimeTrigger_class ItemStateUpdateTrigger_class
      ItemStateChangeTrigger_class ChannelEventTrigger_class ItemEventTrigger_class
      ItemCommandTrigger_class ThingStatusUpdateTrigger_class
      ThingStatusChangeTrigger_class ThingEventTrigger_class
      DirectoryEventTrigger_class].
  - unfold StartupTrigger_parse. by destruct (re_match _ _).
  - intros H. destruct (CronTrigger_parse_returns target) as [found Hf]. congruence.
  - unfold DateTimeTrigger_parse. destruct (re_match _ _) as [m|]; [|done].
    destruct (getItem _ _); [done|]. intros [= <-]. left. by exists an_item, (group m "itemName").
  - unfold ItemStateUpdateTrigger_parse. destruct (re_match _ _) as [m|]; [|done].
    destruct (getItem _ _) as [item|];
      [|intros [= <-]; left; by exists an_item, (group m "itemName")].
    destruct (is_None _); [done|].
    destruct (groupMembers_of _ _ _) eqn:Hg; [done|].
    intros [= <-]. right. by eapply groupMembers_of_raises.
  - unfold ItemStateChangeTrigger_parse. destruct (re_match _ _) as [m|]; [|done].
    destruct (getItem _ _) as [item|];
      [|intros [= <-]; left; by exists an_item, (group m "itemName")].
    destruct (is_None _); [done|].
    destruct (groupMembers_of _ _ _) eqn:Hg; [done|].
    intros [= <-]. right. by eapply groupMembers_of_raises.
  - unfold ChannelEventTrigger_parse. destruct (re_match _ _) as [m|]; [|done].
    destruct (getChannel _ _); [done|]. intros [= <-]. left.
    by exists a_channel_uid, (group m "channelUID").
  - unfold ItemEventTrigger_parse. by destruct (re_match _ _).
  - unfold ItemCommandTrigger_parse. destruct (re_match _ _) as [m|]; [|done].
    destruct (getItem _ _) as [item|];
      [|intros [= <-]; left; by exists an_item, (group m "itemName")].
    destruct (is_None _); [done|].
    destruct (groupMembers_of _ _ _) eqn:Hg; [done|].
    intros [= <-]. right. by eapply groupMembers_of_raises.
  - unfold ThingStatusUpdateTrigger_parse. destruct (re_match _ _) as [m|]; [|done].
    destruct (getThing _ _); [done|]. intros [= <-]. left.
    by exists a_thing_uid, (group m "thingUID").
  - unfold ThingStatusChangeTrigger_parse. destruct (re_match _ _) as [m|]; [|done].
    destruct (getThing _ _); [done|]. intros [= <-]. left.
    by exists a_thing_uid, (group m "thingUID").
  - unfold ThingEventTrigger_parse. by destruct (re_match _ _).
  - intros H. destruct (DirectoryEventTrigger_parse_returns target) as [found Hf].
    congruence.
Qed.

End ClassFailures.

(** What the loop raises, a dispatched class has raised. *)
Lemma for_classes_raises {A} fw target (classes : list (Class A)) w e w' :
  for_classes fw target classes w = (Raise e, w') →
  ∃ cls, cls ∈ classes ∧ dispatched fw cls = true ∧ parse cls target = Raise e.
Proof.
  revert w. induction classes as [|cls rest IH]; intros w; [done|].
  cbn [for_classes]. fold (dispatched fw cls).
  destruct (dispatched fw cls) eqn:Hd.
  - unfold call_parse, calling, lift, mbind, M_bind.
    destruct (parse cls target) as [[x|]|e'] eqn:Hp; [done| |].
    + intros (c & Hc & H)%IH. exists c. split; [by apply elem_of_cons; right|done].
    + intros [= <- <-]. exists cls. split; [by apply elem_of_cons; left|done].
  - intros (c & Hc & H)%IH. exists c. split; [by apply elem_of_cons; right|done].
Qed.

(** [strip] and [split] on phrases that are not blank. *)
Lemma lstrip_chars_nil l :
  PyStr.lstrip_chars l = [] → Forall (λ c, PyStr.is_space c = true) l.
Proof.
  induction l as [|x l IH]; [by constructor|]. cbn.
  destruct (PyStr.is_space x) eqn:Hx; [|done]. intros H. constructor; auto.
Qed.

Lemma lstrip_chars_head l x l' :
  PyStr.lstrip_chars l = x :: l' → PyStr.is_space x = false.
Proof.
  induction l as [|y l IH]; [done|]. cbn.
  destruct (PyStr.is_space y) eqn:Hy; [done|]. by intros [= <- _].
Qed.

Lemma lstrip_chars_snoc l x :
  PyStr.is_space x = false →
  ∃ l', PyStr.lstrip_chars (l ++ [x]) = l' ++ [x].
Proof.
  intros Hx. induction l as [|y l [l' IH]]; cbn.
  - rewrite Hx. by exists [].
  - destruct (PyStr.is_space y); [by exists l'|]. by exists (y :: l).
Qed.

(** The result of [strip] is empty, for a blank string, or it begins and
    ends with a character that is not blank. *)
Lemma strip_chars_ends l :
  (PyStr.strip_chars l = [] ∧ Forall (λ c, PyStr.is_space c = true) l)
  ∨ ∃ a z, head (PyStr.strip_chars l) = Some a ∧ last (PyStr.strip_chars l) = Some z
           ∧ PyStr.is_space a = false ∧ PyStr.is_space z = false.
Proof.
  unfold PyStr.strip_chars.
  destruct (PyStr.lstrip_chars l) as [|a l1] eqn:Hl.
  - left. split; [done|]. by apply lstrip_chars_nil.
  - right. pose proof (lstrip_chars_head _ _ _ Hl) as Ha.
    cbn [rev]. destruct (lstrip_chars_snoc (rev l1) a Ha) as [l2 H2].
    rewrite H2. destruct l2 as [|z l2].
    + exists a, a. by split_and!.
    + pose proof (lstrip_chars_head _ _ _ H2) as Hz.
      exists a, z. rewrite rev_unit. cbn [rev head]. split_and!; [done| |done..].
      apply (last_snoc z (a :: rev l2)).
Qed.

Lemma split_chars_cur cur l : cur ≠ [] → PyStr.split_chars cur l ≠ [].
Proof.
  revert cur. induction l as [|x l IH]; intros cur Hcur; cbn.
  - by destruct cur.
  - destruct (PyStr.is_space x); [by destruct cur|]. by apply IH.
Qed.

Lemma split_chars_head x l :
  PyStr.is_space x = false → PyStr.split_chars [] (x :: l) ≠ [].
Proof. intros Hx. cbn. rewrite Hx. by apply split_chars_cur. Qed.

(** A phrase either is blank, and [strip] leaves nothing of it, or it has
    a first word, and what [strip] leaves of it ends with a character that
    is not blank. *)
Lemma phrase_cases target :
  (PyStr.strip target = "" ∧ Forall (λ c, PyStr.is_space c = true) (PyStr.chars target))
  ∨ ∃ fw z, first (PyStr.split (PyStr.strip target)) = Return fw
            ∧ last (PyStr.chars (PyStr.strip target)) = Some z
            ∧ PyStr.is_space z = false.
Proof.
  unfold PyStr.strip, PyStr.split, PyStr.chars, PyStr.str.
  rewrite list_ascii_of_string_of_list_ascii.
  destruct (strip_chars_ends (list_ascii_of_string target))
    as [[-> Hb]|(a & z & Ha & Hz & Hsa & Hsz)]; [by left|right].
  destruct (PyStr.strip_chars _) as [|x l]; [done|]. injection Ha as ->.
  pose proof (split_chars_head a l Hsa) as Hs.
  destruct (PyStr.split_chars [] (a :: l)) as [|fw ws]; [done|].
  by exists fw, z.
Qed.

(** What [when.parse] raises: the [IndexError] of a blank phrase, its own
    could-not-parse error, the error of a name the registry does not know
    and the [AttributeError] of an item that is asked for its members and
    is no group.  It raises nothing else. *)
Theorem what_when_parse_raises {Item} (registry : Registry Item) target w e w' :
  when_parse registry target w = (Raise e, w') →
  (e = IndexError "list index out of range"
   ∧ Forall (λ c, PyStr.is_space c = true) (PyStr.chars target))
  ∨ (∃ fw, e = could_not_parse "trigger" fw (PyStr.strip target))
  ∨ (∃ entity name, e = invalid_reference entity name)
  ∨ (∃ method, e = AttributeError ("object has no attribute '" +:+ method +:+ "'")).
Proof.
  unfold when_parse, mbind, M_bind, lift.
  destruct (phrase_cases target) as [[-> Hb]|(fw & z & -> & _)].
  { intros [= <- _]. by left. }
  destruct (for_classes _ _ _ w) as [[[x|]|e'] w1] eqn:Hloop; [done| |].
  - intros [= <- _]. right; left. by exists fw.
  - intros [= <- _].
    apply for_classes_raises in Hloop as (cls & Hcls & _ & Hraise).
    right; right. by eapply trigger_class_raises.
Qed.

Lemma what_when_parse_raises_witness :
  (AttributeError "object has no attribute 'getMembers'"
   = IndexError "list index out of range"
   ∧ Forall (λ c, PyStr.is_space c = true) (PyStr.chars "Member of Hall changed"))
  ∨ (∃ fw, AttributeError "object has no attribute 'getMembers'"
           = could_not_parse "trigger" fw (PyStr.strip "Member of Hall changed"))
  ∨ (∃ entity name, AttributeError "object has no attribute 'getMembers'"
                    = invalid_reference entity name)
  ∨ (∃ method, AttributeError "object has no attribute 'getMembers'"
               = AttributeError ("object has no attribute '" +:+ method +:+ "'")).
Proof.
  apply (what_when_parse_raises demo_registry "Member of Hall changed" quiet
           (AttributeError "object has no attribute 'getMembers'")
           (mkWorld [] ["ItemStateUpdateTrigger"; "ItemStateChangeTrigger"])).
  vm_compute. reflexivity.
Defined.

(** The rest of a pattern is only ever given an end of the input. *)
Section Suffix.
Variable icase : bool.

Lemma rep_loop_suffix r lo hi k res :
  (∀ pos s c k res, run icase r pos s c k = Some res →
                    ∃ pos' s' c', k pos' s' c' = Some res ∧ s' `suffix_of` s) →
  ∀ fuel count pos s c,
    rep_loop (run icase r) lo hi k fuel count pos s c = Some res →
    ∃ pos' s' c', k pos' s' c' = Some res ∧ s' `suffix_of` s.
Proof.
  intros IHr fuel. induction fuel as [|fuel IH]; intros count pos s c; [done|].
  cbn [rep_loop].
  destruct (if match hi with Some h => (count <? h)%nat | None => true end
            then _ else None) as [res'|] eqn:Hmore.
  - intros [= ->].
    destruct (match hi with Some h => (count <? h)%nat | None => true end);
      [|done].
    apply IHr in Hmore as (pos' & s' & c' & Hk & Hs).
    destruct (length s' <? length s)%nat; [|done].
    apply IH in Hk as (pos'' & s'' & c'' & Hk & Hs').
    exists pos'', s'', c''. split; [done|]. by etrans.
  - destruct (lo <=? count)%nat; [|done]. intros Hk. by exists pos, s, c.
Qed.

Lemma run_suffix r :
  ∀ pos s c k res,
    run icase r pos s c k = Some res →
    ∃ pos' s' c', k pos' s' c' = Some res ∧ s' `suffix_of` s.
Proof.
  induction r as [|a|p|r1 IH1 r2 IH2|r1 IH1 r2 IH2|r IH lo hi|j r IH| |];
    intros pos s c k res; cbn [run].
  - intros Hk. by exists pos, s, c.
  - destruct s as [|x s]; [done|]. destruct (chr_eq _ _ _); [|done].
    intros Hk. exists (S pos), s, c. split; [done|]. by apply suffix_cons_r.
  - destruct s as [|x s]; [done|]. destruct (p x); [|done].
    intros Hk. exists (S pos), s, c. split; [done|]. by apply suffix_cons_r.
  - intros (pos1 & s1 & c1 & H2 & Hs1)%IH1.
    apply IH2 in H2 as (pos2 & s2 & c2 & Hk & Hs2).
    exists pos2, s2, c2. split; [done|]. by etrans.
  - destruct (run icase r1 pos s c k) as [res'|] eqn:H1.
    + intros [= ->]. by apply IH1 in H1.
    + by intros ?%IH2.
  - by apply rep_loop_suffix.
  - intros (pos' & s' & c' & Hk & Hs)%IH. by eexists pos', s', _.
  - destruct (pos =? 0)%nat; [|done]. intros Hk. by exists pos, s, c.
  - destruct (at_eol s); [|done]. intros Hk. by exists pos, s, c.
Qed.

(** After [p+] the rest of the pattern begins behind a character of [p]. *)
Lemma rep_loop_class_inv p k res :
  ∀ fuel count pos s c,
    rep_loop (run icase (Cls p)) 1 None k fuel count pos s c = Some res →
    ((1 ≤ count)%nat ∧ k pos s c = Some res)
    ∨ ∃ x pos' s', p x = true ∧ (x :: s') `suffix_of` s ∧ k pos' s' c = Some res.
Proof.
  intros fuel. induction fuel as [|fuel IH]; intros count pos s c; [done|].
  cbn [rep_loop run].
  destruct s as [|x s].
  - destruct (1 <=? count)%nat eqn:Hc; [|done]. intros Hk. left.
    split; [by apply Nat.leb_le|done].
  - destruct (p x) eqn:Hx.
    + assert ((length s <? length (x :: s))%nat = true) as ->
        by (apply Nat.ltb_lt; cbn; lia).
      destruct (rep_loop _ _ _ _ fuel _ _ _ _) as [res'|] eqn:Hmore.
      * intros [= ->]. right.
        apply IH in Hmore as [[_ Hk]|(y & pos' & s' & Hy & Hs & Hk)].
        -- by exists x, (S pos), s.
        -- exists y, pos', s'. split_and!; [done| |done]. by apply suffix_cons_r.
      * destruct (1 <=? count)%nat eqn:Hc; [|done]. intros Hk. left.
        split; [by apply Nat.leb_le|done].
    + destruct (1 <=? count)%nat eqn:Hc; [|done]. intros Hk. left.
      split; [by apply Nat.leb_le|done].
Qed.

Lemma run_plus_class_inv p pos s c k res :
  run icase (plus (Cls p)) pos s c k = Some res →
  ∃ x pos' s', p x = true ∧ (x :: s') `suffix_of` s ∧ k pos' s' c = Some res.
Proof.
  unfold plus. cbn [run]. intros [[Hc _]|H]%rep_loop_class_inv; [lia|done].
Qed.

(** A starred group either takes no part in the match or is set. *)
Lemma run_star_inv i g pos s c k res :
  always_captures i g = true →
  run icase (star g) pos s c k = Some res →
  k pos s c = Some res
  ∨ ∃ pos' s' c', k pos' s' c' = Some res ∧ captured i c'.
Proof.
  intros Hg. unfold star. cbn [run rep_loop Nat.leb].
  match goal with
  | |- context [run icase g pos s c ?K] =>
      destruct (run icase g pos s c K) as [res'|] eqn:Hmore
  end; [|by left].
  intros [= ->]. right.
  apply (run_captures icase i g pos s c) in Hmore
    as (pos1 & s1 & c1 & Hk & _ & Hc1).
  specialize (Hc1 Hg).
  destruct (length s1 <? length s)%nat; [|done].
  apply (rep_loop_captures icase i g) in Hk
    as (pos2 & s2 & c2 & Hk & Hmono & _); [|apply run_captures|done].
  exists pos2, s2, c2. auto.
Qed.
End Suffix.

(** The state of an item-state phrase that does not end with a blank is
    set: the pattern has [\s+] before the state, and a match without a
    state would end with it. *)
Lemma state_is_set target m z :
  re_match ItemStateCondition_re target = Some m →
  last (PyStr.chars target) = Some z →
  PyStr.is_space z = false →
  ∃ text, group m "state" = VStr text.
Proof.
  intros Hm Hlast Hz.
  enough (captured 9 (caps m)) as [text Ht].
  { exists text. unfold group, text_of, text_at.
    rewrite (match_names _ _ _ Hm). cbn. by rewrite Ht. }
  revert Hm. unfold re_match.
  destruct (run _ _ _ _ _ _) as [res|] eqn:Hrun; [|done].
  intros [= <-]. cbn [caps]. revert Hrun.
  change (ignorecase ItemStateCondition_re) with true.
  cbn [expr ItemStateCondition_re seq foldr].
  intros Hrun.
  do 6 match type of Hrun with
       | run ?ic (Seq ?r1 ?r2) ?pos ?s ?c ?k = Some _ =>
           apply (run_suffix ic r1 pos s c
                    (λ pos' s' c', run ic r2 pos' s' c' k)) in Hrun
             as (? & ? & ? & Hrun & ?)
       end.
  match type of Hrun with
  | run ?ic (Seq (plus ws) ?r2) ?pos ?s ?c ?k = Some _ =>
      apply (run_plus_class_inv ic PyStr.is_space pos s c
               (λ pos' s' c', run ic r2 pos' s' c' k)) in Hrun
        as (blank & pos' & s' & Hx & Hs & Hrun)
  end.
  match type of Hrun with
  | run ?ic (Seq (star ?g) ?r2) ?pos ?s ?c ?k = Some _ =>
      apply (run_star_inv ic 9 g pos s c
               (λ pos' s' c', run ic r2 pos' s' c' k) _ eq_refl) in Hrun
        as [Hrun|(pos2 & s2 & c2 & Hrun & Hc)]
  end.
  - exfalso. cbn [run] in Hrun.
    assert (∃ pre, PyStr.chars target = pre ++ blank :: s') as [pre Hpre].
    { change (blank :: s' `suffix_of` PyStr.chars target).
      repeat (etrans; [eassumption|]). done. }
    rewrite Hpre in Hlast.
    destruct s' as [|y [|y' s']]; cbn [at_eol] in Hrun.
    + rewrite (last_snoc blank pre) in Hlast. congruence.
    + case_bool_decide as Hy; [|done]. subst y.
      replace (pre ++ [blank; "010"%char]) with ((pre ++ [blank]) ++ ["010"%char])
        in Hlast by (by rewrite <- (assoc_L (++))).
      rewrite last_snoc in Hlast. by injection Hlast as <-.
    + done.
  - cbn [run] in Hrun. destruct (at_eol s2); [|done]. by injection Hrun as <-.
Qed.

Section ConditionFailures.
Context {Item : Type} (registry : Registry Item).

(** One of the six operator groups is set in every match. *)
Lemma first_operator_is_set target m :
  re_match ItemStateCondition_re target = Some m →
  ∃ symbol, first_operator m = VStr symbol.
Proof.
  intros Hm.
  destruct (one_group_is_set _ _ m [3; 4; 5; 6; 7; 8]%nat Hm eq_refl)
    as (i & Hi & [t Ht]).
  unfold first_operator, operators, group, text_of.
  rewrite (match_names _ _ _ Hm).
  cbn [groupindex ItemStateCondition_re index_of String.eqb Ascii.eqb Bool.eqb
       filter list_filter fst snd].
  repeat (apply elem_of_cons in Hi as [->|Hi]); [..|by apply elem_of_nil in Hi];
    rewrite Ht; cbn [from_option is_None];
    repeat match goal with
           | |- context [text_at m ?j] => destruct (text_at m j)
           end; cbn; by eexists.
Qed.

(** On a phrase that does not end with a blank,
    [ItemStateCondition.parse] raises for an item the registry does not
    know and for nothing else. *)
Lemma ItemStateCondition_parse_raises target z e :
  last (PyStr.chars target) = Some z →
  PyStr.is_space z = false →
  ItemStateCondition_parse registry target = Raise e →
  ∃ name, e = invalid_item_name name.
Proof.
  intros Hlast Hz. unfold ItemStateCondition_parse.
  destruct (re_match ItemStateCondition_re target) as [m|] eqn:Hm; [|done].
  destruct (getItem _ _) as [item|]; [|intros [= <-]; by eexists].
  destruct (group_is_set _ _ m "itemName" _ Hm eq_refl eq_refl) as [name ->].
  destruct (first_operator_is_set _ _ Hm) as [symbol ->].
  destruct (state_is_set _ _ _ Hm Hlast Hz) as [state ->].
  unfold ItemStateCondition. rewrite no_None_any_None; [done|]. keeps.
Qed.

Lemma condition_class_raises cls target z e :
  cls ∈ conditionClasses registry →
  last (PyStr.chars target) = Some z →
  PyStr.is_space z = false →
  parse cls target = Raise e →
  (∃ name, e = invalid_item_name name)
  ∨ (∃ daytype,
       e = ValueError [VStr "Unable to negate custom daytype: {}"; VStr daytype]).
Proof.
  intros Hcls Hlast Hz. unfold conditionClasses in Hcls.
  repeat (apply elem_of_cons in Hcls as [->|Hcls]);
    [..|by apply elem_of_nil in Hcls];
    cbn [parse ItemStateCondition_class EphemerisCondition_class
           TimeOfDayCondition_class].
  - intros H. left. by eapply ItemStateCondition_parse_raises.
  - intros H. right. by eapply EphemerisCondition_parse_raises.
  - intros H. destruct (TimeOfDayCondition_parse_returns target) as [found Hf].
    congruence.
Qed.

End ConditionFailures.

(** What [onlyif.parse] raises: its error for a blank phrase, its
    could-not-parse error, the error of an item the registry does not know
    and the refusal to negate a custom day type.  The other [raise]
    statements of the condition classes are never reached from it. *)
Theorem what_onlyif_parse_raises {Item} (registry : Registry Item)
        target w e w' :
  onlyif_parse registry target w = (Raise e, w') →
  (e = ValueError [VStr "expression is length 0"]
   ∧ Forall (λ c, PyStr.is_space c = true) (PyStr.chars target))
  ∨ (∃ fw, e = could_not_parse "condition" fw (PyStr.strip target))
  ∨ (∃ name, e = invalid_item_name name)
  ∨ (∃ daytype,
       e = ValueError [VStr "Unable to negate custom daytype: {}"; VStr daytype]).
Proof.
  unfold onlyif_parse, mbind, M_bind, lift, raise.
  destruct (phrase_cases target) as [[-> Hb]|(fw & z & Hfw & Hlast & Hz)].
  { intros [= <- _]. by left. }
  destruct (PyStr.strip target) as [|a s] eqn:Hs; [done|].
  cbn [PyStr.len String.length Nat.leb]. rewrite Hfw.
  destruct (for_classes _ _ _ w) as [[[x|]|e'] w1] eqn:Hloop; [done| |].
  - intros [= <- _]. right; left. by exists fw.
  - intros [= <- _].
    apply for_classes_raises in Hloop as (cls & Hcls & _ & Hraise).
    right; right. by eapply condition_class_raises.
Qed.

Lemma what_onlyif_parse_raises_witness :
  (invalid_item_name (VStr "Attic") = ValueError [VStr "expression is length 0"]
   ∧ Forall (λ c, PyStr.is_space c = true) (PyStr.chars "Item Attic is ON"))
  ∨ (∃ fw, invalid_item_name (VStr "Attic")
           = could_not_parse "condition" fw (PyStr.strip "Item Attic is ON"))
  ∨ (∃ name, invalid_item_name (VStr "Attic") = invalid_item_name name)
  ∨ (∃ daytype,
       invalid_item_name (VStr "Attic")
       = ValueError [VStr "Unable to negate custom daytype: {}"; VStr daytype]).
Proof.
  apply (what_onlyif_parse_raises demo_registry "Item Attic is ON" quiet
           (invalid_item_name (VStr "Attic"))
           (mkWorld [] ["ItemStateCondition"])).
  vm_compute. reflexivity.
Defined.

(** *** Running a pattern on a phrase with open parts *)

Section Stepping.
Variable icase : bool.
Implicit Types (g r : regex) (k : cont) (c res : captures) (s : list ascii).

(** A single character of a class before one that is not of it. *)
Lemma run_plus_class_single p b pos rest c k :
  p b = true → not_at p rest →
  run icase (plus (Cls p)) pos (b :: rest) c k = k (S pos) rest c.
Proof.
  intros Hb Hrest. unfold plus. cbn [run].
  rewrite (rep_loop_class_step _ p) by (done || apply class_body_Cls).
  cbn [length].
  rewrite (rep_loop_class_stop _ p) by (done || apply class_body_Cls).
  cbn [Nat.leb]. by destruct (k (S pos) rest c).
Qed.

(** A starred part whose body does not match is passed over. *)
Lemma run_star_none g pos s c k :
  (∀ K, run icase g pos s c K = None) →
  run icase (star g) pos s c k = k pos s c.
Proof. intros Hg. unfold star. cbn [run rep_loop Nat.leb]. by rewrite Hg. Qed.

(** A starred part that goes round once. *)
Lemma run_star_once g pos s c k pos1 s1 c1 res :
  (∀ K, K pos1 s1 c1 = Some res → run icase g pos s c K = Some res) →
  (length s1 < length s)%nat →
  (∀ K, run icase g pos1 s1 c1 K = None) →
  k pos1 s1 c1 = Some res →
  run icase (star g) pos s c k = Some res.
Proof.
  intros Hg Hlen Hstop Hk. unfold star. cbn [run rep_loop Nat.leb].
  rewrite Hg; [done|].
  pose proof Hlen as ->%Nat.ltb_lt.
  destruct s as [|x s]; [cbn in Hlen; lia|].
  cbn [length rep_loop Nat.leb]. by rewrite Hstop.
Qed.

Lemma starts_with_same w s : starts_with icase w (w ++ s) = true.
Proof.
  induction w as [|a w IH]; [done|]. cbn. rewrite IH.
  unfold chr_eq. destruct icase; by rewrite bool_decide_eq_true_2.
Qed.

(** A literal text at the start of the input. *)
Lemma run_lit_here text pos s c k :
  run icase (lit text) pos (PyStr.chars text ++ s) c k
  = k (pos + length (PyStr.chars text))%nat s c.
Proof. by rewrite run_lit, starts_with_same, drop_app_length. Qed.

End Stepping.

Lemma plain_not_space x : plain x = true → PyStr.is_space x = false.
Proof. unfold plain. by intros [?%negb_true_iff _]%andb_prop. Qed.

Lemma plain_not_quote x : plain x = true → x ≠ "'"%char.
Proof.
  unfold plain. intros [_ H%negb_true_iff]%andb_prop.
  by apply bool_decide_eq_false in H.
Qed.

Lemma chr_eq_quote x : x ≠ "'"%char → chr_eq true "'" x = false.
Proof.
  intros Hx. unfold chr_eq. apply bool_decide_eq_false_2. intros H. apply Hx.
  revert H. destruct x as [[] [] [] [] [] [] [] []]; vm_compute; congruence.
Qed.

Lemma space_not_quote x : PyStr.is_space x = true → x ≠ "'"%char.
Proof. by intros H ->. Qed.

Lemma a_value_chars v :
  a_value v →
  ∃ x xs, PyStr.chars v = x :: xs ∧ plain x = true
          ∧ Forall (λ y, plain y = true) xs.
Proof.
  intros [Hne Hv]. destruct (PyStr.chars v) as [|x xs] eqn:Hc.
  - by apply chars_nonempty in Hne.
  - exists x, xs. by inversion Hv.
Qed.

Lemma str_chars v : PyStr.str (PyStr.chars v) = v.
Proof. apply string_of_list_ascii_of_string. Qed.

(** [quoted_or_token] in a group takes a value that is not quoted, up to
    the blank or the end behind it. *)
Lemma token_accepts i v rest pos c k res :
  a_value v →
  not_at (λ x, negb (PyStr.is_space x)) rest →
  k (pos + length (PyStr.chars v))%nat rest ((i, v) :: c) = Some res →
  run true (Grp i quoted_or_token) pos (PyStr.chars v ++ rest) c k = Some res.
Proof.
  intros Hv Hrest Hk.
  destruct (a_value_chars v Hv) as (x & xs & Hc & Hx & Hxs).
  pose proof (str_chars v) as Hstr. rewrite Hc in *.
  unfold quoted_or_token. cbn [alt seq foldr run].
  rewrite run_lit. cbn [PyStr.chars list_ascii_of_string app starts_with].
  rewrite (chr_eq_quote x) by (by apply plain_not_quote). cbn [andb].
  unfold nws.
  apply (run_plus_class true _ pos (x :: xs) rest).
  - done.
  - constructor; [by rewrite (plain_not_space x)|].
    eapply Forall_impl; [exact Hxs|]. intros y Hy. cbn beta.
    by rewrite (plain_not_space y).
  - done.
  - cbv beta.
    replace (pos + length (x :: xs) - pos)%nat with (length (x :: xs)) by lia.
    assert (Htake : take (length (x :: xs)) (x :: xs ++ rest) = x :: xs)
      by apply (take_app_length (x :: xs)).
    by rewrite Htake, Hstr.
Qed.

(** It takes nothing at a blank or at the end. *)
Lemma token_rejects i s pos c k :
  not_at (λ x, negb (PyStr.is_space x)) s →
  run true (Grp i quoted_or_token) pos s c k = None.
Proof.
  intros Hs. unfold quoted_or_token. cbn [alt seq foldr run].
  rewrite run_lit. unfold nws. rewrite run_plus_class_none by done.
  destruct s as [|b s]; [done|]. cbn in Hs. apply negb_false_iff in Hs.
  cbn [PyStr.chars list_ascii_of_string starts_with].
  by rewrite (chr_eq_quote b) by (by apply space_not_quote).
Qed.

(** [\w+] in a group takes a name, up to the character behind it that is
    no word character. *)
Lemma name_accepts i name rest pos c k res :
  a_name name →
  not_at PyStr.is_word rest →
  k (pos + length (PyStr.chars name))%nat rest ((i, name) :: c) = Some res →
  run true (Grp i (plus word)) pos (PyStr.chars name ++ rest) c k = Some res.
Proof.
  intros [Hne Hword] Hrest Hk. pose proof (str_chars name) as Hstr.
  destruct (PyStr.chars name) as [|x xs] eqn:Hc;
    [by apply chars_nonempty in Hne|].
  cbn [run]. unfold word.
  apply (run_plus_class true _ pos (x :: xs) rest); [done..|].
  cbv beta.
  replace (pos + length (x :: xs) - pos)%nat with (length (x :: xs)) by lia.
  by rewrite (take_app_length (x :: xs) rest), Hstr.
Qed.

Lemma a_name_head name :
  a_name name →
  ∃ x xs, PyStr.chars name = x :: xs ∧ PyStr.is_word x = true.
Proof.
  intros [Hne Hword]. destruct (PyStr.chars name) as [|x xs] eqn:Hc;
    [by apply chars_nonempty in Hne|].
  exists x, xs. by inversion Hword.
Qed.

Lemma not_at_name name rest : a_name name → not_at PyStr.is_space (PyStr.chars name ++ rest).
Proof.
  intros (x & xs & -> & Hx)%a_name_head. cbn. by apply word_is_not_space.
Qed.

Lemma not_at_value v rest : a_value v → not_at PyStr.is_space (PyStr.chars v ++ rest).
Proof.
  intros (x & xs & -> & Hx & _)%a_value_chars. cbn. by apply plain_not_space.
Qed.

Lemma run_seq_cons icase r l pos s c k :
  run icase (seq (r :: l)) pos s c k
  = run icase r pos s c (λ pos' s' c', run icase (seq l) pos' s' c' k).
Proof. reflexivity. Qed.

Lemma run_seq_nil icase pos s c k : run icase (seq []) pos s c k = k pos s c.
Proof. reflexivity. Qed.

Lemma run_alt_cons icase r1 r2 l pos s c k :
  run icase (alt (r1 :: r2 :: l)) pos s c k
  = match run icase r1 pos s c k with
    | Some c' => Some c'
    | None => run icase (alt (r2 :: l)) pos s c k
    end.
Proof. reflexivity. Qed.

Lemma run_alt_one icase r pos s c k :
  run icase (alt [r]) pos s c k = run icase r pos s c k.
Proof. reflexivity. Qed.

Lemma run_grp icase i r pos s c k :
  run icase (Grp i r) pos s c k
  = run icase r pos s c
      (λ pos' s' c', k pos' s' ((i, PyStr.str (take (pos' - pos) s)) :: c')).
Proof. reflexivity. Qed.

Lemma run_ws_single icase b pos rest c k :
  PyStr.is_space b = true → not_at PyStr.is_space rest →
  run icase (plus ws) pos (b :: rest) c k = k (S pos) rest c.
Proof. apply run_plus_class_single. Qed.

Lemma run_ws_none icase pos s c k :
  not_at PyStr.is_space s → run icase (plus ws) pos s c k = None.
Proof. apply run_plus_class_none. Qed.

Lemma run_bol icase s c k : run icase Bol 0 s c k = k 0%nat s c.
Proof. reflexivity. Qed.

Lemma run_eol_end icase pos c k : run icase Eol pos [] c k = k pos [] c.
Proof. reflexivity. Qed.

(** Evaluates the comparisons of characters that are given. *)
Ltac compare_chars :=
  repeat match goal with
         | |- context [chr_eq ?b ?a ?x] =>
             let v := eval vm_compute in (chr_eq b a x) in
             lazymatch v with
             | true => change (chr_eq b a x) with true
             | false => change (chr_eq b a x) with false
             end
         end.

(** Reads a literal part of a pattern off the input. *)
Ltac read_lit :=
  rewrite run_lit;
  cbn [PyStr.chars list_ascii_of_string starts_with drop length];
  compare_chars; cbn [andb Nat.add]; cbv beta iota.

(** [\w+] in a group before [\s+]: when the rest of the pattern does not
    match behind the name, it does not match behind a part of the name
    either, where a word character follows. *)
Lemma name_rejects i name rest pos c l k :
  a_name name →
  not_at PyStr.is_word rest →
  (∀ pos c, run true (seq (plus ws :: l)) pos rest c k = None) →
  run true (Grp i (plus word)) pos (PyStr.chars name ++ rest) c
    (λ pos' s' c', run true (seq (plus ws :: l)) pos' s' c' k) = None.
Proof.
  intros [Hne Hword] Hrest Hk. rewrite run_grp. unfold word.
  apply run_plus_class_fails; [done..|]. intros j Hj.
  destruct (drop j (PyStr.chars name)) as [|y ys] eqn:Hdrop.
  - apply Hk.
  - cbn [app]. rewrite run_seq_cons. apply run_plus_ws_word.
    pose proof (Forall_drop _ j _ Hword) as Hd. rewrite Hdrop in Hd.
    by inversion Hd.
Qed.

Lemma strip_id s a z :
  head (PyStr.chars s) = Some a → last (PyStr.chars s) = Some z →
  PyStr.is_space a = false → PyStr.is_space z = false →
  PyStr.strip s = s.
Proof.
  intros Ha Hlast Hsa Hsz. unfold PyStr.strip.
  rewrite (strip_chars_id _ a z) by done. apply str_chars.
Qed.

Lemma a_value_last v l :
  a_value v →
  ∃ z, last (l ++ PyStr.chars v) = Some z ∧ PyStr.is_space z = false.
Proof.
  intros [Hne Hv]. destruct (PyStr.chars v) as [|x xs] eqn:Hc using rev_ind.
  - by apply chars_nonempty in Hne.
  - exists x. rewrite (assoc_L (++)), last_snoc. split; [done|].
    apply Forall_app in Hv as [_ Hx]. apply plain_not_space. by inversion Hx.
Qed.

(** The same for a group of any class of characters that are not blank. *)
Lemma class_group_accepts p i v rest pos c k res :
  v ≠ "" → Forall (λ x, p x = true) (PyStr.chars v) →
  not_at p rest →
  k (pos + length (PyStr.chars v))%nat rest ((i, v) :: c) = Some res →
  run true (Grp i (plus (Cls p))) pos (PyStr.chars v ++ rest) c k = Some res.
Proof.
  intros Hne Hv Hrest Hk. pose proof (str_chars v) as Hstr.
  destruct (PyStr.chars v) as [|x xs] eqn:Hc;
    [by apply chars_nonempty in Hne|].
  cbn [run].
  apply (run_plus_class true _ pos (x :: xs) rest); [done..|].
  cbv beta.
  replace (pos + length (x :: xs) - pos)%nat with (length (x :: xs)) by lia.
  by rewrite (take_app_length (x :: xs) rest), Hstr.
Qed.

Lemma class_group_rejects p i v rest pos c l k :
  (∀ y, p y = true → PyStr.is_space y = false) →
  Forall (λ x, p x = true) (PyStr.chars v) →
  not_at p rest →
  (∀ pos c, run true (seq (plus ws :: l)) pos rest c k = None) →
  run true (Grp i (plus (Cls p))) pos (PyStr.chars v ++ rest) c
    (λ pos' s' c', run true (seq (plus ws :: l)) pos' s' c' k) = None.
Proof.
  intros Hp Hv Hrest Hk. rewrite run_grp.
  apply run_plus_class_fails; [done..|]. intros j Hj.
  destruct (drop j (PyStr.chars v)) as [|y ys] eqn:Hdrop.
  - apply Hk.
  - cbn [app]. rewrite run_seq_cons. apply run_ws_none. cbn.
    pose proof (Forall_drop _ j _ Hv) as Hd. rewrite Hdrop in Hd.
    apply Hp. by inversion Hd.
Qed.

Lemma a_value_nws v :
  a_value v → Forall (λ x, negb (PyStr.is_space x) = true) (PyStr.chars v).
Proof.
  intros [_ Hv]. eapply Forall_impl; [exact Hv|]. intros y Hy. cbn beta.
  by rewrite (plain_not_space y).
Qed.

(** The end of a string is not in the middle of it. *)
Lemma at_eol_app l b r : r ≠ [] → at_eol (l ++ b :: r) = false.
Proof. intros Hr. destruct l as [|x [|y l]], r; done. Qed.

(** A text with no blank in it that is read off a run of characters up to
    a blank is not longer than the run. *)
Lemma starts_with_before_blank icase w l b r :
  Forall (λ a, chr_eq icase a b = false) w →
  starts_with icase w (l ++ b :: r) = true →
  (length w ≤ length l)%nat.
Proof.
  intros Hw. revert l. induction Hw as [|a w Ha _ IH]; intros l; [cbn; lia|].
  destruct l as [|x l]; cbn [app starts_with length].
  - by rewrite Ha.
  - intros [_ H]%andb_prop. apply IH in H. lia.
Qed.

(** A given text before the end of the string does not match where more
    words follow. *)
Lemma lit_at_end_rejects text l b r pos c k :
  Forall (λ a, chr_eq true a b = false) (PyStr.chars text) →
  r ≠ [] →
  run true (lit text) pos (l ++ b :: r) c
    (λ pos' s' c', run true (seq [Eol]) pos' s' (k pos' s' c') (λ _ _ c, Some c))
  = None.
Proof.
  intros Htext Hr. rewrite run_lit.
  destruct (starts_with _ _ _) eqn:Hs; [|done].
  apply starts_with_before_blank in Hs; [|done].
  rewrite drop_app_le by done. rewrite run_seq_cons. cbn [run].
  by rewrite at_eol_app.
Qed.

(** *** Phrases about an item *)

(** The beginning of the item patterns on [Item <name>]. *)
Ltac item_head :=
  rewrite run_seq_cons, run_bol;
  rewrite run_seq_cons; unfold item_or_members;
  rewrite run_alt_cons, run_seq_cons, run_grp, run_alt_cons; read_lit;
  rewrite run_alt_one; read_lit; rewrite run_alt_one; read_lit;
  rewrite run_seq_cons, run_ws_single by (done || by apply not_at_name);
  rewrite run_seq_cons.

(** Sets a pattern to run on the characters of a phrase. *)
Ltac run_pattern re caps :=
  unfold re_match;
  change (ignorecase re) with true;
  match goal with
  | |- match run true (expr re) 0 ?s [] ?k with _ => _ end = _ =>
      enough (run true (expr re) 0 s [] k = caps) as ->; [done|]
  end;
  rewrite ?chars_app;
  cbn [PyStr.chars list_ascii_of_string app];
  cbn [expr re].

Lemma item_received_update_matches name state :
  a_name name → an_optional_value state →
  re_match ItemStateUpdateTrigger_re
    ("Item " +:+ name +:+ " received update" +:+ opt_part " " state)
  = Some (Match (match state with
                 | Some v => [(3, v); (2, name)]
                 | None => [(2, name)]
                 end) (groupindex ItemStateUpdateTrigger_re)).
Proof.
  intros Hname Hstate.
  run_pattern ItemStateUpdateTrigger_re
    (Some (match state with
           | Some v => [(3, v); (2, name)]
           | None => [(2, name)]
           end)).
  item_head. apply name_accepts; [done..|].
  rewrite run_seq_cons, run_ws_single by done.
  rewrite run_seq_cons. read_lit.
  rewrite run_seq_cons, run_ws_single by done.
  rewrite run_seq_cons. read_lit.
  rewrite run_seq_cons.
  destruct state as [v|]; cbn [opt_part an_optional_value] in *.
  - rewrite chars_app, <- (app_nil_r (PyStr.chars v)).
    cbn [PyStr.chars list_ascii_of_string app drop].
    eapply (run_star_once true _ _ _ _ _ _ [] _ ).
    + intros K HK.
      rewrite run_seq_cons, run_ws_single by (done || by apply not_at_value).
      rewrite run_seq_cons. apply token_accepts; [done..|].
      rewrite run_seq_nil. exact HK.
    + cbn [length]. lia.
    + intros K. by rewrite run_seq_cons, run_ws_none.
    + reflexivity.
  - cbn [PyStr.chars list_ascii_of_string drop].
    rewrite run_star_none; [reflexivity|].
    intros K. by rewrite run_seq_cons, run_ws_none.
Qed.

Lemma group_of_match c names name i :
  index_of name names = Some i →
  group (Match c names) name = from_option VStr VNone (assoc i c).
Proof. intros H. unfold group, text_of, text_at. cbn [Re.names caps]. by rewrite H. Qed.

Lemma ItemStateUpdateTrigger_parse_item {Item} (registry : Registry Item) name state :
  a_name name → an_optional_value state →
  ItemStateUpdateTrigger_parse registry
    ("Item " +:+ name +:+ " received update" +:+ opt_part " " state)
  = match getItem registry (VStr name) with
    | Some _ => Return (Some (Single (ItemStateUpdateTrigger (VStr name)
                                                             (opt_value state))))
    | None => Raise (invalid_item_name (VStr name))
    end.
Proof.
  intros Hname Hstate. unfold ItemStateUpdateTrigger_parse.
  rewrite item_received_update_matches by done.
  destruct state as [v|]; cbn; by destruct (getItem registry (VStr name)).
Qed.

(** A phrase that begins with [Item ] and ends with a value, or with a
    word that is given, is left alone by [strip], and its first word is
    [Item]. *)
Lemma item_phrase_stripped rest z :
  last (PyStr.chars ("Item " +:+ rest)) = Some z →
  PyStr.is_space z = false →
  PyStr.strip ("Item " +:+ rest) = "Item " +:+ rest.
Proof. intros Hlast Hz. by apply (strip_id _ "I"%char z). Qed.

Lemma item_phrase_first_word rest :
  first (PyStr.split ("Item " +:+ rest)) = Return "Item".
Proof. reflexivity. Qed.

Lemma last_opt_part l keyword v z :
  an_optional_value v →
  last l = Some z → PyStr.is_space z = false →
  keyword ≠ "" →
  ∃ z', last (l ++ PyStr.chars (opt_part keyword v)) = Some z'
        ∧ PyStr.is_space z' = false.
Proof.
  intros Hv Hl Hz Hk. destruct v as [v|]; cbn [opt_part an_optional_value] in *.
  - rewrite chars_app, (assoc_L (++)). by apply a_value_last.
  - cbn. rewrite (right_id_L [] (++)). by exists z.
Qed.

(** [Item <name> received update], with a state or without: the trigger
    of the item with that state, from the first class that is asked; the
    error of an item that the registry does not know. *)
Theorem item_received_update {Item} (registry : Registry Item) name state w :
  a_name name → an_optional_value state →
  when_parse registry
    ("Item " +:+ name +:+ " received update" +:+ opt_part " " state) w
  = (match getItem registry (VStr name) with
     | Some _ => Return (Some (Single (ItemStateUpdateTrigger (VStr name)
                                                              (opt_value state))))
     | None => Raise (invalid_item_name (VStr name))
     end,
     mkWorld (warnings w) (invoked w ++ ["ItemStateUpdateTrigger"])).
Proof.
  intros Hname Hstate.
  assert (Hstrip : PyStr.strip ("Item " +:+ name +:+ " received update"
                                +:+ opt_part " " state)
                   = "Item " +:+ name +:+ " received update" +:+ opt_part " " state).
  { destruct (last_opt_part (PyStr.chars ("Item " +:+ name +:+ " received update"))
                " " state "e"%char Hstate) as (z & Hz & Hsz); [|done..|].
    - by rewrite !chars_app, !last_app.
    - apply (item_phrase_stripped _ z); [|done].
      by rewrite <- Hz, !chars_app, !(assoc_L (++)). }
  apply (when_parse_stops registry _ "Item"
           [StartupTrigger_class; CronTrigger_class; DateTimeTrigger_class registry]
           (ItemStateUpdateTrigger_class registry)
           (drop 4 (triggerClasses registry))).
  - by rewrite Hstrip.
  - reflexivity.
  - repeat (constructor; [by intros [=]|]). constructor.
  - reflexivity.
  - rewrite Hstrip. by apply ItemStateUpdateTrigger_parse_item.
  - by destruct (getItem registry (VStr name)).
Qed.

Lemma item_changed_is_no_update name rest :
  a_name name →
  re_match ItemStateUpdateTrigger_re ("Item " +:+ name +:+ " changed" +:+ rest)
  = None.
Proof.
  intros Hname.
  run_pattern ItemStateUpdateTrigger_re (@None captures).
  item_head. apply name_rejects; [done..|]. intros pos c.
  rewrite run_seq_cons, run_ws_single by done.
  rewrite run_seq_cons. by read_lit.
Qed.

(** The two starred parts of the change pattern. *)
Lemma changed_from_to previous state pos c :
  an_optional_value previous → an_optional_value state →
  run true
    (seq [star (seq [plus ws; lit "from"; plus ws; Grp 3 quoted_or_token]);
          star (seq [plus ws; lit "to"; plus ws; Grp 4 quoted_or_token]);
          Eol])
    pos (PyStr.chars (opt_part " from " previous +:+ opt_part " to " state)) c
    (λ _ _ c, Some c)
  = Some (match state with Some v => [(4, v)] | None => [] end
          ++ match previous with Some v => [(3, v)] | None => [] end ++ c).
Proof.
  intros Hprevious Hstate.
  assert (Hto : ∀ pos c,
    run true (seq [star (seq [plus ws; lit "to"; plus ws; Grp 4 quoted_or_token]);
                   Eol])
        pos (PyStr.chars (opt_part " to " state)) c (λ _ _ c, Some c)
    = Some (match state with Some v => [(4, v)] | None => [] end ++ c)).
  { clear pos c. intros pos c. rewrite run_seq_cons.
    destruct state as [v|]; cbn [opt_part an_optional_value] in *.
    - rewrite chars_app, <- (app_nil_r (PyStr.chars v)).
      cbn [PyStr.chars list_ascii_of_string app].
      eapply (run_star_once true _ _ _ _ _ _ [] _ ).
      + intros K HK. rewrite run_seq_cons, run_ws_single by done.
        rewrite run_seq_cons. read_lit.
        rewrite run_seq_cons, run_ws_single by (done || by apply not_at_value).
        rewrite run_seq_cons. apply token_accepts; [done..|].
        rewrite run_seq_nil. exact HK.
      + cbn [length]. lia.
      + intros K. by rewrite run_seq_cons, run_ws_none.
      + reflexivity.
    - cbn [PyStr.chars list_ascii_of_string].
      rewrite run_star_none; [reflexivity|].
      intros K. by rewrite run_seq_cons, run_ws_none. }
  assert (Hnot : ∀ pos c K,
    run true (seq [plus ws; lit "from"; plus ws; Grp 3 quoted_or_token])
        pos (PyStr.chars (opt_part " to " state)) c K = None).
  { clear. intros pos c K. rewrite run_seq_cons.
    destruct state as [v|]; cbn [opt_part].
    - rewrite chars_app. cbn [PyStr.chars list_ascii_of_string app].
      rewrite run_ws_single by done. rewrite run_seq_cons. by read_lit.
    - by rewrite run_ws_none. }
  rewrite run_seq_cons.
  destruct previous as [u|]; cbn [opt_part an_optional_value] in *.
  - rewrite !chars_app. cbn [PyStr.chars list_ascii_of_string app].
    eapply (run_star_once true _ _ _ _ _ _ (PyStr.chars (opt_part " to " state)) _).
    + intros K HK. rewrite run_seq_cons, run_ws_single by done.
      rewrite run_seq_cons. read_lit.
      rewrite run_seq_cons, run_ws_single by (done || by apply not_at_value).
      rewrite run_seq_cons. apply token_accepts; [done| |].
      * destruct state; cbn [opt_part]; [by rewrite chars_app|done].
      * rewrite run_seq_nil. exact HK.
    + cbn [length]. rewrite length_app. lia.
    + apply Hnot.
    + by rewrite Hto.
  - cbn [String.append app].
    rewrite run_star_none by apply Hnot. apply Hto.
Qed.

Lemma item_changed_matches name previous state :
  a_name name → an_optional_value previous → an_optional_value state →
  re_match ItemStateChangeTrigger_re
    ("Item " +:+ name +:+ " changed" +:+ opt_part " from " previous
     +:+ opt_part " to " state)
  = Some (Match (match state with Some v => [(4, v)] | None => [] end
                 ++ match previous with Some v => [(3, v)] | None => [] end
                 ++ [(2, name)])
                (groupindex ItemStateChangeTrigger_re)).
Proof.
  intros Hname Hprevious Hstate.
  run_pattern ItemStateChangeTrigger_re
    (Some (match state with Some v => [(4, v)] | None => [] end
           ++ match previous with Some v => [(3, v)] | None => [] end
           ++ [(2, name)])).
  item_head. apply name_accepts; [done..|].
  rewrite run_seq_cons, run_ws_single by done.
  rewrite run_seq_cons. read_lit. rewrite drop_0, <- chars_app.
  by apply changed_from_to.
Qed.

Lemma ItemStateChangeTrigger_parse_item {Item} (registry : Registry Item)
      name previous state :
  a_name name → an_optional_value previous → an_optional_value state →
  ItemStateChangeTrigger_parse registry
    ("Item " +:+ name +:+ " changed" +:+ opt_part " from " previous
     +:+ opt_part " to " state)
  = match getItem registry (VStr name) with
    | Some _ => Return (Some (Single (ItemStateChangeTrigger (VStr name)
                                        (opt_value previous) (opt_value state))))
    | None => Raise (invalid_item_name (VStr name))
    end.
Proof.
  intros Hname Hprevious Hstate. unfold ItemStateChangeTrigger_parse.
  rewrite item_changed_matches by done.
  destruct previous as [u|], state as [v|]; cbn;
    by destruct (getItem registry (VStr name)).
Qed.

(** [Item <name> changed], with [from <state>] and [to <state>] or
    without: the update class declines, the change class gives the trigger
    of the item with the two states, or the error of an item that the
    registry does not know. *)
Theorem item_changed {Item} (registry : Registry Item) name previous state w :
  a_name name → an_optional_value previous → an_optional_value state →
  when_parse registry
    ("Item " +:+ name +:+ " changed" +:+ opt_part " from " previous
     +:+ opt_part " to " state) w
  = (match getItem registry (VStr name) with
     | Some _ => Return (Some (Single (ItemStateChangeTrigger (VStr name)
                                         (opt_value previous) (opt_value state))))
     | None => Raise (invalid_item_name (VStr name))
     end,
     mkWorld (warnings w)
       (invoked w ++ ["ItemStateUpdateTrigger"; "ItemStateChangeTrigger"])).
Proof.
  intros Hname Hprevious Hstate.
  assert (Hstrip :
    PyStr.strip ("Item " +:+ name +:+ " changed" +:+ opt_part " from " previous
                 +:+ opt_part " to " state)
    = "Item " +:+ name +:+ " changed" +:+ opt_part " from " previous
      +:+ opt_part " to " state).
  { destruct (last_opt_part (PyStr.chars ("Item " +:+ name +:+ " changed"))
                " from " previous "d"%char Hprevious) as (z & Hz & Hsz);
      [by rewrite !chars_app, !last_app|done..|].
    destruct (last_opt_part _ " to " state z Hstate Hz Hsz) as (z' & Hz' & Hsz');
      [done|].
    apply (item_phrase_stripped _ z'); [|done].
    by rewrite <- Hz', !chars_app, !(assoc_L (++)). }
  apply (when_parse_stops registry _ "Item"
           [StartupTrigger_class; CronTrigger_class; DateTimeTrigger_class registry;
            ItemStateUpdateTrigger_class registry]
           (ItemStateChangeTrigger_class registry)
           (drop 5 (triggerClasses registry))).
  - by rewrite Hstrip.
  - reflexivity.
  - repeat (constructor; [by intros [=]|]).
    constructor; [|constructor]. intros _. rewrite Hstrip.
    cbn [parse ItemStateUpdateTrigger_class]. unfold ItemStateUpdateTrigger_parse.
    by rewrite item_changed_is_no_update.
  - reflexivity.
  - rewrite Hstrip. by apply ItemStateChangeTrigger_parse_item.
  - by destruct (getItem registry (VStr name)).
Qed.

Lemma item_received_update_witness :
  when_parse demo_registry "Item Hall received update ON" quiet
  = (Return (Some (Single (ItemStateUpdateTrigger (VStr "Hall") (VStr "ON")))),
     mkWorld [] ["ItemStateUpdateTrigger"]).
Proof.
  apply (item_received_update demo_registry "Hall" (Some "ON") quiet).
  - split; [done|]. repeat constructor.
  - split; [done|]. repeat constructor.
Defined.

Lemma item_changed_witness :
  when_parse demo_registry "Item Hall changed from OFF to ON" quiet
  = (Return (Some (Single (ItemStateChangeTrigger (VStr "Hall") (VStr "OFF")
                                                  (VStr "ON")))),
     mkWorld [] ["ItemStateUpdateTrigger"; "ItemStateChangeTrigger"]).
Proof.
  apply (item_changed demo_registry "Hall" (Some "OFF") (Some "ON") quiet).
  - split; [done|]. repeat constructor.
  - split; [done|]. repeat constructor.
  - split; [done|]. repeat constructor.
Defined.

Lemma item_received_is_no_event name rest :
  a_name name → rest ≠ "" →
  re_match ItemEventTrigger_re ("Item " +:+ name +:+ " " +:+ rest) = None.
Proof.
  intros Hname Hrest.
  run_pattern ItemEventTrigger_re (@None captures).
  rewrite run_seq_cons, run_bol. rewrite run_seq_cons. read_lit.
  rewrite run_seq_cons, run_ws_single by (done || by apply not_at_name).
  rewrite run_seq_cons, run_grp.
  assert (Hr : PyStr.chars rest ≠ []) by (by apply chars_nonempty).
  rewrite run_alt_cons, lit_at_end_rejects by (done || by repeat constructor).
  rewrite run_alt_cons, lit_at_end_rejects by (done || by repeat constructor).
  rewrite run_alt_one. by rewrite lit_at_end_rejects by (done || by repeat constructor).
Qed.

Lemma item_received_command_is_no_update name rest :
  a_name name →
  re_match ItemStateUpdateTrigger_re
    ("Item " +:+ name +:+ " received command" +:+ rest) = None.
Proof.
  intros Hname.
  run_pattern ItemStateUpdateTrigger_re (@None captures).
  item_head. apply name_rejects; [done..|]. intros pos c.
  rewrite run_seq_cons, run_ws_single by done.
  rewrite run_seq_cons. read_lit.
  rewrite run_seq_cons, run_ws_single by done.
  rewrite run_seq_cons. by read_lit.
Qed.

Lemma item_received_command_is_no_change name rest :
  a_name name →
  re_match ItemStateChangeTrigger_re
    ("Item " +:+ name +:+ " received command" +:+ rest) = None.
Proof.
  intros Hname.
  run_pattern ItemStateChangeTrigger_re (@None captures).
  item_head. apply name_rejects; [done..|]. intros pos c.
  rewrite run_seq_cons, run_ws_single by done.
  rewrite run_seq_cons. by read_lit.
Qed.

Lemma a_name_word name :
  a_name name → Forall (λ x, PyStr.is_word x = true) (PyStr.chars name).
Proof. by intros [_ H]. Qed.

Lemma item_received_command_matches name command :
  a_name name → an_optional_name command →
  re_match ItemCommandTrigger_re
    ("Item " +:+ name +:+ " received command" +:+ opt_part " " command)
  = Some (Match (match command with
                 | Some v => [(3, v); (2, name)]
                 | None => [(2, name)]
                 end) (groupindex ItemCommandTrigger_re)).
Proof.
  intros Hname Hcommand.
  run_pattern ItemCommandTrigger_re
    (Some (match command with
           | Some v => [(3, v); (2, name)]
           | None => [(2, name)]
           end)).
  item_head. apply name_accepts; [done..|].
  rewrite run_seq_cons, run_ws_single by done.
  rewrite run_seq_cons. read_lit.
  rewrite run_seq_cons, run_ws_single by done.
  rewrite run_seq_cons. read_lit.
  rewrite run_seq_cons.
  destruct command as [v|]; cbn [opt_part an_optional_name] in *.
  - rewrite chars_app, <- (app_nil_r (PyStr.chars v)).
    cbn [PyStr.chars list_ascii_of_string app drop].
    eapply (run_star_once true _ _ _ _ _ _ [] _ ).
    + intros K HK.
      rewrite run_seq_cons, run_ws_single by (done || by apply not_at_name).
      rewrite run_seq_cons. apply name_accepts; [done..|].
      rewrite run_seq_nil. exact HK.
    + cbn [length]. lia.
    + intros K. by rewrite run_seq_cons, run_ws_none.
    + reflexivity.
  - cbn [PyStr.chars list_ascii_of_string drop].
    rewrite run_star_none; [reflexivity|].
    intros K. by rewrite run_seq_cons, run_ws_none.
Qed.

Lemma a_name_last v l :
  a_name v →
  ∃ z, last (l ++ PyStr.chars v) = Some z ∧ PyStr.is_space z = false.
Proof.
  intros [Hne Hv]. destruct (PyStr.chars v) as [|x xs] eqn:Hc using rev_ind.
  - by apply chars_nonempty in Hne.
  - exists x. rewrite (assoc_L (++)), last_snoc. split; [done|].
    apply Forall_app in Hv as [_ Hx]. apply word_is_not_space. by inversion Hx.
Qed.

(** [Item <name> received command], with a command or without: the
    update, change and item-event classes decline, the command class gives
    the trigger, or the error of an item that the registry does not
    know. *)
Theorem item_received_command {Item} (registry : Registry Item) name command w :
  a_name name → an_optional_name command →
  when_parse registry
    ("Item " +:+ name +:+ " received command" +:+ opt_part " " command) w
  = (match getItem registry (VStr name) with
     | Some _ => Return (Some (Single (ItemCommandTrigger (VStr name)
                                                          (opt_value command))))
     | None => Raise (invalid_item_name (VStr name))
     end,
     mkWorld (warnings w)
       (invoked w ++ ["ItemStateUpdateTrigger"; "ItemStateChangeTrigger";
                      "ItemEventTrigger"; "ItemCommandTrigger"])).
Proof.
  intros Hname Hcommand.
  assert (Hstrip :
    PyStr.strip ("Item " +:+ name +:+ " received command" +:+ opt_part " " command)
    = "Item " +:+ name +:+ " received command" +:+ opt_part " " command).
  { assert (∃ z, last (PyStr.chars ("Item " +:+ name +:+ " received command"
                                    +:+ opt_part " " command)) = Some z
                 ∧ PyStr.is_space z = false) as (z & Hz & Hsz).
    { destruct command as [v|]; cbn [opt_part an_optional_name] in *.
      - rewrite !chars_app, !(assoc_L (++)). by apply a_name_last.
      - exists "d"%char. by rewrite !chars_app, !last_app. }
    by apply (item_phrase_stripped _ z). }
  apply (when_parse_stops registry _ "Item"
           (take 7 (triggerClasses registry))
           (ItemCommandTrigger_class registry)
           (drop 8 (triggerClasses registry))).
  - by rewrite Hstrip.
  - reflexivity.
  - rewrite Hstrip. cbn [take triggerClasses].
    repeat (constructor; [first [by intros [=] | intros _]|]); [..|constructor].
    + cbn [parse ItemStateUpdateTrigger_class]. unfold ItemStateUpdateTrigger_parse.
      by rewrite item_received_command_is_no_update.
    + cbn [parse ItemStateChangeTrigger_class]. unfold ItemStateChangeTrigger_parse.
      by rewrite item_received_command_is_no_change.
    + cbn [parse ItemEventTrigger_class]. unfold ItemEventTrigger_parse.
      change ("Item " +:+ name +:+ " received command" +:+ opt_part " " command)
        with ("Item " +:+ name +:+ " " +:+ "received command"
              +:+ opt_part " " command).
      by rewrite item_received_is_no_event.
  - reflexivity.
  - rewrite Hstrip. cbn [parse ItemCommandTrigger_class].
    unfold ItemCommandTrigger_parse.
    rewrite item_received_command_matches by done.
    destruct command as [v|]; cbn; by destruct (getItem registry (VStr name)).
  - by destruct (getItem registry (VStr name)).
Qed.

Lemma item_received_command_witness :
  when_parse demo_registry "Item Hall received command ON" quiet
  = (Return (Some (Single (ItemCommandTrigger (VStr "Hall") (VStr "ON")))),
     mkWorld [] ["ItemStateUpdateTrigger"; "ItemStateChangeTrigger";
                 "ItemEventTrigger"; "ItemCommandTrigger"]).
Proof.
  apply (item_received_command demo_registry "Hall" (Some "ON") quiet).
  - split; [done|]. repeat constructor.
  - split; [done|]. repeat constructor.
Defined.

(** *** The operators of the item-state condition *)

Lemma run_star icase g pos s c k :
  run icase (star g) pos s c k
  = rep_loop (run icase g) 0 None k (S (length s)) 0 pos s c.
Proof. reflexivity. Qed.

Lemma token_accepts_chars i xs rest pos c k res :
  xs ≠ [] → Forall (λ x, plain x = true) xs →
  not_at (λ x, negb (PyStr.is_space x)) rest →
  k (pos + length xs)%nat rest ((i, PyStr.str xs) :: c) = Some res →
  run true (Grp i quoted_or_token) pos (xs ++ rest) c k = Some res.
Proof.
  intros Hne Hxs Hrest Hk.
  assert (Hchars : PyStr.chars (PyStr.str xs) = xs)
    by apply list_ascii_of_string_of_list_ascii.
  rewrite <- Hchars. apply token_accepts; [|done|by rewrite Hchars].
  split; [|by rewrite Hchars]. intros H. rewrite H in Hchars. by subst xs.
Qed.

(** The values that follow one another do not reach the end of the input
    when a blank and more come behind the first of them. *)
Lemma values_stop_at_blank fuel count pos w b r c :
  Forall (λ x, plain x = true) w →
  PyStr.is_space b = true → r ≠ [] →
  rep_loop (run true (Grp 9 quoted_or_token)) 0 None
    (λ pos' s' c', run true (seq [Eol]) pos' s' c' (λ _ _ c, Some c))
    fuel count pos (w ++ b :: r) c = None.
Proof.
  intros Hw Hb Hr. revert count pos w c Hw.
  induction fuel as [|fuel IH]; intros count pos w c Hw; [done|].
  cbn [rep_loop Nat.leb].
  assert (Hend : run true (seq [Eol]) pos (w ++ b :: r) c (λ _ _ c, Some c) = None).
  { rewrite run_seq_cons. cbn [run]. by rewrite at_eol_app. }
  rewrite Hend.
  destruct w as [|x w].
  - rewrite token_rejects; [done|]. cbn. by rewrite Hb.
  - inversion Hw as [|? ? Hx Hw']; subst.
    rewrite run_grp. unfold quoted_or_token. rewrite run_alt_cons, run_seq_cons.
    rewrite run_lit. cbn [PyStr.chars list_ascii_of_string app starts_with].
    rewrite (chr_eq_quote x) by (by apply plain_not_quote). cbn [andb].
    rewrite run_alt_one. unfold nws.
    rewrite (run_plus_class_fails true _ pos (x :: w) (b :: r)); [done| | |].
    + constructor; [by rewrite (plain_not_space x)|].
      eapply Forall_impl; [exact Hw'|]. intros y Hy. cbn beta.
      by rewrite (plain_not_space y).
    + cbn. by rewrite Hb.
    + intros j Hj. cbv beta.
      rewrite IH; [by destruct (_ <? _)%nat|].
      by apply Forall_drop.
Qed.

Lemma value_then_more_split s :
  value_then_more s = true →
  ∃ w b r, s = w ++ b :: r ∧ Forall (λ x, plain x = true) w
           ∧ PyStr.is_space b = true ∧ r ≠ [].
Proof.
  induction s as [|x s IH]; [done|]. cbn [value_then_more].
  destruct (PyStr.is_space x) eqn:Hx.
  - intros H. exists [], x, s. split_and!; [done|constructor|done|by destruct s].
  - intros [Hp (w & b & r & -> & Hw & Hb & Hr)%IH]%andb_prop.
    exists (x :: w), b, r. split_and!; [done|by constructor|done..].
Qed.

(** The end of the item-state pattern: [\s+(?P<state>...)*$]. *)
Lemma state_accepted b xs pos c :
  PyStr.is_space b = true →
  xs ≠ [] → Forall (λ x, plain x = true) xs →
  run true (seq [plus ws; star (Grp 9 quoted_or_token); Eol]) pos (b :: xs) c
      (λ _ _ c, Some c)
  = Some ((9, PyStr.str xs) :: c).
Proof.
  intros Hb Hne Hxs.
  assert (Hx : not_at PyStr.is_space xs).
  { destruct xs as [|x xs]; [done|]. cbn. apply plain_not_space. by inversion Hxs. }
  rewrite run_seq_cons, run_ws_single by done.
  rewrite run_seq_cons. rewrite <- (app_nil_r xs) at 1.
  eapply (run_star_once true _ _ _ _ _ _ [] _).
  - intros K HK. apply token_accepts_chars; [done..|exact HK].
  - rewrite length_app. cbn. destruct xs; [done|cbn; lia].
  - intros K. by apply token_rejects.
  - reflexivity.
Qed.

Lemma state_is_refused s pos c :
  state_refused s = true →
  run true (seq [plus ws; star (Grp 9 quoted_or_token); Eol]) pos s c
      (λ _ _ c, Some c) = None.
Proof.
  intros H. rewrite run_seq_cons.
  destruct s as [|b s]; [by rewrite run_ws_none|].
  cbn [state_refused] in H. destruct (PyStr.is_space b) eqn:Hb;
    [|by rewrite run_ws_none by (cbn; by rewrite Hb)].
  cbn [negb orb] in H. destruct s as [|x s]; [done|].
  apply andb_prop in H as [Hx%negb_true_iff Hmore].
  rewrite run_ws_single by done.
  apply value_then_more_split in Hmore as (w & b' & r & -> & Hw & Hb' & Hr).
  rewrite run_seq_cons, run_star. by apply values_stop_at_blank.
Qed.

(** Goes through the alternatives of the operators. *)
Ltac operator_steps :=
  repeat first
    [ rewrite state_accepted by (done || by constructor)
    | rewrite state_is_refused by reflexivity
    | rewrite run_grp
    | rewrite run_alt_cons
    | rewrite run_alt_one
    | rewrite run_ws_single by done
    | progress read_lit
    | rewrite run_seq_nil
    | rewrite run_seq_cons ].

(** What the pattern captures on [Item <name> <operator> <state>]: the
    name, the state, and of the six groups of operators the one of the
    operator's spelling. *)
Lemma operator_is_captured name spelling symbol state :
  (spelling, symbol) ∈ operator_spellings →
  a_name name → a_value state →
  ∃ m,
    re_match ItemStateCondition_re
      ("Item " +:+ name +:+ " " +:+ spelling +:+ " " +:+ state) = Some m
    ∧ group m "itemName" = VStr name
    ∧ first_operator m = VStr symbol
    ∧ group m "state" = VStr state.
Proof.
  intros Hin Hname Hstate.
  destruct (a_value_chars state Hstate) as (y & ys & Hc & Hy & Hys).
  pose proof (str_chars state) as Hstr. rewrite Hc in Hstr.
  assert (∃ caps,
    run true (expr ItemStateCondition_re) 0
      (PyStr.chars ("Item " +:+ name +:+ " " +:+ spelling +:+ " " +:+ state)) []
      (λ _ _ c, Some c) = Some caps
    ∧ assoc 1 caps = Some name
    ∧ first_operator (Match caps (groupindex ItemStateCondition_re)) = VStr symbol
    ∧ assoc 9 caps = Some state) as (caps & Hrun & H1 & Hop & H9).
  { unfold operator_spellings in Hin.
    repeat (apply elem_of_cons in Hin as [[= -> ->]|Hin]);
      [..|by apply elem_of_nil in Hin];
      eexists; (split;
        [ rewrite !chars_app, Hc;
          cbn [PyStr.chars list_ascii_of_string app];
          cbn [expr ItemStateCondition_re];
          rewrite run_seq_cons, run_bol; rewrite run_seq_cons; read_lit;
          rewrite run_seq_cons, run_ws_single by (done || by apply not_at_name);
          rewrite run_seq_cons; apply name_accepts; [done..|];
          rewrite run_seq_cons, run_ws_single by done;
          rewrite run_seq_cons;
          operator_steps; reflexivity
        | split_and!; [reflexivity|reflexivity|by rewrite <- Hstr] ]). }
  exists (Match caps (groupindex ItemStateCondition_re)). split_and!.
  - unfold re_match. change (ignorecase ItemStateCondition_re) with true.
    by rewrite Hrun.
  - unfold group, text_of, text_at. cbn. by rewrite H1.
  - done.
  - unfold group, text_of, text_at. cbn. by rewrite H9.
Qed.

Lemma ItemStateCondition_returns name symbol state :
  ItemStateCondition (VStr name) (VStr symbol) (VStr state)
  = Return (mkDescriptor "core.ItemStateCondition"
              (<["itemName" := VStr name]>
                 (<["operator" := VStr symbol]> {[ "state" := VStr state ]}))).
Proof.
  unfold ItemStateCondition. rewrite no_None_any_None; [done|]. keeps.
Qed.

(** [Item <name> <operator> <state>] for each spelling of an operator:
    the condition on the item with the operator that the spelling stands
    for and with the state, or the error of an item that the registry
    does not know. *)
Theorem operator_spellings_are_read {Item} (registry : Registry Item)
        name spelling symbol state w :
  (spelling, symbol) ∈ operator_spellings →
  a_name name → a_value state →
  onlyif_parse registry
    ("Item " +:+ name +:+ " " +:+ spelling +:+ " " +:+ state) w
  = (match getItem registry (VStr name) with
     | Some _ =>
         Return (Some (mkDescriptor "core.ItemStateCondition"
           (<["itemName" := VStr name]>
              (<["operator" := VStr symbol]> {[ "state" := VStr state ]}))))
     | None => Raise (invalid_item_name (VStr name))
     end,
     mkWorld (warnings w) (invoked w ++ ["ItemStateCondition"])).
Proof.
  intros Hin Hname Hstate.
  assert (Hstrip :
    PyStr.strip ("Item " +:+ name +:+ " " +:+ spelling +:+ " " +:+ state)
    = "Item " +:+ name +:+ " " +:+ spelling +:+ " " +:+ state).
  { destruct (a_value_last state
                (PyStr.chars ("Item " +:+ name +:+ " " +:+ spelling +:+ " "))
                Hstate) as (z & Hz & Hsz).
    apply (item_phrase_stripped _ z); [|done].
    by rewrite <- Hz, !chars_app, !(assoc_L (++)). }
  destruct (operator_is_captured name spelling symbol state Hin Hname Hstate)
    as (m & Hm & Hitem & Hop & Hst).
  apply (onlyif_parse_stops registry _ "Item" []
           (ItemStateCondition_class registry)
           (drop 1 (conditionClasses registry))).
  - by rewrite Hstrip.
  - by rewrite Hstrip.
  - reflexivity.
  - constructor.
  - reflexivity.
  - rewrite Hstrip. cbn [parse ItemStateCondition_class].
    unfold ItemStateCondition_parse. rewrite Hm, Hitem, Hop, Hst.
    destruct (getItem registry (VStr name)); [|done].
    by rewrite ItemStateCondition_returns.
  - by destruct (getItem registry (VStr name)).
Qed.

Lemma operator_spellings_are_read_witness :
  onlyif_parse demo_registry "Item Hall is less than or equal 5" quiet
  = (Return (Some (mkDescriptor "core.ItemStateCondition"
       (<["itemName" := VStr "Hall"]>
          (<["operator" := VStr "<="]> {[ "state" := VStr "5" ]})))),
     mkWorld [] ["ItemStateCondition"]).
Proof.
  apply (operator_spellings_are_read demo_registry "Hall"
           "is less than or equal" "<=" "5" quiet).
  - unfold operator_spellings. do 13 (apply elem_of_cons; right).
    apply elem_of_cons; by left.
  - split; [done|]. repeat constructor.
  - split; [done|]. repeat constructor.
Defined.

(** *** Phrases about the system, a thing and a channel *)

Lemma digit_is_not_space x : PyStr.is_digit x = true → PyStr.is_space x = false.
Proof. destruct x as [[] [] [] [] [] [] [] []]; vm_compute; congruence. Qed.

Lemma a_number_last v l :
  a_number v →
  ∃ z, last (l ++ PyStr.chars v) = Some z ∧ PyStr.is_space z = false.
Proof.
  intros [Hne Hv]. destruct (PyStr.chars v) as [|x xs] eqn:Hc using rev_ind.
  - by apply chars_nonempty in Hne.
  - exists x. rewrite (assoc_L (++)), last_snoc. split; [done|].
    apply Forall_app in Hv as [_ Hx]. apply digit_is_not_space. by inversion Hx.
Qed.

Lemma not_at_number v rest : a_number v → not_at PyStr.is_space (PyStr.chars v ++ rest).
Proof.
  intros [Hne Hv]. destruct (PyStr.chars v) as [|x xs] eqn:Hc;
    [by apply chars_nonempty in Hne|].
  cbn. apply digit_is_not_space. by inversion Hv.
Qed.

Lemma start_level_matches level :
  a_number level →
  re_match StartupTrigger_re ("System reached start level " +:+ level)
  = Some (Match [(1, level)] (groupindex StartupTrigger_re)).
Proof.
  intros Hlevel.
  run_pattern StartupTrigger_re (Some [(1, level)]).
  rewrite <- (app_nil_r (PyStr.chars level)).
  rewrite run_seq_cons, run_bol. rewrite run_seq_cons. read_lit.
  rewrite run_seq_cons, run_ws_single by done.
  rewrite run_seq_cons, run_alt_cons. read_lit. rewrite run_alt_one.
  rewrite run_seq_cons. read_lit.
  rewrite run_seq_cons, run_ws_single by done.
  rewrite run_seq_cons. read_lit.
  rewrite run_seq_cons, run_ws_single by done.
  rewrite run_seq_cons. read_lit.
  rewrite run_seq_cons, run_ws_single by (done || by apply not_at_number).
  rewrite run_seq_cons. unfold digit.
  destruct Hlevel as [Hne Hdigits].
  apply class_group_accepts; [done..|].
  by rewrite run_seq_nil, run_seq_cons.
Qed.

(** [System reached start level <n>]: the trigger of the start level,
    with the level as the text that the phrase has. *)
Theorem system_reached_start_level {Item} (registry : Registry Item) level w :
  a_number level →
  when_parse registry ("System reached start level " +:+ level) w
  = (Return (Some (Single (mkDescriptor "core.SystemStartlevelTrigger"
                                        {[ "startlevel" := VStr level ]}))),
     mkWorld (warnings w) (invoked w ++ ["StartupTrigger"])).
Proof.
  intros Hlevel.
  assert (Hstrip : PyStr.strip ("System reached start level " +:+ level)
                   = "System reached start level " +:+ level).
  { destruct (a_number_last level (PyStr.chars "System reached start level ")
                Hlevel) as (z & Hz & Hsz).
    apply (strip_id _ "S"%char z); [done| |done..].
    by rewrite <- Hz, chars_app. }
  apply (when_parse_stops registry _ "System" [] StartupTrigger_class
           (drop 1 (triggerClasses registry))).
  - by rewrite Hstrip.
  - reflexivity.
  - constructor.
  - reflexivity.
  - rewrite Hstrip. cbn [parse StartupTrigger_class]. unfold StartupTrigger_parse.
    by rewrite start_level_matches.
  - done.
Qed.

Lemma system_reached_start_level_witness :
  when_parse demo_registry "System reached start level 50" quiet
  = (Return (Some (Single (mkDescriptor "core.SystemStartlevelTrigger"
                                        {[ "startlevel" := VStr "50" ]}))),
     mkWorld [] ["StartupTrigger"]).
Proof.
  apply (system_reached_start_level demo_registry "50" quiet).
  split; [done|]. repeat constructor.
Defined.

Lemma uid_is_not_space x : uid_char x = true → PyStr.is_space x = false.
Proof. unfold uid_char. by intros [?%negb_true_iff _]%andb_prop. Qed.

Lemma uid_is_not_dquote x : uid_char x = true → x ≠ dquote.
Proof.
  unfold uid_char. intros [_ H%negb_true_iff]%andb_prop.
  by apply bool_decide_eq_false in H.
Qed.

Lemma a_uid_nws v :
  a_uid v → Forall (λ x, negb (PyStr.is_space x) = true) (PyStr.chars v).
Proof.
  intros [_ Hv]. eapply Forall_impl; [exact Hv|]. intros y Hy. cbn beta.
  by rewrite (uid_is_not_space y).
Qed.

Lemma a_uid_head v :
  a_uid v → ∃ x xs, PyStr.chars v = x :: xs ∧ uid_char x = true.
Proof.
  intros [Hne Hv]. destruct (PyStr.chars v) as [|x xs] eqn:Hc;
    [by apply chars_nonempty in Hne|].
  exists x, xs. by inversion Hv.
Qed.

Lemma not_at_uid v rest : a_uid v → not_at PyStr.is_space (PyStr.chars v ++ rest).
Proof.
  intros (x & xs & -> & Hx)%a_uid_head. cbn. by apply uid_is_not_space.
Qed.

Lemma a_uid_last v l :
  a_uid v →
  ∃ z, last (l ++ PyStr.chars v) = Some z ∧ PyStr.is_space z = false.
Proof.
  intros [Hne Hv]. destruct (PyStr.chars v) as [|x xs] eqn:Hc using rev_ind.
  - by apply chars_nonempty in Hne.
  - exists x. rewrite (assoc_L (++)), last_snoc. split; [done|].
    apply Forall_app in Hv as [_ Hx]. apply uid_is_not_space. by inversion Hx.
Qed.

(** The beginning of the thing patterns on [Thing <uid>]. *)
Ltac thing_head :=
  rewrite run_seq_cons, run_bol; rewrite run_seq_cons; read_lit;
  rewrite run_seq_cons, run_ws_single by (done || by apply not_at_uid);
  rewrite run_seq_cons; unfold nws.

Lemma thing_received_update_matches uid status :
  a_uid uid → an_optional_name status →
  re_match ThingStatusUpdateTrigger_re
    ("Thing " +:+ uid +:+ " received update" +:+ opt_part " " status)
  = Some (Match (match status with
                 | Some v => [(2, v); (1, uid)]
                 | None => [(1, uid)]
                 end) (groupindex ThingStatusUpdateTrigger_re)).
Proof.
  intros Huid Hstatus.
  run_pattern ThingStatusUpdateTrigger_re
    (Some (match status with
           | Some v => [(2, v); (1, uid)]
           | None => [(1, uid)]
           end)).
  thing_head.
  apply class_group_accepts; [by destruct Huid|by apply a_uid_nws|done|].
  rewrite run_seq_cons, run_ws_single by done.
  rewrite run_seq_cons. read_lit.
  rewrite run_seq_cons, run_ws_single by done.
  rewrite run_seq_cons. read_lit.
  rewrite run_seq_cons.
  destruct status as [v|]; cbn [opt_part an_optional_name] in *.
  - rewrite chars_app, <- (app_nil_r (PyStr.chars v)).
    cbn [PyStr.chars list_ascii_of_string app drop].
    eapply (run_star_once true _ _ _ _ _ _ [] _ ).
    + intros K HK.
      rewrite run_seq_cons, run_ws_single by (done || by apply not_at_name).
      rewrite run_seq_cons. apply name_accepts; [done..|].
      rewrite run_seq_nil. exact HK.
    + cbn [length]. lia.
    + intros K. by rewrite run_seq_cons, run_ws_none.
    + reflexivity.
  - cbn [PyStr.chars list_ascii_of_string drop].
    rewrite run_star_none; [reflexivity|].
    intros K. by rewrite run_seq_cons, run_ws_none.
Qed.

Lemma thing_phrase_stripped rest z :
  last (PyStr.chars ("Thing " +:+ rest)) = Some z →
  PyStr.is_space z = false →
  PyStr.strip ("Thing " +:+ rest) = "Thing " +:+ rest.
Proof. intros Hlast Hz. by apply (strip_id _ "T"%char z). Qed.

Lemma last_opt_name l keyword v z :
  an_optional_name v →
  last l = Some z → PyStr.is_space z = false →
  ∃ z', last (l ++ PyStr.chars (opt_part keyword v)) = Some z'
        ∧ PyStr.is_space z' = false.
Proof.
  intros Hv Hl Hz. destruct v as [v|]; cbn [opt_part an_optional_name] in *.
  - rewrite chars_app, (assoc_L (++)). by apply a_name_last.
  - cbn. rewrite (right_id_L [] (++)). by exists z.
Qed.

(** [Thing <uid> received update], with a status or without: the trigger
    of the thing with that status, or the error of a thing that the
    registry does not know. *)
Theorem thing_received_update {Item} (registry : Registry Item) uid status w :
  a_uid uid → an_optional_name status →
  when_parse registry
    ("Thing " +:+ uid +:+ " received update" +:+ opt_part " " status) w
  = (match getThing registry (VStr uid) with
     | Some _ => Return (Some (Single (ThingStatusUpdateTrigger (VStr uid)
                                                                (opt_value status))))
     | None => Raise (invalid_thing_uid (VStr uid))
     end,
     mkWorld (warnings w) (invoked w ++ ["ThingStatusUpdateTrigger"])).
Proof.
  intros Huid Hstatus.
  assert (Hstrip :
    PyStr.strip ("Thing " +:+ uid +:+ " received update" +:+ opt_part " " status)
    = "Thing " +:+ uid +:+ " received update" +:+ opt_part " " status).
  { destruct (last_opt_name (PyStr.chars ("Thing " +:+ uid +:+ " received update"))
                " " status "e"%char Hstatus) as (z & Hz & Hsz);
      [by rewrite !chars_app, !last_app|done|].
    apply (thing_phrase_stripped _ z); [|done].
    by rewrite <- Hz, !chars_app, !(assoc_L (++)). }
  apply (when_parse_stops registry _ "Thing"
           (take 8 (triggerClasses registry))
           (ThingStatusUpdateTrigger_class registry)
           (drop 9 (triggerClasses registry))).
  - by rewrite Hstrip.
  - reflexivity.
  - cbn [take triggerClasses]. repeat (constructor; [by intros [=]|]). constructor.
  - reflexivity.
  - rewrite Hstrip. cbn [parse ThingStatusUpdateTrigger_class].
    unfold ThingStatusUpdateTrigger_parse.
    rewrite thing_received_update_matches by done.
    destruct status as [v|]; cbn; by destruct (getThing registry (VStr uid)).
  - by destruct (getThing registry (VStr uid)).
Qed.

Lemma thing_received_update_witness :
  when_parse demo_registry "Thing kodi:kodi:familyroom received update ONLINE" quiet
  = (Return (Some (Single (ThingStatusUpdateTrigger (VStr "kodi:kodi:familyroom")
                                                    (VStr "ONLINE")))),
     mkWorld [] ["ThingStatusUpdateTrigger"]).
Proof.
  apply (thing_received_update demo_registry "kodi:kodi:familyroom"
           (Some "ONLINE") quiet).
  - split; [done|]. repeat constructor.
  - split; [done|]. repeat constructor.
Defined.

Lemma thing_changed_is_no_update uid rest :
  a_uid uid →
  re_match ThingStatusUpdateTrigger_re ("Thing " +:+ uid +:+ " changed" +:+ rest)
  = None.
Proof.
  intros Huid.
  run_pattern ThingStatusUpdateTrigger_re (@None captures).
  thing_head.
  apply class_group_rejects;
    [by intros y ?%negb_true_iff|by apply a_uid_nws|done|].
  intros pos c.
  rewrite run_seq_cons, run_ws_single by done.
  rewrite run_seq_cons. by read_lit.
Qed.

(** The two starred parts of the pattern of a change of status. *)
Lemma status_from_to previous status pos c :
  an_optional_name previous → an_optional_name status →
  run true
    (seq [star (seq [plus ws; lit "from"; plus ws; Grp 2 (plus word)]);
          star (seq [plus ws; lit "to"; plus ws; Grp 3 (plus word)]);
          Eol])
    pos (PyStr.chars (opt_part " from " previous +:+ opt_part " to " status)) c
    (λ _ _ c, Some c)
  = Some (match status with Some v => [(3, v)] | None => [] end
          ++ match previous with Some v => [(2, v)] | None => [] end ++ c).
Proof.
  intros Hprevious Hstatus.
  assert (Hto : ∀ pos c,
    run true (seq [star (seq [plus ws; lit "to"; plus ws; Grp 3 (plus word)]);
                   Eol])
        pos (PyStr.chars (opt_part " to " status)) c (λ _ _ c, Some c)
    = Some (match status with Some v => [(3, v)] | None => [] end ++ c)).
  { clear pos c. intros pos c. rewrite run_seq_cons.
    destruct status as [v|]; cbn [opt_part an_optional_name] in *.
    - rewrite chars_app, <- (app_nil_r (PyStr.chars v)).
      cbn [PyStr.chars list_ascii_of_string app].
      eapply (run_star_once true _ _ _ _ _ _ [] _ ).
      + intros K HK. rewrite run_seq_cons, run_ws_single by done.
        rewrite run_seq_cons. read_lit.
        rewrite run_seq_cons, run_ws_single by (done || by apply not_at_name).
        rewrite run_seq_cons. apply name_accepts; [done..|].
        rewrite run_seq_nil. exact HK.
      + cbn [length]. lia.
      + intros K. by rewrite run_seq_cons, run_ws_none.
      + reflexivity.
    - cbn [PyStr.chars list_ascii_of_string].
      rewrite run_star_none; [reflexivity|].
      intros K. by rewrite run_seq_cons, run_ws_none. }
  assert (Hnot : ∀ pos c K,
    run true (seq [plus ws; lit "from"; plus ws; Grp 2 (plus word)])
        pos (PyStr.chars (opt_part " to " status)) c K = None).
  { clear. intros pos c K. rewrite run_seq_cons.
    destruct status as [v|]; cbn [opt_part].
    - rewrite chars_app. cbn [PyStr.chars list_ascii_of_string app].
      rewrite run_ws_single by done. rewrite run_seq_cons. by read_lit.
    - by rewrite run_ws_none. }
  rewrite run_seq_cons.
  destruct previous as [u|]; cbn [opt_part an_optional_name] in *.
  - rewrite !chars_app. cbn [PyStr.chars list_ascii_of_string app].
    eapply (run_star_once true _ _ _ _ _ _ (PyStr.chars (opt_part " to " status)) _).
    + intros K HK. rewrite run_seq_cons, run_ws_single by done.
      rewrite run_seq_cons. read_lit.
      rewrite run_seq_cons, run_ws_single by (done || by apply not_at_name).
      rewrite run_seq_cons. apply name_accepts; [done| |].
      * destruct status; cbn [opt_part]; [by rewrite chars_app|done].
      * rewrite run_seq_nil. exact HK.
    + cbn [length]. rewrite length_app. lia.
    + apply Hnot.
    + by rewrite Hto.
  - cbn [String.append app].
    rewrite run_star_none by apply Hnot. apply Hto.
Qed.

Lemma thing_changed_matches uid previous status :
  a_uid uid → an_optional_name previous → an_optional_name status →
  re_match ThingStatusChangeTrigger_re
    ("Thing " +:+ uid +:+ " changed" +:+ opt_part " from " previous
     +:+ opt_part " to " status)
  = Some (Match (match status with Some v => [(3, v)] | None => [] end
                 ++ match previous with Some v => [(2, v)] | None => [] end
                 ++ [(1, uid)])
                (groupindex ThingStatusChangeTrigger_re)).
Proof.
  intros Huid Hprevious Hstatus.
  run_pattern ThingStatusChangeTrigger_re
    (Some (match status with Some v => [(3, v)] | None => [] end
           ++ match previous with Some v => [(2, v)] | None => [] end
           ++ [(1, uid)])).
  thing_head.
  apply class_group_accepts; [by destruct Huid|by apply a_uid_nws|done|].
  rewrite run_seq_cons, run_ws_single by done.
  rewrite run_seq_cons. read_lit. rewrite drop_0, <- chars_app.
  by apply status_from_to.
Qed.

(** [Thing <uid> changed], with [from <status>] and [to <status>] or
    without: the update class declines, the change class gives the trigger
    of the thing with the two statuses, or the error of a thing that the
    registry does not know. *)
Theorem thing_changed {Item} (registry : Registry Item) uid previous status w :
  a_uid uid → an_optional_name previous → an_optional_name status →
  when_parse registry
    ("Thing " +:+ uid +:+ " changed" +:+ opt_part " from " previous
     +:+ opt_part " to " status) w
  = (match getThing registry (VStr uid) with
     | Some _ => Return (Some (Single (ThingStatusChangeTrigger (VStr uid)
                                         (opt_value previous) (opt_value status))))
     | None => Raise (invalid_thing_uid (VStr uid))
     end,
     mkWorld (warnings w)
       (invoked w ++ ["ThingStatusUpdateTrigger"; "ThingStatusChangeTrigger"])).
Proof.
  intros Huid Hprevious Hstatus.
  assert (Hstrip :
    PyStr.strip ("Thing " +:+ uid +:+ " changed" +:+ opt_part " from " previous
                 +:+ opt_part " to " status)
    = "Thing " +:+ uid +:+ " changed" +:+ opt_part " from " previous
      +:+ opt_part " to " status).
  { destruct (last_opt_name (PyStr.chars ("Thing " +:+ uid +:+ " changed"))
                " from " previous "d"%char Hprevious) as (z & Hz & Hsz);
      [by rewrite !chars_app, !last_app|done|].
    destruct (last_opt_name _ " to " status z Hstatus Hz Hsz) as (z' & Hz' & Hsz').
    apply (thing_phrase_stripped _ z'); [|done].
    by rewrite <- Hz', !chars_app, !(assoc_L (++)). }
  apply (when_parse_stops registry _ "Thing"
           (take 9 (triggerClasses registry))
           (ThingStatusChangeTrigger_class registry)
           (drop 10 (triggerClasses registry))).
  - by rewrite Hstrip.
  - reflexivity.
  - rewrite Hstrip. cbn [take triggerClasses].
    repeat (constructor; [first [by intros [=] | intros _]|]); [|constructor].
    cbn [parse ThingStatusUpdateTrigger_class].
    unfold ThingStatusUpdateTrigger_parse.
    by rewrite thing_changed_is_no_update.
  - reflexivity.
  - rewrite Hstrip. cbn [parse ThingStatusChangeTrigger_class].
    unfold ThingStatusChangeTrigger_parse.
    rewrite thing_changed_matches by done.
    destruct previous as [u|], status as [v|]; cbn;
      by destruct (getThing registry (VStr uid)).
  - by destruct (getThing registry (VStr uid)).
Qed.

Lemma thing_changed_witness :
  when_parse demo_registry
    "Thing kodi:kodi:familyroom changed from ONLINE to OFFLINE" quiet
  = (Return (Some (Single (ThingStatusChangeTrigger (VStr "kodi:kodi:familyroom")
                             (VStr "ONLINE") (VStr "OFFLINE")))),
     mkWorld [] ["ThingStatusUpdateTrigger"; "ThingStatusChangeTrigger"]).
Proof.
  apply (thing_changed demo_registry "kodi:kodi:familyroom"
           (Some "ONLINE") (Some "OFFLINE") quiet).
  - split; [done|]. repeat constructor.
  - split; [done|]. repeat constructor.
  - split; [done|]. repeat constructor.
Defined.

(** *** Phrases about a channel *)

Lemma chr_eq_dquote x : chr_eq true dquote x = bool_decide (x = dquote).
Proof. by destruct x as [[] [] [] [] [] [] [] []]. Qed.

Lemma quote_mark_nws closed :
  Forall (λ x, negb (PyStr.is_space x) = true) (PyStr.chars (quote_mark closed)).
Proof. destruct closed; repeat constructor. Qed.

Lemma uid_with_quote uid closed :
  a_uid uid →
  uid +:+ quote_mark closed ≠ ""
  ∧ Forall (λ x, negb (PyStr.is_space x) = true)
           (PyStr.chars (uid +:+ quote_mark closed)).
Proof.
  intros Huid. split.
  - destruct Huid as [Hne _]. by destruct uid.
  - rewrite chars_app. apply Forall_app. split;
      [by apply a_uid_nws|apply quote_mark_nws].
Qed.

Lemma channel_triggered_matches opened uid closed event :
  a_uid uid → an_optional_name event →
  re_match ChannelEventTrigger_re
    ("Channel " +:+ quote_mark opened +:+ uid +:+ quote_mark closed
     +:+ " triggered" +:+ opt_part " " event)
  = Some (Match (match event with
                 | Some v => [(2, v); (1, uid +:+ quote_mark closed)]
                 | None => [(1, uid +:+ quote_mark closed)]
                 end) (groupindex ChannelEventTrigger_re)).
Proof.
  intros Huid Hevent.
  destruct (uid_with_quote uid closed Huid) as [Hne Hnws].
  run_pattern ChannelEventTrigger_re
    (Some (match event with
           | Some v => [(2, v); (1, uid +:+ quote_mark closed)]
           | None => [(1, uid +:+ quote_mark closed)]
           end)).
  rewrite run_seq_cons, run_bol. rewrite run_seq_cons. read_lit.
  rewrite run_seq_cons.
  assert (Hstart : not_at PyStr.is_space
            (PyStr.chars (quote_mark opened)
             ++ PyStr.chars uid ++ PyStr.chars (quote_mark closed)
             ++ PyStr.chars " triggered" ++ PyStr.chars (opt_part " " event))).
  { destruct opened; cbn [quote_mark PyStr.chars list_ascii_of_string app];
      [done|by apply not_at_uid]. }
  cbn [PyStr.chars list_ascii_of_string] in Hstart.
  rewrite run_ws_single by done.
  rewrite run_seq_cons.
  rewrite (assoc_L (++) (PyStr.chars uid)), <- chars_app.
  assert (Hgo : ∀ pos c,
    run true
      (seq [Grp 1 (plus nws); star (Chr dquote); plus ws; lit "triggered";
            star (seq [plus ws; Grp 2 (plus word)]); Eol])
      pos
      (PyStr.chars (uid +:+ quote_mark closed)
       ++ " "%char :: PyStr.chars "triggered" ++ PyStr.chars (opt_part " " event)) c
      (λ _ _ c, Some c)
    = Some (match event with Some v => [(2, v)] | None => [] end
            ++ (1, uid +:+ quote_mark closed) :: c)).
  { clear Hstart. intros pos c. rewrite run_seq_cons. unfold nws.
    apply class_group_accepts; [done..|].
    rewrite run_seq_cons.
    rewrite run_star_none
      by (intros K; cbn [run]; by rewrite chr_eq_dquote).
    rewrite run_seq_cons, run_ws_single by done.
    rewrite run_seq_cons. read_lit.
    rewrite run_seq_cons.
    destruct event as [v|]; cbn [opt_part an_optional_name] in *.
    - rewrite chars_app, <- (app_nil_r (PyStr.chars v)).
      cbn [PyStr.chars list_ascii_of_string app drop].
      eapply (run_star_once true _ _ _ _ _ _ [] _ ).
      + intros K HK.
        rewrite run_seq_cons, run_ws_single by (done || by apply not_at_name).
        rewrite run_seq_cons. apply name_accepts; [done..|].
        rewrite run_seq_nil. exact HK.
      + cbn [length]. lia.
      + intros K. by rewrite run_seq_cons, run_ws_none.
      + reflexivity.
    - cbn [PyStr.chars list_ascii_of_string drop].
      rewrite run_star_none; [reflexivity|].
      intros K. by rewrite run_seq_cons, run_ws_none. }
  assert (Hhead : ∀ pos c K, run true (Chr dquote) pos
            (PyStr.chars (uid +:+ quote_mark closed)
             ++ " "%char :: PyStr.chars "triggered"
             ++ PyStr.chars (opt_part " " event)) c K = None).
  { intros pos c K. rewrite chars_app.
    destruct (a_uid_head uid Huid) as (x & xs & -> & Hx).
    cbn [run app]. rewrite chr_eq_dquote.
    by rewrite (bool_decide_eq_false_2 _ (uid_is_not_dquote x Hx)). }
  cbn [PyStr.chars list_ascii_of_string app] in *.
  destruct opened; cbn [quote_mark PyStr.chars list_ascii_of_string app].
  - eapply (run_star_once true _ _ _ _ _ _ _ _).
    + intros K HK. cbn [run]. rewrite chr_eq_dquote.
      rewrite bool_decide_eq_true_2 by done. exact HK.
    + cbn [length]. lia.
    + apply Hhead.
    + cbv beta. rewrite Hgo. by destruct event.
  - rewrite run_star_none by apply Hhead.
    rewrite Hgo. by destruct event.
Qed.

(** [Channel <uid> triggered], with an event or without, the UID between
    double quotes or not: a quote before the UID is dropped, a quote behind
    it stays a part of the UID, which the registry is asked for and the
    trigger is given; the error of an unknown channel names it too. *)
Theorem channel_triggered {Item} (registry : Registry Item)
        opened uid closed event w :
  a_uid uid → an_optional_name event →
  when_parse registry
    ("Channel " +:+ quote_mark opened +:+ uid +:+ quote_mark closed
     +:+ " triggered" +:+ opt_part " " event) w
  = (match getChannel registry (VStr (uid +:+ quote_mark closed)) with
     | Some _ =>
         Return (Some (Single (ChannelEventTrigger
                                 (VStr (uid +:+ quote_mark closed))
                                 (opt_value event))))
     | None => Raise (invalid_channel_uid (VStr (uid +:+ quote_mark closed)))
     end,
     mkWorld (warnings w) (invoked w ++ ["ChannelEventTrigger"])).
Proof.
  intros Huid Hevent.
  assert (Hstrip :
    PyStr.strip ("Channel " +:+ quote_mark opened +:+ uid +:+ quote_mark closed
                 +:+ " triggered" +:+ opt_part " " event)
    = "Channel " +:+ quote_mark opened +:+ uid +:+ quote_mark closed
      +:+ " triggered" +:+ opt_part " " event).
  { destruct (last_opt_name
                (PyStr.chars ("Channel " +:+ quote_mark opened +:+ uid
                              +:+ quote_mark closed +:+ " triggered"))
                " " event "d"%char Hevent) as (z & Hz & Hsz);
      [by rewrite !chars_app, !last_app|done|].
    apply (strip_id _ "C"%char z); [done| |done..].
    by rewrite <- Hz, !chars_app, !(assoc_L (++)). }
  apply (when_parse_stops registry _ "Channel"
           (take 5 (triggerClasses registry))
           (ChannelEventTrigger_class registry)
           (drop 6 (triggerClasses registry))).
  - by rewrite Hstrip.
  - reflexivity.
  - cbn [take triggerClasses]. repeat (constructor; [by intros [=]|]). constructor.
  - reflexivity.
  - rewrite Hstrip. cbn [parse ChannelEventTrigger_class].
    unfold ChannelEventTrigger_parse.
    rewrite channel_triggered_matches by done.
    destruct event as [v|]; cbn;
      by destruct (getChannel registry (VStr (uid +:+ quote_mark closed))).
  - by destruct (getChannel registry (VStr (uid +:+ quote_mark closed))).
Qed.

Lemma channel_triggered_witness :
  when_parse demo_registry
    ("Channel " +:+ quote_mark true +:+ "astro:sun:local:rise#event"
     +:+ quote_mark true +:+ " triggered" +:+ opt_part " " (Some "START")) quiet
  = (Raise (invalid_channel_uid
              (VStr ("astro:sun:local:rise#event" +:+ quote_mark true))),
     mkWorld [] ["ChannelEventTrigger"]).
Proof.
  apply (channel_triggered demo_registry true "astro:sun:local:rise#event" true
           (Some "START") quiet).
  - split; [done|]. repeat constructor.
  - split; [done|]. repeat constructor.
Defined.

(** *** Phrases about a day *)

Section Optional.
Variable icase : bool.
Implicit Types (g : regex) (k : cont) (c res : captures) (s : list ascii).

(** An optional part whose body does not match is passed over. *)
Lemma run_opt_skip g pos s c k :
  (∀ K, run icase g pos s c K = None) →
  run icase (opt g) pos s c k = k pos s c.
Proof.
  intros Hg. unfold opt. cbn [run rep_loop].
  change (0 <? 1)%nat with true. cbv iota. by rewrite Hg.
Qed.

(** An optional part that is taken. *)
Lemma run_opt_once g pos s c k pos1 s1 c1 res :
  (∀ K, K pos1 s1 c1 = Some res → run icase g pos s c K = Some res) →
  (length s1 < length s)%nat →
  k pos1 s1 c1 = Some res →
  run icase (opt g) pos s c k = Some res.
Proof.
  intros Hg Hlen Hk. unfold opt. cbn [run rep_loop].
  change (0 <? 1)%nat with true. cbv iota.
  rewrite Hg; [done|].
  pose proof Hlen as ->%Nat.ltb_lt.
  destruct s as [|x s]; [cbn in Hlen; lia|].
  cbn [length rep_loop]. change (1 <? 1)%nat with false. by cbv iota.
Qed.

Lemma or_else_first {A} (a b : option A) x :
  a = Some x → match a with Some c => Some c | None => b end = Some x.
Proof. by intros ->. Qed.

End Optional.

Lemma a_token_nws d :
  a_token d → Forall (λ x, negb (PyStr.is_space x) = true) (PyStr.chars d).
Proof.
  intros [_ Hd]. eapply Forall_impl; [exact Hd|]. intros y Hy. cbn beta.
  by rewrite Hy.
Qed.

Lemma a_token_chars d : a_token d → PyStr.chars d ≠ [].
Proof. intros [Hne _] Hc. by apply chars_nonempty in Hne. Qed.

(** A word of the pattern and [\s+] do not match inside a day type. *)
Lemma keyword_blank_rejects i kw d pos c K :
  a_token d →
  run true (Grp i (seq [lit kw; plus ws])) pos (PyStr.chars d) c K = None.
Proof.
  intros [_ Hd]. rewrite run_grp, run_seq_cons, run_lit.
  destruct (starts_with _ _ _); [|done].
  rewrite run_seq_cons, run_ws_none; [done|].
  pose proof (Forall_drop _ (length (PyStr.chars kw)) _ Hd) as Hdrop.
  destruct (drop _ _) as [|y ys]; [done|]. by inversion Hdrop.
Qed.

Lemma at_eol_token l :
  Forall (λ x, PyStr.is_space x = false) l → at_eol l = true → l = [].
Proof.
  intros Hl. destruct l as [|x [|y l]]; [done| |done].
  cbn. intros ->%bool_decide_eq_true. by inversion Hl.
Qed.

(** A literal day type before the end of the phrase matches the whole of
    the day type or it does not match. *)
Lemma lit_whole_or_none w i d pos c K :
  a_token d →
  (∀ pos' s',
     K pos' s' c
     = if at_eol s'
       then Some ((i, PyStr.str (take (pos' - pos) (PyStr.chars d))) :: c)
       else None) →
  run true (lit w) pos (PyStr.chars d) c K = None
  ∨ run true (lit w) pos (PyStr.chars d) c K = Some ((i, d) :: c).
Proof.
  intros [_ Hd] HK. rewrite run_lit.
  destruct (starts_with _ _ _); [|by left].
  rewrite HK.
  destruct (at_eol _) eqn:He; [right|by left].
  apply at_eol_token in He; [|by apply Forall_drop].
  apply (f_equal length) in He. rewrite length_drop in He. cbn in He.
  rewrite take_ge by lia. by rewrite str_chars.
Qed.

(** The day type at the end of a phrase is captured whole. *)
Lemma daytype_accepts d pos c :
  a_token d →
  run true
    (seq [Grp 11 (alt [lit "holiday"; lit "weekday"; lit "weekend"; plus nws]);
          Eol])
    pos (PyStr.chars d) c (λ _ _ c, Some c)
  = Some ((11, d) :: c).
Proof.
  intros Hd. rewrite run_seq_cons, run_grp.
  do 3 (rewrite run_alt_cons;
        match goal with
        | |- match run true (lit ?w) ?pos ?s ?c ?K with _ => _ end = _ =>
            destruct (lit_whole_or_none w 11 d pos c K Hd) as [-> | ->];
            [done| |done]
        end).
  rewrite run_alt_one. unfold nws.
  rewrite <- (app_nil_r (PyStr.chars d)) at 1.
  apply run_plus_class; [by apply a_token_chars|by apply a_token_nws|done|].
  cbn [run seq foldr at_eol].
  replace (pos + length (PyStr.chars d) - pos)%nat
    with (length (PyStr.chars d)) by lia.
  by rewrite firstn_all, str_chars.
Qed.

Lemma not_at_token d rest : a_token d → not_at PyStr.is_space (PyStr.chars d ++ rest).
Proof.
  intros [Hne Hd]. destruct (PyStr.chars d) as [|x xs] eqn:Hc;
    [by apply chars_nonempty in Hne|].
  cbn. by inversion Hd.
Qed.

(** A day type, with the article or without it, is taken by the end of
    the pattern. *)
Lemma day_predicate_accepts given d pos c :
  a_token d →
  run true day_predicate pos (" "%char :: PyStr.chars (article given +:+ d)) c
      (λ _ _ c, Some c)
  = Some ((11, d) :: (if given then [(10, "a ")] else []) ++ c).
Proof.
  intros Hd. unfold day_predicate. rewrite chars_app.
  pose proof (not_at_token d [] Hd) as Hnot. rewrite app_nil_r in Hnot.
  destruct given; cbn [article PyStr.chars list_ascii_of_string app].
  - rewrite run_seq_cons, run_ws_single by done.
    rewrite run_seq_cons, run_opt_skip
      by (intros K; rewrite run_grp, run_seq_cons; by read_lit).
    rewrite run_seq_cons, run_opt_skip
      by (intros K; rewrite run_grp, run_seq_cons; by read_lit).
    rewrite run_seq_cons.
    eapply (run_opt_once true _ _ _ _ _ (S (S (S pos))) (PyStr.chars d)
              ((10, "a ") :: c)).
    + intros K HK. rewrite run_grp, run_seq_cons. read_lit.
      rewrite run_seq_cons, run_ws_single by done.
      rewrite run_seq_nil.
      match goal with
      | |- context [take ?n _] => replace n with 2%nat by lia
      end.
      cbn [take PyStr.str string_of_list_ascii].
      match goal with
      | |- K ?p _ _ = _ => replace p with (S (S (S pos))) by lia
      end.
      exact HK.
    + cbn [length]. lia.
    + by rewrite daytype_accepts.
  - rewrite run_seq_cons, run_ws_single by done.
    do 3 (rewrite run_seq_cons, run_opt_skip
            by (intros K; by apply keyword_blank_rejects)).
    by rewrite daytype_accepts.
Qed.

(** The end of the pattern does not take [is] for a day type when more
    follows. *)
Lemma day_predicate_rejects_is rest pos c :
  rest ≠ [] →
  run true day_predicate pos
      (" "%char :: "i"%char :: "s"%char :: " "%char :: rest) c (λ _ _ c, Some c)
  = None.
Proof.
  intros Hrest. unfold day_predicate.
  rewrite run_seq_cons, run_ws_single by done.
  do 3 (rewrite run_seq_cons, run_opt_skip
          by (intros K; rewrite run_grp, run_seq_cons; by read_lit)).
  rewrite run_seq_cons, run_grp.
  do 3 (rewrite run_alt_cons; read_lit).
  rewrite run_alt_one. unfold nws.
  apply (run_plus_class_fails true _ _ ["i"%char; "s"%char] (" "%char :: rest));
    [by repeat constructor|done|].
  intros [|[|[|i]]] Hi; cbn [length] in Hi; [..|lia];
    cbn [drop app run seq foldr at_eol]; by destruct rest.
Qed.

Lemma chr_eq_minus_digit x : PyStr.is_digit x = true → chr_eq true "-" x = false.
Proof. destruct x as [[] [] [] [] [] [] [] []]; vm_compute; congruence. Qed.

Lemma a_number_chars n :
  a_number n →
  ∃ x xs, PyStr.chars n = x :: xs ∧ PyStr.is_digit x = true
          ∧ Forall (λ y, PyStr.is_digit y = true) xs.
Proof.
  intros [Hne Hn]. destruct (PyStr.chars n) as [|x xs] eqn:Hc;
    [by apply chars_nonempty in Hne|].
  exists x, xs. by inversion Hn.
Qed.

(** [-?\d+] in its group takes a number with its sign. *)
Lemma signed_number_accepts negative n rest pos c k res :
  a_number n → not_at PyStr.is_digit rest →
  k (pos + length (PyStr.chars (minus_sign negative +:+ n)))%nat rest
    ((7, minus_sign negative +:+ n) :: c) = Some res →
  run true (Grp 7 (seq [opt (lit "-"); plus digit])) pos
      (PyStr.chars (minus_sign negative +:+ n) ++ rest) c k = Some res.
Proof.
  intros Hn Hrest Hk. pose proof Hn as [Hne Hdigits].
  rewrite run_grp, run_seq_cons. rewrite chars_app in *.
  destruct negative; cbn [minus_sign PyStr.chars list_ascii_of_string app] in *.
  - eapply (run_opt_once true _ _ _ _ _ (S pos) (PyStr.chars n ++ rest) c).
    + intros K HK. rewrite run_lit.
      cbn [PyStr.chars list_ascii_of_string starts_with drop length].
      compare_chars. cbn [andb]. by replace (pos + 1)%nat with (S pos) by lia.
    + cbn [length]. lia.
    + rewrite run_seq_cons. unfold digit.
      apply run_plus_class; [by apply chars_nonempty|done|done|].
      rewrite run_seq_nil.
      replace (S pos + length (PyStr.chars n) - pos)%nat
        with (S (length (PyStr.chars n))) by lia.
      cbn [take]. rewrite take_app_length.
      cbn [PyStr.str string_of_list_ascii]. fold (PyStr.str (PyStr.chars n)).
      rewrite str_chars.
      cbn [length] in Hk.
      by replace (S pos + length (PyStr.chars n))%nat
        with (pos + S (length (PyStr.chars n)))%nat by lia.
  - rewrite run_opt_skip.
    + rewrite run_seq_cons. unfold digit.
      apply run_plus_class; [by apply chars_nonempty|done|done|].
      rewrite run_seq_nil.
      replace (pos + length (PyStr.chars n) - pos)%nat
        with (length (PyStr.chars n)) by lia.
      by rewrite take_app_length, str_chars.
    + intros K. rewrite run_lit.
      destruct (a_number_chars n Hn) as (x & xs & -> & Hx & _).
      cbn [PyStr.chars list_ascii_of_string starts_with app].
      by rewrite chr_eq_minus_digit.
Qed.

Lemma article_daytype_chars given d :
  a_token d → PyStr.chars (article given +:+ d) ≠ [].
Proof.
  intros Hd. rewrite chars_app. destruct given; [done|].
  by apply a_token_chars.
Qed.

(** [Today plus 1] and [Today minus 1] without [is]: the [1] is not taken
    for the whole offset when [is] follows it. *)
Lemma one_rejects negative n given d pos c K :
  a_number n → a_token d →
  (∀ pos' s' c', ∃ c'',
     K pos' s' c' = run true day_predicate pos' s' c'' (λ _ _ c, Some c)) →
  run true (lit "1") pos
      (PyStr.chars (minus_sign negative +:+ n)
       ++ " "%char :: "i"%char :: "s"%char :: " "%char
       :: PyStr.chars (article given +:+ d)) c K
  = None.
Proof.
  intros Hn Hd HK. rewrite run_lit, chars_app.
  destruct negative; cbn [minus_sign PyStr.chars list_ascii_of_string app].
  - cbn [starts_with]. by compare_chars.
  - destruct (a_number_chars n Hn) as (x & xs & -> & Hx & Hxs).
    cbn [starts_with app]. destruct (chr_eq true "1" x); [|done].
    cbn [andb length drop].
    match goal with |- K ?p ?s ?c = _ => destruct (HK p s c) as [c'' ->] end.
    destruct xs as [|y ys]; cbn [app].
    + apply day_predicate_rejects_is. by apply article_daytype_chars.
    + unfold day_predicate. rewrite run_seq_cons, run_ws_none; [done|].
      cbn. apply digit_is_not_space. by inversion Hxs.
Qed.

Lemma offset_phrase_chars word negative n given d :
  PyStr.chars ("Today " +:+ word +:+ " " +:+ minus_sign negative +:+ n
               +:+ " is " +:+ article given +:+ d)
  = PyStr.chars "Today " ++ PyStr.chars word
    ++ " "%char :: PyStr.chars (minus_sign negative +:+ n)
    ++ " "%char :: "i"%char :: "s"%char :: " "%char
    :: PyStr.chars (article given +:+ d).
Proof.
  rewrite !chars_app. cbn [PyStr.chars list_ascii_of_string app].
  by rewrite <- !(assoc_L (++)).
Qed.

(** The steps of the pattern's first three alternatives, which fail, to
    the group of the word before the offset. *)
Ltac to_the_offset_word :=
  rewrite run_seq_cons, run_bol;
  rewrite run_seq_cons, run_grp, run_alt_cons;
  rewrite run_grp, run_alt_cons, run_seq_cons; read_lit;
  rewrite run_seq_cons, run_ws_single by done;
  rewrite run_seq_cons; read_lit;
  rewrite run_alt_one, run_seq_cons; read_lit;
  do 2 (rewrite run_alt_cons, run_grp, run_alt_cons, run_seq_cons; read_lit;
        rewrite run_alt_one, run_seq_cons; read_lit;
        rewrite run_seq_cons, run_ws_single by done;
        rewrite run_seq_cons; read_lit;
        try (rewrite run_seq_cons, run_ws_single by done;
             rewrite run_seq_cons;
             rewrite one_rejects by (done || (intros; eexists; reflexivity))));
  rewrite run_alt_one, run_grp, run_seq_cons; read_lit;
  rewrite run_seq_cons, run_ws_single by done;
  rewrite run_seq_cons, run_grp.

(** The steps from the offset to the end of the phrase. *)
Ltac from_the_offset :=
  rewrite run_seq_cons, run_ws_single by done;
  (rewrite run_seq_cons; apply signed_number_accepts; [done..|]);
  rewrite run_seq_cons, run_ws_single by done;
  rewrite run_seq_cons; read_lit; rewrite run_seq_nil;
  by apply day_predicate_accepts.

(** What the pattern captures in [Today <plus|minus|offset> <number> is
    <day type>]: the number as the offset and the day type; the groups of
    today, of the day after and of the day before are not set. *)
Lemma offset_phrase_captures word negative n given d :
  word ∈ offset_words → a_number n → a_token d →
  ∃ caps,
    run true (expr EphemerisCondition_re) 0
      (PyStr.chars ("Today " +:+ word +:+ " " +:+ minus_sign negative +:+ n
                    +:+ " is " +:+ article given +:+ d)) []
      (λ _ _ c, Some c) = Some caps
    ∧ assoc 2 caps = None ∧ assoc 3 caps = None ∧ assoc 4 caps = None
    ∧ assoc 7 caps = Some (minus_sign negative +:+ n)
    ∧ assoc 8 caps = None
    ∧ assoc 11 caps = Some d.
Proof.
  intros Hin Hn Hd. rewrite offset_phrase_chars.
  assert (Hsign : ∀ rest,
            not_at PyStr.is_space (PyStr.chars (minus_sign negative +:+ n) ++ rest)).
  { intros rest. rewrite chars_app.
    destruct negative; [done|by apply not_at_number]. }
  cbn [expr EphemerisCondition_re].
  unfold offset_words in Hin.
  repeat (apply elem_of_cons in Hin as [->|Hin]); [..|by apply elem_of_nil in Hin];
    cbn [PyStr.chars list_ascii_of_string app]; to_the_offset_word;
    eexists.
  - split.
    + rewrite run_alt_cons. apply or_else_first. read_lit. from_the_offset.
    + by destruct given.
  - split.
    + rewrite run_alt_cons. read_lit.
      rewrite run_alt_cons. apply or_else_first. read_lit. from_the_offset.
    + by destruct given.
  - split.
    + rewrite run_alt_cons. read_lit. rewrite run_alt_cons. read_lit.
      rewrite run_alt_one. read_lit. from_the_offset.
    + by destruct given.
Qed.

Lemma a_token_last d l :
  a_token d →
  ∃ z, last (l ++ PyStr.chars d) = Some z ∧ PyStr.is_space z = false.
Proof.
  intros [Hne Hd]. destruct (PyStr.chars d) as [|x xs] eqn:Hc using rev_ind.
  - by apply chars_nonempty in Hne.
  - exists x. rewrite (assoc_L (++)), last_snoc. split; [done|].
    apply Forall_app in Hd as [_ Hx]. by inversion Hx.
Qed.

(** [Today plus <n> is <day type>], [Today minus <n> is ...] and [Today
    offset <n> is ...] give one and the same condition: its offset is the
    number as the phrase has it, a text, with the minus sign that is
    written before the digits and with no other; the word before the
    number plays no part. *)
Theorem offset_is_the_number_as_written {Item} (registry : Registry Item)
        word negative n given d w :
  word ∈ offset_words → a_number n → a_token d →
  onlyif_parse registry
    ("Today " +:+ word +:+ " " +:+ minus_sign negative +:+ n
     +:+ " is " +:+ article given +:+ d) w
  = (Return (Some (EphemerisCondition (VStr d)
                                      (VStr (minus_sign negative +:+ n)))),
     mkWorld (warnings w) (invoked w ++ ["EphemerisCondition"])).
Proof.
  intros Hin Hn Hd.
  set (phrase := "Today " +:+ word +:+ " " +:+ minus_sign negative +:+ n
                 +:+ " is " +:+ article given +:+ d).
  assert (Hstrip : PyStr.strip phrase = phrase).
  { unfold phrase.
    destruct (a_token_last d
                (PyStr.chars ("Today " +:+ word +:+ " " +:+ minus_sign negative
                              +:+ n +:+ " is " +:+ article given)) Hd)
      as (z & Hz & Hsz).
    apply (strip_id _ "T"%char z); [done| |done..].
    by rewrite <- Hz, !chars_app, !(assoc_L (++)). }
  destruct (offset_phrase_captures word negative n given d Hin Hn Hd)
    as (found & Hrun & H2 & H3 & H4 & H7 & H8 & H11).
  apply (onlyif_parse_stops registry _ "Today"
           [ItemStateCondition_class registry]
           (EphemerisCondition_class)
           (drop 2 (conditionClasses registry))).
  - by rewrite Hstrip.
  - by rewrite Hstrip.
  - reflexivity.
  - constructor; [by intros [=]|constructor].
  - reflexivity.
  - rewrite Hstrip. cbn [parse EphemerisCondition_class].
    unfold EphemerisCondition_parse, re_match.
    change (ignorecase EphemerisCondition_re) with true.
    fold phrase in Hrun. rewrite Hrun.
    unfold ephemeris_offset, ephemeris_daytype, group, text_of.
    cbn [names caps groupindex EphemerisCondition_re index_of String.eqb
         Ascii.eqb Bool.eqb text_at].
    unfold text_at. cbn [Re.caps].
    rewrite H2, H3, H4, H7, H8, H11. reflexivity.
  - done.
Qed.

Lemma offset_is_the_number_as_written_witness :
  onlyif_parse demo_registry "Today minus 3 is a weekend" quiet
  = (Return (Some (mkDescriptor "ephemeris.WeekendCondition"
                                {[ "offset" := VStr "3" ]})),
     mkWorld [] ["EphemerisCondition"]).
Proof.
  apply (offset_is_the_number_as_written demo_registry "minus" false "3" true
           "weekend" quiet).
  - unfold offset_words. apply elem_of_cons; right. apply elem_of_cons; by left.
  - split; [done|]. repeat constructor.
  - split; [done|]. repeat constructor.
Defined.

(** *** Phrases about a directory *)

(** A repetition goes round once for each of the [pieces] that its body
    takes, and stops where the body does not match. *)
Lemma rep_loop_rounds body lo k res rest c pieces :
  Forall (λ piece,
            piece ≠ []
            ∧ ∀ pos s K, K (pos + length piece)%nat s c = Some res →
                         body pos (piece ++ s) c K = Some res) pieces →
  (∀ pos K, body pos rest c K = None) →
  ∀ fuel count pos,
    (lo ≤ count + length pieces)%nat →
    (length (concat pieces ++ rest) < fuel)%nat →
    k (pos + length (concat pieces))%nat rest c = Some res →
    rep_loop body lo None k fuel count pos (concat pieces ++ rest) c = Some res.
Proof.
  intros Hpieces Hstop.
  induction Hpieces as [|piece pieces [Hne Hpiece] _ IH];
    intros fuel count pos Hlo Hfuel Hk.
  - destruct fuel as [|fuel]; [cbn in Hfuel; lia|].
    cbn [concat app rep_loop]. rewrite Hstop.
    cbn in Hlo, Hk. rewrite Nat.add_0_r in Hlo, Hk.
    by apply Nat.leb_le in Hlo as ->.
  - destruct fuel as [|fuel]; [cbn in Hfuel; lia|].
    cbn [concat] in *. rewrite <- (assoc_L (++)).
    cbn [rep_loop]. rewrite Hpiece; [done|].
    rewrite !length_app in *.
    assert ((length (concat pieces) + length rest
             <? length piece + (length (concat pieces) + length rest))%nat = true)
      as ->.
    { apply Nat.ltb_lt. destruct piece; [done|cbn; lia]. }
    apply IH.
    + cbn [length] in Hlo. lia.
    + assert (0 < length piece)%nat by (destruct piece; [done|cbn; lia]). lia.
    + by rewrite <- (assoc_L Nat.add).
Qed.

Lemma option_name_accepts o kind pos s c K res :
  (o, kind) ∈ event_options →
  K (pos + length (PyStr.chars o))%nat s c = Some res →
  run true (alt [lit "created"; lit "deleted"; lit "modified"]) pos
      (PyStr.chars o ++ s) c K = Some res.
Proof.
  intros Hin HK. unfold event_options in Hin.
  repeat (apply elem_of_cons in Hin as [[= -> ->]|Hin]);
    [..|by apply elem_of_nil in Hin];
    cbn [PyStr.chars list_ascii_of_string app length] in *.
  - rewrite run_alt_cons. apply or_else_first. by read_lit.
  - rewrite run_alt_cons. read_lit.
    rewrite run_alt_cons. apply or_else_first. by read_lit.
  - rewrite run_alt_cons. read_lit. rewrite run_alt_cons. read_lit.
    rewrite run_alt_one. by read_lit.
Qed.

Lemma option_name_head o kind :
  (o, kind) ∈ event_options →
  ∃ x xs, PyStr.chars o = x :: xs ∧ chr_eq true "," x = false
          ∧ PyStr.is_space x = false.
Proof.
  intros Hin. unfold event_options in Hin.
  repeat (apply elem_of_cons in Hin as [[= -> ->]|Hin]);
    [..|by apply elem_of_nil in Hin]; by eexists _, _.
Qed.

Lemma no_comma_here x s pos c K :
  chr_eq true "," x = false →
  run true (seq [lit ","; star ws]) pos (x :: s) c K = None.
Proof.
  intros Hx. rewrite run_seq_cons, run_lit.
  cbn [PyStr.chars list_ascii_of_string starts_with]. by rewrite Hx.
Qed.

(** The first option of a list. *)
Lemma first_option_accepts o kind pos s c K res :
  (o, kind) ∈ event_options →
  K (pos + length (PyStr.chars o))%nat s c = Some res →
  run true one_option pos (PyStr.chars o ++ s) c K = Some res.
Proof.
  intros Hin HK. unfold one_option.
  destruct (option_name_head o kind Hin) as (x & xs & Hc & Hx & _).
  rewrite run_seq_cons, run_star_none.
  - by apply (option_name_accepts o kind).
  - intros K'. rewrite Hc. by apply no_comma_here.
Qed.

(** An option behind a comma. *)
Lemma next_option_accepts spaced o kind pos s c K res :
  (o, kind) ∈ event_options →
  K (pos + length (PyStr.chars (comma spaced) ++ PyStr.chars o))%nat s c
  = Some res →
  run true one_option pos (PyStr.chars (comma spaced) ++ PyStr.chars o ++ s) c K
  = Some res.
Proof.
  intros Hin HK. unfold one_option.
  destruct (option_name_head o kind Hin) as (x & xs & Hc & Hx & Hsx).
  assert (Hblank : ∀ K' pos',
            run true (Cls PyStr.is_space) pos' (PyStr.chars o ++ s) c K' = None).
  { intros K' pos'. rewrite Hc. cbn [app run]. by rewrite Hsx. }
  assert (Hnot : not_at PyStr.is_space (PyStr.chars o ++ s)).
  { rewrite Hc. exact Hsx. }
  rewrite run_seq_cons.
  eapply (run_star_once true _ _ _ _ _
            (pos + length (PyStr.chars (comma spaced)))%nat
            (PyStr.chars o ++ s) c).
  - intros K' HK'. rewrite run_seq_cons.
    destruct spaced; cbn [comma PyStr.chars list_ascii_of_string app length] in *;
      read_lit; rewrite run_seq_cons.
    + unfold star, ws. cbn [run].
      rewrite (rep_loop_class_step _ PyStr.is_space)
        by (done || apply class_body_Cls).
      cbn [length].
      rewrite (rep_loop_class_stop _ PyStr.is_space)
        by (done || apply class_body_Cls).
      cbn [Nat.leb]. rewrite run_seq_nil.
      replace (S (pos + 1)) with (pos + 2)%nat by lia. by rewrite HK'.
    + rewrite run_star_none by (intros K''; apply Hblank).
      by rewrite run_seq_nil.
  - rewrite !length_app. destruct spaced; cbn; lia.
  - intros K'. rewrite Hc. by apply no_comma_here.
  - apply (option_name_accepts o kind); [done|].
    rewrite length_app in HK. by rewrite <- (assoc_L Nat.add).
Qed.

(** No further option at the closing bracket. *)
Lemma no_option_at_the_bracket pos c K :
  run true one_option pos ["]"%char] c K = None.
Proof.
  unfold one_option. rewrite run_seq_cons, run_star_none.
  - rewrite run_seq_cons, run_alt_cons. read_lit. rewrite run_alt_cons. read_lit.
    rewrite run_alt_one. by read_lit.
  - intros K'. by apply no_comma_here.
Qed.

(** The characters of a list of options, option by option. *)
Lemma join_pieces sep o l :
  PyStr.chars (join sep (o :: l))
  = concat (PyStr.chars o :: map (λ o', PyStr.chars sep ++ PyStr.chars o') l).
Proof.
  revert o. induction l as [|o' l IH]; intros o.
  - cbn. by rewrite app_nil_r.
  - change (join sep (o :: o' :: l)) with (o +:+ sep +:+ join sep (o' :: l)).
    rewrite !chars_app, IH. cbn [concat map]. by rewrite !(assoc_L (++)).
Qed.

Lemma option_name_chars o kind : (o, kind) ∈ event_options → PyStr.chars o ≠ [].
Proof. intros (x & xs & -> & _)%option_name_head. done. Qed.

(** The list of options in its group: every option is taken. *)
Lemma options_accepts spaced options pos c k res :
  options ≠ [] →
  Forall (λ o, o ∈ event_options) options →
  k (pos + length (PyStr.chars (join (comma spaced) (map fst options))))%nat
    ["]"%char] ((3, join (comma spaced) (map fst options)) :: c) = Some res →
  run true (Grp 3 (plus one_option)) pos
      (PyStr.chars (join (comma spaced) (map fst options)) ++ ["]"%char]) c k
  = Some res.
Proof.
  intros Hne Hin Hk. destruct options as [|[o kind] l]; [done|].
  inversion Hin as [|? ? Ho Hl]; subst.
  pose proof (str_chars (join (comma spaced) (map fst ((o, kind) :: l)))) as Hstr.
  cbn [map fst] in *. rewrite join_pieces in *.
  rewrite run_grp. unfold plus. cbn [run].
  apply rep_loop_rounds.
  - constructor.
    + split; [by apply (option_name_chars o kind)|].
      intros pos' s K HK. by apply (first_option_accepts o kind).
    + rewrite map_map. apply Forall_map.
      eapply Forall_impl; [exact Hl|]. intros [o' kind'] Ho'. cbn [fst].
      split.
      * destruct spaced; done.
      * intros pos' s K HK. rewrite <- (assoc_L (++)).
        by apply (next_option_accepts spaced o' kind').
  - intros pos' K. apply no_option_at_the_bracket.
  - cbn [length]. lia.
  - lia.
  - match goal with
    | |- context [take ?n _] =>
        replace n with (length (concat (PyStr.chars o
          :: map (λ o', PyStr.chars (comma spaced) ++ PyStr.chars o') (map fst l))))
          by lia
    end.
    by rewrite take_app_length, Hstr.
Qed.

(** The path in its group: a path with no blank and no quote in it. *)
Lemma path_accepts path rest pos c k res :
  a_value path →
  not_at (λ x, negb (PyStr.is_space x)) rest →
  k (pos + length (PyStr.chars path))%nat rest ((2, path) :: c) = Some res →
  run true (Grp 2 (alt [seq [lit "'"; plus dot; lit "'"]; plus nws])) pos
      (PyStr.chars path ++ rest) c k = Some res.
Proof.
  intros Hv Hrest Hk.
  destruct (a_value_chars path Hv) as (x & xs & Hc & Hx & Hxs).
  pose proof (str_chars path) as Hstr. rewrite Hc in *.
  rewrite run_grp, run_alt_cons, run_seq_cons, run_lit.
  cbn [PyStr.chars list_ascii_of_string app starts_with].
  rewrite (chr_eq_quote x) by (by apply plain_not_quote). cbn [andb].
  rewrite run_alt_one. unfold nws.
  apply (run_plus_class true _ pos (x :: xs) rest).
  - done.
  - constructor; [by rewrite (plain_not_space x)|].
    eapply Forall_impl; [exact Hxs|]. intros y Hy. cbn beta.
    by rewrite (plain_not_space y).
  - done.
  - replace (pos + length (x :: xs) - pos)%nat with (length (x :: xs)) by lia.
    assert (Htake : take (length (x :: xs)) (x :: xs ++ rest) = x :: xs)
      by apply (take_app_length (x :: xs)).
    by rewrite Htake, Hstr.
Qed.

Lemma directory_phrase_matches dir path spaced options :
  dir ∈ directory_words → a_value path →
  options ≠ [] → Forall (λ o, o ∈ event_options) options →
  re_match DirectoryEventTrigger_re
    (dir +:+ " " +:+ path +:+ " [" +:+ join (comma spaced) (map fst options)
     +:+ "]")
  = Some (Match [(3, join (comma spaced) (map fst options)); (2, path); (1, dir)]
                (groupindex DirectoryEventTrigger_re)).
Proof.
  intros Hdir Hpath Hne Hin.
  run_pattern DirectoryEventTrigger_re
    (Some [(3, join (comma spaced) (map fst options)); (2, path); (1, dir)]).
  fold one_option.
  assert (Hrest : ∀ pos c,
    run true
      (seq [plus ws; Grp 2 (alt [seq [lit "'"; plus dot; lit "'"]; plus nws]);
            plus ws; lit "["; Grp 3 (plus one_option); lit "]"; Eol])
      pos
      (" "%char :: PyStr.chars path
       ++ " "%char :: "["%char
       :: PyStr.chars (join (comma spaced) (map fst options)) ++ ["]"%char])
      c (λ _ _ c, Some c)
    = Some ((3, join (comma spaced) (map fst options)) :: (2, path) :: c)).
  { intros pos c.
    rewrite run_seq_cons, run_ws_single by (done || by apply not_at_value).
    rewrite run_seq_cons. apply path_accepts; [done..|].
    rewrite run_seq_cons, run_ws_single by done.
    rewrite run_seq_cons. read_lit.
    rewrite run_seq_cons. apply options_accepts; [done..|].
    rewrite run_seq_cons. by read_lit. }
  unfold directory_words in Hdir.
  repeat (apply elem_of_cons in Hdir as [->|Hdir]); [..|by apply elem_of_nil in Hdir];
    cbn [PyStr.chars list_ascii_of_string app];
    rewrite run_seq_cons, run_bol; rewrite run_seq_cons, run_grp.
  - rewrite run_alt_cons. apply or_else_first. read_lit.
    cbn [Nat.sub take PyStr.str string_of_list_ascii]. apply Hrest.
  - rewrite run_alt_cons. read_lit. rewrite run_alt_one. read_lit.
    cbn [Nat.sub take PyStr.str string_of_list_ascii]. apply Hrest.
Qed.

(** *** The words of the options *)

Lemma split_chars_word w cur rest :
  Forall (λ x, PyStr.is_space x = false) w →
  PyStr.split_chars cur (w ++ rest) = PyStr.split_chars (rev w ++ cur) rest.
Proof.
  intros Hw. revert cur. induction Hw as [|x w Hx _ IH]; intros cur; [done|].
  cbn [app PyStr.split_chars]. rewrite Hx, IH. cbn [rev].
  by rewrite <- (assoc_L (++)).
Qed.

Lemma option_name_no_blank o kind :
  (o, kind) ∈ event_options →
  Forall (λ x, PyStr.is_space x = false) (PyStr.chars o).
Proof.
  intros Hin. unfold event_options in Hin.
  repeat (apply elem_of_cons in Hin as [[= -> ->]|Hin]);
    [..|by apply elem_of_nil in Hin]; by repeat constructor.
Qed.

(** [split] of a list of options with a comma and a blank between them:
    every option but the last keeps its comma. *)
Lemma split_spaced o kind l :
  (o, kind) ∈ event_options →
  PyStr.split (join ", " (o :: l))
  = match l with
    | [] => [o]
    | _ => (o +:+ ",") :: PyStr.split (join ", " l)
    end.
Proof.
  intros Hin. pose proof (option_name_no_blank o kind Hin) as Ho.
  pose proof (option_name_chars o kind Hin) as Hne.
  unfold PyStr.split. destruct l as [|o' l].
  - cbn [join]. rewrite <- (app_nil_r (PyStr.chars o)).
    rewrite split_chars_word by done. cbn [PyStr.split_chars].
    rewrite app_nil_r.
    destruct (rev (PyStr.chars o)) as [|z zs] eqn:Hrev.
    + apply (f_equal (@rev _)) in Hrev. by rewrite rev_involutive in Hrev.
    + by rewrite <- Hrev, rev_involutive, str_chars.
  - change (join ", " (o :: o' :: l)) with (o +:+ ", " +:+ join ", " (o' :: l)).
    rewrite !chars_app. cbn [PyStr.chars list_ascii_of_string app].
    match goal with
    | |- PyStr.split_chars [] (_ ++ _ :: _ :: ?X) = _ =>
        replace (PyStr.chars o ++ ","%char :: " "%char :: X)
          with ((PyStr.chars o ++ [","%char]) ++ " "%char :: X)
          by (by rewrite <- (assoc_L (++)))
    end.
    rewrite split_chars_word
      by (apply Forall_app; split; [done|by repeat constructor]).
    cbn [PyStr.split_chars]. change (PyStr.is_space " ") with true. cbv iota.
    rewrite app_nil_r.
    destruct (rev (PyStr.chars o ++ [","%char])) as [|z zs] eqn:Hrev.
    + apply (f_equal (@rev _)) in Hrev. rewrite rev_involutive in Hrev.
      by destruct (PyStr.chars o).
    + rewrite <- Hrev, rev_involutive. f_equal.
      rewrite <- (str_chars (o +:+ ",")). by rewrite chars_app.
Qed.

Lemma last_cons {A} (a d : A) l : List.last (a :: l) d = List.last l a.
Proof.
  revert a d. induction l as [|b l IH]; intros a d; [done|].
  change (List.last (a :: b :: l) d) with (List.last (b :: l) d).
  by rewrite !IH.
Qed.

(** An option with a comma behind it is no option. *)
Lemma option_with_comma name kind0 o kind :
  (name, kind0) ∈ event_options → (o, kind) ∈ event_options →
  name ≠ o +:+ "," ∧ ∀ rest, name ≠ o +:+ "," +:+ rest.
Proof.
  intros Hname Ho. unfold event_options in *.
  repeat (apply elem_of_cons in Hname as [[= -> ->]|Hname]);
    [..|by apply elem_of_nil in Hname];
    repeat (apply elem_of_cons in Ho as [[= -> ->]|Ho]);
    try (by apply elem_of_nil in Ho);
    (split; [|intros rest]); cbn; by intros [=].
Qed.

(** Of options with a comma and a blank between them, the last is the only
    one among the words that [split] gives. *)
Lemma in_split_spaced name kind0 o kind l :
  (name, kind0) ∈ event_options →
  (o, kind) ∈ event_options →
  Forall (λ o, o ∈ event_options) l →
  name ∈ PyStr.split (join ", " (map fst ((o, kind) :: l)))
  ↔ name = (List.last l (o, kind)).1.
Proof.
  intros Hname Ho Hl. revert o kind Ho.
  induction Hl as [|[o' kind'] l Ho' _ IH]; intros o kind Ho; cbn [map fst].
  - rewrite (split_spaced o kind) by done. cbn [List.last fst].
    by rewrite list_elem_of_singleton.
  - rewrite (split_spaced o kind) by done. cbn [map fst].
    rewrite elem_of_cons, last_cons.
    change (o' :: map fst l) with (map fst ((o', kind') :: l)).
    rewrite (IH o' kind' Ho'). split; [|by right].
    intros [Heq|Heq]; [|done].
    by apply (option_with_comma name kind0 o kind) in Heq.
Qed.

Lemma join_no_blank sep options :
  Forall (λ x, PyStr.is_space x = false) (PyStr.chars sep) →
  Forall (λ o, o ∈ event_options) options →
  Forall (λ x, PyStr.is_space x = false)
         (PyStr.chars (join sep (map fst options))).
Proof.
  intros Hsep Hin. induction Hin as [|[o kind] l Ho Hl IH]; [constructor|].
  cbn [map fst]. destruct l as [|o' l].
  - by apply (option_name_no_blank o kind).
  - change (join sep (o :: map fst (o' :: l)))
      with (o +:+ sep +:+ join sep (map fst (o' :: l))).
    rewrite !chars_app. rewrite !Forall_app. split_and!; [|done..].
    by apply (option_name_no_blank o kind).
Qed.

(** [split] of options with nothing but a comma between them: one word. *)
Lemma split_unspaced options :
  options ≠ [] →
  Forall (λ o, o ∈ event_options) options →
  PyStr.split (join "," (map fst options)) = [join "," (map fst options)].
Proof.
  intros Hne Hin.
  pose proof (join_no_blank "," options) as Hno.
  unfold PyStr.split. rewrite <- (app_nil_r (PyStr.chars _)).
  rewrite split_chars_word by (apply Hno; [by repeat constructor|done]).
  cbn [PyStr.split_chars]. rewrite app_nil_r.
  destruct (rev (PyStr.chars (join "," (map fst options)))) as [|z zs] eqn:Hrev.
  - apply (f_equal (@rev _)) in Hrev. rewrite rev_involutive in Hrev.
    destruct options as [|[o kind] l]; [done|]. inversion Hin; subst.
    cbn [map fst] in Hrev. rewrite join_pieces in Hrev. cbn [concat] in Hrev.
    apply app_eq_nil in Hrev as [Hrev _].
    by apply (option_name_chars o kind) in Hrev.
  - by rewrite <- Hrev, rev_involutive, str_chars.
Qed.

Lemma last_option o l :
  o ∈ event_options → Forall (λ o, o ∈ event_options) l →
  List.last l o ∈ event_options.
Proof.
  intros Ho Hl. revert o Ho. induction Hl as [|o' l Ho' _ IH]; intros o Ho; [done|].
  rewrite last_cons. by apply IH.
Qed.

(** The kinds of events that [DirectoryEventTrigger.parse] reads off the
    words of the options. *)
Lemma kinds_of_the_words spaced options :
  options ≠ [] →
  Forall (λ o, o ∈ event_options) options →
  let words := PyStr.split (join (comma spaced) (map fst options)) in
  (if bool_decide ("created" ∈ words) then [ENTRY_CREATE] else [])
  ++ (if bool_decide ("deleted" ∈ words) then [ENTRY_DELETE] else [])
  ++ (if bool_decide ("modified" ∈ words) then [ENTRY_MODIFY] else [])
  = match options with
    | [_] => kinds_read spaced options
    | _ => if spaced then kinds_read spaced options else []
    end.
Proof.
  intros Hne Hin words. subst words.
  destruct options as [|[o kind] l]; [done|].
  inversion Hin as [|? ? Ho Hl]; subst.
  assert (Hcreated : ("created", ENTRY_CREATE) ∈ event_options)
    by (unfold event_options; repeat first [by left|right]).
  assert (Hdeleted : ("deleted", ENTRY_DELETE) ∈ event_options)
    by (unfold event_options; repeat first [by left|right]).
  assert (Hmodified : ("modified", ENTRY_MODIFY) ∈ event_options)
    by (unfold event_options; repeat first [by left|right]).
  assert (Hlast : ∀ o', o' ∈ event_options →
    (if bool_decide ("created" = o'.1) then [ENTRY_CREATE] else [])
    ++ (if bool_decide ("deleted" = o'.1) then [ENTRY_DELETE] else [])
    ++ (if bool_decide ("modified" = o'.1) then [ENTRY_MODIFY] else [])
    = [o'.2]).
  { intros o' Ho'. unfold event_options in Ho'.
    repeat (apply elem_of_cons in Ho' as [->|Ho']); [..|by apply elem_of_nil in Ho'];
      done. }
  destruct l as [|[o' kind'] l].
  - cbn [map fst join kinds_read].
    replace (join (comma spaced) [o]) with (join ", " (map fst [(o, kind)]))
      by (by destruct spaced).
    rewrite (bool_decide_ext _ _ (in_split_spaced _ _ o kind [] Hcreated Ho Hl)),
      (bool_decide_ext _ _ (in_split_spaced _ _ o kind [] Hdeleted Ho Hl)),
      (bool_decide_ext _ _ (in_split_spaced _ _ o kind [] Hmodified Ho Hl)).
    exact (Hlast (o, kind) Ho).
  - destruct spaced; cbn [comma kinds_read].
    + rewrite (bool_decide_ext _ _ (in_split_spaced _ _ o kind _ Hcreated Ho Hl)),
        (bool_decide_ext _ _ (in_split_spaced _ _ o kind _ Hdeleted Ho Hl)),
        (bool_decide_ext _ _ (in_split_spaced _ _ o kind _ Hmodified Ho Hl)).
      apply Hlast. by apply last_option.
    + rewrite split_unspaced by done.
      cbn [map fst].
      change (join "," (o :: o' :: map fst l))
        with (o +:+ "," +:+ join "," (o' :: map fst l)).
      rewrite !bool_decide_eq_false_2; [done|..];
        rewrite list_elem_of_singleton;
        by eapply (option_with_comma _ _ o kind).
Qed.

(** [Directory <path> [<options>]] and [Subdirectory <path> [<options>]]:
    of options written with a comma and a blank between them only the last
    one counts, and options written with nothing but a comma between them
    count as all three; one option alone counts as itself.  The documented
    [created, deleted, modified] watches for modified entries only. *)
Theorem directory_options_read {Item} (registry : Registry Item)
        dir path spaced options w :
  dir ∈ directory_words → a_value path →
  options ≠ [] → Forall (λ o, o ∈ event_options) options →
  when_parse registry
    (dir +:+ " " +:+ path +:+ " [" +:+ join (comma spaced) (map fst options)
     +:+ "]") w
  = (Return (Some (Single (DirectoryEventTrigger (VStr path)
                             (kinds_read spaced options)
                             (VBool (String.eqb dir "Subdirectory"))))),
     mkWorld (warnings w) (invoked w ++ ["DirectoryEventTrigger"])).
Proof.
  intros Hdir Hpath Hne Hin.
  pose proof (directory_phrase_matches dir path spaced options Hdir Hpath Hne Hin)
    as Hmatch.
  pose proof (kinds_of_the_words spaced options Hne Hin) as Hkinds.
  cbv zeta in Hkinds.
  assert (∃ z, last (PyStr.chars (dir +:+ " " +:+ path +:+ " ["
                 +:+ join (comma spaced) (map fst options) +:+ "]")) = Some z
               ∧ PyStr.is_space z = false) as (z & Hz & Hsz).
  { exists "]"%char. by rewrite !chars_app, !last_app. }
  unfold directory_words in Hdir.
  repeat (apply elem_of_cons in Hdir as [->|Hdir]);
    [..|by apply elem_of_nil in Hdir].
  all: match goal with
       | |- when_parse _ (?fw +:+ ?rest) _ = _ =>
           assert (Hstrip : PyStr.strip (fw +:+ rest) = fw +:+ rest)
             by (by eapply strip_id);
           apply (when_parse_stops registry (fw +:+ rest) fw
                    (take 11 (triggerClasses registry))
                    (DirectoryEventTrigger_class)
                    [])
       end.
  all: try (rewrite Hstrip).
  all: try reflexivity.
  all: try done.
  all: try (cbn [take triggerClasses];
            repeat (constructor; [by intros [=]|]); constructor).
  all: cbn [parse DirectoryEventTrigger_class];
       unfold DirectoryEventTrigger_parse; rewrite Hmatch.
  all: match goal with
       | |- context [group ?m "options"] =>
           change (group m "options")
             with (VStr (join (comma spaced) (map fst options)));
           change (group m "path") with (VStr path)
       end.
  all: cbn [as_str mbind result_bind]; rewrite !Hkinds.
  all: destruct options as [|o [|o' l]]; [done|..];
       destruct spaced; reflexivity.
Qed.

Lemma directory_options_read_witness :
  when_parse demo_registry "Directory /opt/test [created, deleted, modified]" quiet
  = (Return (Some (Single (DirectoryEventTrigger (VStr "/opt/test")
                             [ENTRY_MODIFY] (VBool false)))),
     mkWorld [] ["DirectoryEventTrigger"]).
Proof.
  apply (directory_options_read demo_registry "Directory" "/opt/test" true
           [("created", ENTRY_CREATE); ("deleted", ENTRY_DELETE);
            ("modified", ENTRY_MODIFY)] quiet).
  - by left.
  - split; [done|]. repeat constructor.
  - done.
  - unfold event_options. repeat constructor; repeat first [by left|right].
Defined.

(** *** Days with a name *)

Lemma named_day_chars day given d :
  PyStr.chars (day +:+ " " +:+ article given +:+ d)
  = PyStr.chars day ++ " "%char :: PyStr.chars (article given +:+ d).
Proof. by rewrite !chars_app. Qed.

Lemma named_day_captures day z given d :
  (day, z) ∈ named_days → a_token d →
  ∃ found,
    run true (expr EphemerisCondition_re) 0
      (PyStr.chars (day +:+ " " +:+ article given +:+ d)) []
      (λ _ _ c, Some c) = Some found
    ∧ ephemeris_offset (Match found (groupindex EphemerisCondition_re))
      = Return (VInt z)
    ∧ assoc 8 found = None
    ∧ assoc 11 found = Some d.
Proof.
  intros Hin Hd. rewrite named_day_chars.
  cbn [expr EphemerisCondition_re]. unfold named_days in Hin.
  repeat (apply elem_of_cons in Hin as [[= -> ->]|Hin]);
    [..|by apply elem_of_nil in Hin];
    cbn [PyStr.chars list_ascii_of_string app];
    rewrite run_seq_cons, run_bol; rewrite run_seq_cons, run_grp, run_alt_cons;
    eexists.
  - split.
    + apply or_else_first. rewrite run_grp, run_alt_cons. apply or_else_first.
      rewrite run_seq_cons. read_lit.
      rewrite run_seq_cons, run_ws_single by done.
      rewrite run_seq_cons. read_lit. rewrite run_seq_nil.
      by apply day_predicate_accepts.
    + by destruct given.
  - split.
    + apply or_else_first. rewrite run_grp, run_alt_cons.
      rewrite run_seq_cons. read_lit.
      rewrite run_alt_one, run_seq_cons. read_lit.
      rewrite run_seq_cons.
      eapply (run_star_once true _ _ _ _ _ 3 ("s"%char :: " "%char :: _) []).
      * intros K HK. by read_lit.
      * cbn [length]. lia.
      * intros K. by read_lit.
      * cbv beta. rewrite run_seq_cons. read_lit. rewrite run_seq_nil.
        by apply day_predicate_accepts.
    + by destruct given.
  - split.
    + rewrite run_grp, run_alt_cons, run_seq_cons. read_lit.
      rewrite run_alt_one, run_seq_cons. read_lit.
      rewrite run_alt_cons. apply or_else_first.
      rewrite run_grp, run_alt_cons. apply or_else_first.
      rewrite run_seq_cons. read_lit.
      rewrite run_seq_cons, run_ws_single by done.
      rewrite run_seq_cons. read_lit. rewrite run_seq_nil.
      by apply day_predicate_accepts.
    + by destruct given.
  - split.
    + rewrite run_grp, run_alt_cons, run_seq_cons. read_lit.
      rewrite run_seq_cons, run_ws_single by done.
      rewrite run_seq_cons. read_lit.
      rewrite run_alt_one, run_seq_cons. read_lit.
      rewrite run_alt_cons. apply or_else_first.
      rewrite run_grp, run_alt_cons, run_seq_cons. read_lit.
      rewrite run_alt_one, run_seq_cons. read_lit.
      rewrite run_seq_cons, run_ws_single by done.
      rewrite run_seq_cons. read_lit.
      rewrite run_seq_cons, run_ws_single by done.
      rewrite run_seq_cons. read_lit. rewrite run_seq_nil.
      by apply day_predicate_accepts.
    + by destruct given.
  - split.
    + rewrite run_grp, run_alt_cons, run_seq_cons. read_lit.
      rewrite run_alt_one, run_seq_cons. read_lit.
      rewrite run_alt_cons, run_grp, run_alt_cons, run_seq_cons. read_lit.
      rewrite run_alt_one, run_seq_cons. read_lit.
      rewrite run_alt_cons. apply or_else_first.
      rewrite run_grp, run_alt_cons. apply or_else_first.
      rewrite run_seq_cons. read_lit.
      rewrite run_seq_cons, run_ws_single by done.
      rewrite run_seq_cons. read_lit. rewrite run_seq_nil.
      by apply day_predicate_accepts.
    + by destruct given.
  - split.
    + rewrite run_grp, run_alt_cons, run_seq_cons. read_lit.
      rewrite run_seq_cons, run_ws_single by done.
      rewrite run_seq_cons. read_lit.
      rewrite run_alt_one, run_seq_cons. read_lit.
      rewrite run_alt_cons, run_grp, run_alt_cons, run_seq_cons. read_lit.
      rewrite run_alt_one, run_seq_cons. read_lit.
      rewrite run_seq_cons, run_ws_single by done.
      rewrite run_seq_cons. read_lit.
      rewrite run_alt_cons. apply or_else_first.
      rewrite run_grp, run_alt_cons, run_seq_cons. read_lit.
      rewrite run_alt_one, run_seq_cons. read_lit.
      rewrite run_seq_cons, run_ws_single by done.
      rewrite run_seq_cons. read_lit.
      rewrite run_seq_cons, run_ws_single by done.
      rewrite run_seq_cons. read_lit. rewrite run_seq_nil.
      by apply day_predicate_accepts.
    + by destruct given.
Qed.

(** The steps of [onlyif.parse] on a phrase about a day whose first word
    is [fw]. *)
Ltac day_phrase fw Hstrip :=
  match goal with
  | |- onlyif_parse ?registry ?phrase _ = _ =>
      apply (onlyif_parse_stops registry phrase fw
               [ItemStateCondition_class registry]
               (EphemerisCondition_class)
               (drop 2 (conditionClasses registry)));
      [ by rewrite Hstrip
      | by rewrite Hstrip
      | reflexivity
      | constructor; [by intros [=]|constructor]
      | reflexivity
      | rewrite Hstrip; cbn [parse EphemerisCondition_class];
        unfold EphemerisCondition_parse, re_match;
        change (ignorecase EphemerisCondition_re) with true
      | done ]
  end.

(** The days with a name have a number for their offset: [Today is] and
    [it's] 0, [Tomorrow is] and [Today plus 1] 1, [Yesterday was] and
    [Today minus 1] -1, whatever the day type. *)
Theorem named_days_have_numbers {Item} (registry : Registry Item)
        day z given d w :
  (day, z) ∈ named_days → a_token d →
  onlyif_parse registry (day +:+ " " +:+ article given +:+ d) w
  = (Return (Some (EphemerisCondition (VStr d) (VInt z))),
     mkWorld (warnings w) (invoked w ++ ["EphemerisCondition"])).
Proof.
  intros Hin Hd.
  destruct (named_day_captures day z given d Hin Hd)
    as (found & Hrun & Hoffset & H8 & H11).
  assert (Hparse :
    (match run true (expr EphemerisCondition_re) 0
             (PyStr.chars (day +:+ " " +:+ article given +:+ d)) []
             (λ _ _ c, Some c) with
     | Some c => Some (Match c (groupindex EphemerisCondition_re))
     | None => None
     end)
    = Some (Match found (groupindex EphemerisCondition_re)))
    by (by rewrite Hrun).
  assert (Hrest :
    (let m := Match found (groupindex EphemerisCondition_re) in
     if is_None (group m "daytype")
     then Raise (ValueError [VStr ("Invalid ephemeris type: "
                                   +:+ format (group m "daytype"))])
     else offset ← ephemeris_offset m;
          daytype ← ephemeris_daytype m;
          mret (Some (EphemerisCondition daytype offset)))
    = Return (Some (EphemerisCondition (VStr d) (VInt z)))).
  { cbv zeta. rewrite Hoffset.
    unfold ephemeris_daytype, group, text_of, text_at.
    cbn [names Re.caps groupindex EphemerisCondition_re index_of String.eqb
         Ascii.eqb Bool.eqb].
    by rewrite H8, H11. }
  assert (∃ z', last (PyStr.chars (day +:+ " " +:+ article given +:+ d)) = Some z'
                ∧ PyStr.is_space z' = false) as (z' & Hz & Hsz).
  { destruct (a_token_last d (PyStr.chars (day +:+ " " +:+ article given)) Hd)
      as (z' & Hz & Hsz).
    exists z'. split; [|done]. by rewrite <- Hz, !chars_app, !(assoc_L (++)). }
  unfold named_days in Hin.
  repeat (apply elem_of_cons in Hin as [[= -> ->]|Hin]);
    [..|by apply elem_of_nil in Hin];
    match goal with
    | |- onlyif_parse _ ?phrase _ = _ =>
        assert (Hstrip : PyStr.strip phrase = phrase) by (by eapply strip_id)
    end.
  - day_phrase "Today" Hstrip. by rewrite Hparse.
  - day_phrase "it's" Hstrip. by rewrite Hparse.
  - day_phrase "Tomorrow" Hstrip. by rewrite Hparse.
  - day_phrase "Today" Hstrip. by rewrite Hparse.
  - day_phrase "Yesterday" Hstrip. by rewrite Hparse.
  - day_phrase "Today" Hstrip. by rewrite Hparse.
Qed.

Lemma named_days_have_numbers_witness :
  onlyif_parse demo_registry "Yesterday was a holiday" quiet
  = (Return (Some (mkDescriptor "ephemeris.HolidayCondition"
                                {[ "offset" := VInt (-1) ]})),
     mkWorld [] ["EphemerisCondition"]).
Proof.
  apply (named_days_have_numbers demo_registry "Yesterday was" (-1) true
           "holiday" quiet).
  - unfold named_days. do 4 right. by left.
  - split; [done|]. repeat constructor.
Defined.

(** *** The time of an item *)

Lemma starts_with_lower w s :
  starts_with true w s = true → (length s ≤ length w)%nat →
  map PyStr.lower_char s = map PyStr.lower_char w.
Proof.
  revert s. induction w as [|a w IH]; intros [|x s]; cbn; try done; try lia.
  intros [Hx Hs]%andb_prop Hlen. apply bool_decide_eq_true in Hx.
  rewrite Hx. f_equal. apply IH; [done|lia].
Qed.

Lemma time_only_chars given :
  PyStr.chars (time_only given) = []
  ∨ ∃ r, PyStr.chars (time_only given) = " "%char :: r ∧ r ≠ [].
Proof. destruct given; [right|by left]. by eexists. Qed.

(** The name of an instant before the end of the phrase does not match
    the name of an item that is another name, or that has the option
    behind it. *)
Lemma instant_rejects w name given pos c K :
  w ∈ named_instants → a_token name →
  PyStr.lower name ∉ named_instants →
  (∀ pos' s' c', at_eol s' = false → K pos' s' c' = None) →
  run true (lit w) pos (PyStr.chars name ++ PyStr.chars (time_only given)) c K
  = None.
Proof.
  intros Hw Hname Hlower HK. rewrite run_lit.
  destruct (starts_with _ _ _) eqn:Hstarts; [|done].
  apply HK. pose proof Hname as [_ Hchars].
  destruct (time_only_chars given) as [Hnil|(r & Hr & Hne)].
  - rewrite Hnil, app_nil_r in *.
    destruct (at_eol _) eqn:Heol; [|done].
    apply at_eol_token in Heol; [|by apply Forall_drop].
    apply (f_equal length) in Heol. rewrite length_drop in Heol. cbn in Heol.
    apply starts_with_lower in Hstarts; [|lia].
    exfalso. apply Hlower. unfold PyStr.lower. rewrite Hstarts.
    unfold named_instants in *.
    repeat (apply elem_of_cons in Hw as [->|Hw]); [..|by apply elem_of_nil in Hw];
      cbn; repeat first [by left|right].
  - rewrite Hr in *.
    assert (length (PyStr.chars w) ≤ length (PyStr.chars name))%nat as Hlen.
    { apply (starts_with_before_blank true _ _ " "%char r); [|done].
      unfold named_instants in Hw.
      repeat (apply elem_of_cons in Hw as [->|Hw]); [..|by apply elem_of_nil in Hw];
        by repeat constructor. }
    rewrite drop_app_le by done. by apply at_eol_app.
Qed.

Lemma cron_pattern_declines name given :
  a_token name → PyStr.lower name ∉ named_instants →
  re_match CronTrigger_re ("Time is " +:+ name +:+ time_only given) = None.
Proof.
  intros Hname Hlower.
  run_pattern CronTrigger_re (@None captures).
  rewrite run_seq_cons, run_bol. rewrite run_seq_cons. read_lit.
  rewrite run_seq_cons, run_ws_single by done.
  rewrite run_seq_cons, run_alt_cons, run_seq_cons. read_lit.
  rewrite run_alt_one, run_seq_cons. read_lit.
  rewrite run_seq_cons, run_ws_single by (done || by apply not_at_token).
  rewrite run_seq_cons, run_grp, run_alt_cons.
  rewrite (instant_rejects "midnight"); [|by left|done|done|].
  - rewrite run_alt_one. apply (instant_rejects "noon"); [by right; left|done..|].
    intros pos' s' c' Heol. cbn [run seq foldr]. by rewrite Heol.
  - intros pos' s' c' Heol. cbn [run seq foldr]. by rewrite Heol.
Qed.

(** The words of the phrase: three, or four with the option. *)
Lemma time_is_item_words name given :
  a_token name →
  PyStr.split ("Time is " +:+ name +:+ time_only given)
  = "Time" :: "is" :: name :: (if given then ["[timeOnly]"] else []).
Proof.
  intros [Hne Hname]. unfold PyStr.split. rewrite !chars_app.
  cbn [PyStr.chars list_ascii_of_string app PyStr.split_chars].
  change (PyStr.is_space "T") with false. change (PyStr.is_space "i") with false.
  change (PyStr.is_space "m") with false. change (PyStr.is_space "e") with false.
  change (PyStr.is_space "s") with false. change (PyStr.is_space " ") with true.
  cbv iota. cbn [rev app PyStr.str string_of_list_ascii].
  do 2 f_equal. fold (PyStr.chars name).
  rewrite split_chars_word by done. rewrite app_nil_r.
  destruct (rev (PyStr.chars name)) as [|z zs] eqn:Hrev.
  { apply (f_equal (@rev _)) in Hrev. rewrite rev_involutive in Hrev.
    by apply chars_nonempty in Hne. }
  rewrite <- Hrev.
  destruct given; cbn [time_only PyStr.chars list_ascii_of_string PyStr.split_chars].
  - change (PyStr.is_space " ") with true. cbv iota.
    rewrite Hrev at 1. rewrite rev_involutive, str_chars. f_equal.
  - rewrite Hrev at 1. by rewrite rev_involutive, str_chars.
Qed.

Lemma time_is_item_stripped name given :
  a_token name →
  PyStr.strip ("Time is " +:+ name +:+ time_only given)
  = "Time is " +:+ name +:+ time_only given.
Proof.
  intros Hname.
  destruct (a_token_last name (PyStr.chars "Time is ") Hname) as (z & Hz & Hsz).
  destruct given; cbn [time_only].
  - apply (strip_id _ "T"%char "]"%char); [done| |done..].
    by rewrite !chars_app, !last_app.
  - apply (strip_id _ "T"%char z); [done| |done..].
    by rewrite <- Hz, !chars_app, app_nil_r.
Qed.

(** [CronTrigger.parse] declines the phrase: its pattern does not match,
    and the phrase as a whole has too few fields for a cron expression. *)
Lemma cron_declines name given :
  a_token name → PyStr.lower name ∉ named_instants →
  CronTrigger_parse ("Time is " +:+ name +:+ time_only given) = Return None.
Proof.
  intros Hname Hlower. unfold CronTrigger_parse.
  rewrite cron_pattern_declines by done.
  unfold isValidExpression. cbn [as_str mbind result_bind].
  rewrite time_is_item_stripped by done.
  change (PyStr.startswith ("Time is " +:+ name +:+ time_only given) "@")
    with false.
  cbv iota. rewrite time_is_item_words by done.
  by destruct given.
Qed.

Lemma time_is_item_matches name given :
  a_token name →
  re_match DateTimeTrigger_re ("Time is " +:+ name +:+ time_only given)
  = Some (Match ((if given then [(2, "timeOnly")] else []) ++ [(1, name)])
                (groupindex DateTimeTrigger_re)).
Proof.
  intros Hname.
  run_pattern DateTimeTrigger_re
    (Some ((if given then [(2, "timeOnly")] else []) ++ [(1, name)])).
  rewrite run_seq_cons, run_bol. rewrite run_seq_cons. read_lit.
  rewrite run_seq_cons, run_ws_single by done.
  rewrite run_seq_cons. read_lit.
  rewrite run_seq_cons, run_ws_single by (done || by apply not_at_token).
  rewrite run_seq_cons, run_grp. unfold star at 1. unfold nws. cbn [run].
  apply (rep_loop_class _ (λ c, negb (PyStr.is_space c)));
    [apply (class_body_Cls true)|by apply a_token_nws|by destruct given|lia
    |rewrite length_app; lia|].
  replace (8 + length (PyStr.chars name) - 8)%nat
    with (length (PyStr.chars name)) by lia.
  rewrite take_app_length, str_chars.
  rewrite run_seq_cons.
  destruct given; cbn [time_only PyStr.chars list_ascii_of_string].
  - eapply (run_star_once true _ _ _ _ _ _ [] ((2, "timeOnly") :: [(1, name)])).
    + intros K HK. rewrite run_seq_cons, run_ws_single by done.
      rewrite run_seq_cons. read_lit.
      rewrite run_seq_cons, run_grp. read_lit.
      rewrite run_seq_cons. read_lit. rewrite run_seq_nil.
      match goal with
      | |- context [take ?n _] => replace n with 8%nat by lia
      end.
      cbn [take PyStr.str string_of_list_ascii]. exact HK.
    + cbn [length]. lia.
    + intros K. by rewrite run_seq_cons, run_ws_none.
    + reflexivity.
  - rewrite run_star_none; [reflexivity|].
    intros K. by rewrite run_seq_cons, run_ws_none.
Qed.

(** [Time is <item>], with [[timeOnly]] behind the name or without:
    [CronTrigger.parse] is asked first and declines, unless the name is
    that of an instant; [DateTimeTrigger.parse] gives the trigger of the
    item, in which [timeOnly] is [True] or [False] and never left out, or
    the error of an item that the registry does not know. *)
Theorem time_is_item {Item} (registry : Registry Item) name given w :
  a_token name → PyStr.lower name ∉ named_instants →
  when_parse registry ("Time is " +:+ name +:+ time_only given) w
  = (match getItem registry (VStr name) with
     | Some _ =>
         Return (Some (Single (mkDescriptor "timer.DateTimeTrigger"
           (<["timeOnly" := VBool given]> {[ "itemName" := VStr name ]}))))
     | None => Raise (invalid_item_name (VStr name))
     end,
     mkWorld (warnings w) (invoked w ++ ["CronTrigger"; "DateTimeTrigger"])).
Proof.
  intros Hname Hlower.
  pose proof (time_is_item_stripped name given Hname) as Hstrip.
  apply (when_parse_stops registry _ "Time"
           (take 2 (triggerClasses registry))
           (DateTimeTrigger_class registry)
           (drop 3 (triggerClasses registry))).
  - by rewrite Hstrip, time_is_item_words.
  - reflexivity.
  - rewrite Hstrip. cbn [take triggerClasses].
    constructor; [by intros [=]|]. constructor; [|constructor].
    intros _. cbn [parse CronTrigger_class]. by apply cron_declines.
  - reflexivity.
  - rewrite Hstrip. cbn [parse DateTimeTrigger_class].
    unfold DateTimeTrigger_parse. rewrite time_is_item_matches by done.
    destruct given; cbn; by destruct (getItem registry (VStr name)).
  - by destruct (getItem registry (VStr name)).
Qed.

Lemma time_is_item_witness :
  when_parse demo_registry "Time is Hall" quiet
  = (Return (Some (Single (mkDescriptor "timer.DateTimeTrigger"
       (<["timeOnly" := VBool false]> {[ "itemName" := VStr "Hall" ]})))),
     mkWorld [] ["CronTrigger"; "DateTimeTrigger"]).
Proof.
  apply (time_is_item demo_registry "Hall" false quiet).
  - split; [done|]. repeat constructor.
  - unfold named_instants. rewrite !not_elem_of_cons.
    split_and!; [done..|apply not_elem_of_nil].
Defined.

(** *** A state between quotes *)

Lemma quoted_chars text rest :
  PyStr.chars (quoted text) ++ rest
  = "'"%char :: PyStr.chars text ++ "'"%char :: rest.
Proof.
  unfold quoted. rewrite !chars_app.
  cbn [PyStr.chars list_ascii_of_string app]. by rewrite <- (assoc_L (++)).
Qed.

(** ['[^']+'] takes a text between quotes, with the quotes. *)
Lemma quoted_accepts i text rest pos c k res :
  a_quoted_text text →
  k (pos + length (PyStr.chars (quoted text)))%nat rest ((i, quoted text) :: c)
  = Some res →
  run true (Grp i quoted_or_token) pos (PyStr.chars (quoted text) ++ rest) c k
  = Some res.
Proof.
  intros [Hne Htext] Hk.
  pose proof (str_chars (quoted text)) as Hstr.
  assert (Htake : take (length (PyStr.chars (quoted text)))
                       (PyStr.chars (quoted text) ++ rest)
                  = PyStr.chars (quoted text)) by apply take_app_length.
  assert (Hlen : length (PyStr.chars (quoted text))
                 = S (S (length (PyStr.chars text)))).
  { rewrite <- (app_nil_r (PyStr.chars (quoted text))), quoted_chars.
    cbn [length]. rewrite length_app. cbn [length]. lia. }
  rewrite quoted_chars in *. rewrite Hlen in *.
  unfold quoted_or_token. rewrite run_grp, run_alt_cons. apply or_else_first.
  rewrite run_seq_cons. read_lit.
  rewrite run_seq_cons. unfold notc.
  apply run_plus_class.
  - by apply chars_nonempty.
  - eapply Forall_impl; [exact Htext|]. intros y Hy. cbn beta.
    by rewrite bool_decide_eq_false_2.
  - done.
  - rewrite run_seq_cons. read_lit. rewrite run_seq_nil.
    match goal with
    | |- context [take ?n _] =>
        replace n with (S (S (length (PyStr.chars text)))) by lia
    end.
    rewrite Htake, Hstr.
    match goal with
    | |- k ?p _ _ = _ =>
        replace p with (pos + S (S (length (PyStr.chars text))))%nat by lia
    end.
    exact Hk.
Qed.

Lemma quoted_state_matches name text :
  a_name name → a_quoted_text text →
  re_match ItemStateUpdateTrigger_re
    ("Item " +:+ name +:+ " received update " +:+ quoted text)
  = Some (Match [(3, quoted text); (2, name)]
                (groupindex ItemStateUpdateTrigger_re)).
Proof.
  intros Hname Htext.
  unfold re_match. change (ignorecase ItemStateUpdateTrigger_re) with true.
  enough (run true (expr ItemStateUpdateTrigger_re) 0
            (PyStr.chars ("Item " +:+ name +:+ " received update " +:+ quoted text))
            [] (λ _ _ c, Some c)
          = Some [(3, quoted text); (2, name)]) as -> by done.
  rewrite !chars_app. cbn [PyStr.chars list_ascii_of_string app].
  fold (PyStr.chars (quoted text)).
  cbn [expr ItemStateUpdateTrigger_re].
  item_head. apply name_accepts; [done..|].
  rewrite run_seq_cons, run_ws_single by done.
  rewrite run_seq_cons. read_lit.
  rewrite run_seq_cons, run_ws_single by done.
  rewrite run_seq_cons. read_lit.
  rewrite run_seq_cons.
  rewrite <- (app_nil_r (PyStr.chars (quoted text))).
  eapply (run_star_once true _ _ _ _ _ _ [] _).
  - intros K HK.
    rewrite run_seq_cons, run_ws_single
      by (done || by rewrite quoted_chars).
    rewrite run_seq_cons. apply quoted_accepts; [done|].
    rewrite run_seq_nil. exact HK.
  - cbn [length]. lia.
  - intros K. by rewrite run_seq_cons, run_ws_none.
  - reflexivity.
Qed.

(** A state between single quotes, which may hold blanks, is taken with
    its quotes: [Item <name> received update '<text>'] gives the trigger of
    the item whose state is the text between its two quotes, quotes
    included. *)
Theorem quoted_state_keeps_its_quotes {Item} (registry : Registry Item)
        name text w :
  a_name name → a_quoted_text text →
  when_parse registry
    ("Item " +:+ name +:+ " received update " +:+ quoted text) w
  = (match getItem registry (VStr name) with
     | Some _ => Return (Some (Single (ItemStateUpdateTrigger (VStr name)
                                         (VStr (quoted text)))))
     | None => Raise (invalid_item_name (VStr name))
     end,
     mkWorld (warnings w) (invoked w ++ ["ItemStateUpdateTrigger"])).
Proof.
  intros Hname Htext.
  assert (Hstrip :
    PyStr.strip ("Item " +:+ name +:+ " received update " +:+ quoted text)
    = "Item " +:+ name +:+ " received update " +:+ quoted text).
  { apply (item_phrase_stripped _ "'"%char); [|done].
    unfold quoted. by rewrite !chars_app, !last_app. }
  apply (when_parse_stops registry _ "Item"
           (take 3 (triggerClasses registry))
           (ItemStateUpdateTrigger_class registry)
           (drop 4 (triggerClasses registry))).
  - by rewrite Hstrip.
  - reflexivity.
  - cbn [take triggerClasses]. repeat (constructor; [by intros [=]|]). constructor.
  - reflexivity.
  - rewrite Hstrip. cbn [parse ItemStateUpdateTrigger_class].
    unfold ItemStateUpdateTrigger_parse. rewrite quoted_state_matches by done.
    cbn; by destruct (getItem registry (VStr name)).
  - by destruct (getItem registry (VStr name)).
Qed.

Lemma quoted_state_keeps_its_quotes_witness :
  when_parse demo_registry "Item Hall received update 'half open'" quiet
  = (Return (Some (Single (ItemStateUpdateTrigger (VStr "Hall")
                                                  (VStr "'half open'")))),
     mkWorld [] ["ItemStateUpdateTrigger"]).
Proof.
  apply (quoted_state_keeps_its_quotes demo_registry "Hall" "half open" quiet).
  - split; [done|]. repeat constructor.
  - split; [done|]. repeat constructor; done.
Defined.
